(** * Startup Idea Lab: the response pipeline and the session state of [App.tsx]

    A shallow embedding of the two round trips of [src/App.tsx]
    ([generateAIIdea] and [evaluateAIIdea]): cleaning of the model's reply,
    extraction of the JSON object, [JSON.parse], validation of the required
    fields, and the updates of the component's state slots. *)

From Stdlib Require Import String Ascii.
From Stdlib Require Import List NArith ZArith Bool Lia.
Import ListNotations.

(** ** JavaScript strings

    A JavaScript string is a sequence of UTF-16 code units; every character
    test of the source ([trim], [startsWith], the regular expressions) works
    on code units. *)

Definition jsstring := list N.

(** [lit] embeds an ASCII literal of the source text. *)
Definition lit (s : string) : jsstring :=
  map N_of_ascii (list_ascii_of_string s).
Arguments lit s%_string.

Definition LF : N := 10%N.
Definition LBRACE : N := 123%N.
Definition RBRACE : N := 125%N.
Definition QUOTE : N := 34%N.
Definition BACKSLASH : N := 92%N.

Fixpoint str_eqb (a b : jsstring) : bool :=
  match a, b with
  | [], [] => true
  | x :: a', y :: b' => N.eqb x y && str_eqb a' b'
  | _, _ => false
  end.

(** [s.startsWith(pat)] *)
Fixpoint startsWith (s pat : jsstring) {struct pat} : bool :=
  match pat, s with
  | [], _ => true
  | p :: pat', c :: s' => N.eqb c p && startsWith s' pat'
  | _ :: _, [] => false
  end.

(** [s.includes(pat)] *)
Fixpoint includes (s pat : jsstring) : bool :=
  startsWith s pat ||
  match s with
  | [] => false
  | _ :: s' => includes s' pat
  end.

(** [s.replace(pat, '')] with a string pattern: the first occurrence goes. *)
Fixpoint remove_first (pat s : jsstring) : jsstring :=
  if startsWith s pat then skipn (length pat) s
  else match s with
       | [] => []
       | c :: s' => c :: remove_first pat s'
       end.

(** [s.substring(0, n)] *)
Definition substring0 (n : nat) (s : jsstring) : jsstring := firstn n s.

(** The code units that [String.prototype.trim] removes: the WhiteSpace and
    LineTerminator productions of ECMAScript. *)
Definition is_js_whitespace (c : N) : bool :=
  (N.eqb c 9 || N.eqb c 10 || N.eqb c 11 || N.eqb c 12 || N.eqb c 13 ||
   N.eqb c 32 || N.eqb c 160 || N.eqb c 5760 ||
   (N.leb 8192 c && N.leb c 8202) ||
   N.eqb c 8232 || N.eqb c 8233 || N.eqb c 8239 || N.eqb c 8287 ||
   N.eqb c 12288 || N.eqb c 65279)%N.

Fixpoint trimStart (s : jsstring) : jsstring :=
  match s with
  | [] => []
  | c :: r => if is_js_whitespace c then trimStart r else s
  end.

Definition trimEnd (s : jsstring) : jsstring := rev (trimStart (rev s)).

(** [s.trim()] *)
Definition trim (s : jsstring) : jsstring := trimEnd (trimStart s).

(** ** Fence stripping (App.tsx lines 137-144 and 274-281) *)

Definition FENCE : jsstring := lit "```".
Definition FENCE_JSON : jsstring := lit "```json".

Definition drop_newline (s : jsstring) : jsstring :=
  match s with
  | c :: r => if N.eqb c LF then r else s
  | [] => []
  end.

(** [s.replace(/<marker>\n?/, '')]: the regular expression has no [g] flag,
    so the leftmost occurrence of the marker is removed, together with the
    line feed that follows it when there is one. *)
Fixpoint replace_open_fence (marker s : jsstring) : jsstring :=
  if startsWith s marker then drop_newline (skipn (length marker) s)
  else match s with
       | [] => []
       | c :: r => c :: replace_open_fence marker r
       end.

(** Whether [/\n?```$/] matches at the current position: the pattern is
    anchored at the end of the input (no [m] flag), so what remains must be
    the fence, with or without a line feed in front. *)
Definition close_fence_here (s : jsstring) : bool :=
  str_eqb s (LF :: FENCE) || str_eqb s FENCE.

(** [s.replace(/\n?```$/, '')]: positions are tried from the left. *)
Fixpoint replace_close_fence (s : jsstring) : jsstring :=
  if close_fence_here s then []
  else match s with
       | [] => []
       | c :: r => c :: replace_close_fence r
       end.

(** The [if / else if] of lines 140-144, on the trimmed text. *)
Definition strip_fences (cleanedText : jsstring) : jsstring :=
  if startsWith cleanedText FENCE_JSON then
    replace_close_fence (replace_open_fence FENCE_JSON cleanedText)
  else if startsWith cleanedText FENCE then
    replace_close_fence (replace_open_fence FENCE cleanedText)
  else cleanedText.

(** Lines 137-144: [let cleanedText = text.trim()] and the fence stripping. *)
Definition clean_response (text : jsstring) : jsstring :=
  strip_fences (trim text).

(** ** Fence stripping, as the specification words it

    The specification describes the cleaning by what is removed from the two
    ends of the trimmed text; [unfenced] follows those words, to be compared
    with [strip_fences], which follows the regular expressions. *)

Definition ends_with (s suffix : jsstring) : bool :=
  startsWith (rev s) (rev suffix).

Definition remove_last (n : nat) (s : jsstring) : jsstring :=
  firstn (length s - n) s.

(** Any trailing closing fence marker is removed, with the line feed before
    it when there is one. *)
Definition without_closing_fence (s : jsstring) : jsstring :=
  if ends_with s (LF :: FENCE) then remove_last 4 s
  else if ends_with s FENCE then remove_last 3 s
  else s.

(** The opening marker at the start is removed, with the line feed after it
    when there is one. *)
Definition without_opening_fence (marker s : jsstring) : jsstring :=
  drop_newline (skipn (length marker) s).

Definition unfenced (t : jsstring) : jsstring :=
  if startsWith t FENCE_JSON then
    without_closing_fence (without_opening_fence FENCE_JSON t)
  else if startsWith t FENCE then
    without_closing_fence (without_opening_fence FENCE t)
  else t.

(** ** Locating the JSON object (lines 147 and 284)

    [cleanedText.match(/\{[\s\S]*\}/)]: [[\s\S]*] is greedy and matches any
    code unit, so from an opening brace the match runs to the last closing
    brace that follows it. *)

(** What [[\s\S]*\}] matches at the start of [s]: the longest prefix that
    ends with a closing brace. *)
Fixpoint greedy_to_rbrace (s : jsstring) : option jsstring :=
  match s with
  | [] => None
  | c :: r =>
      match greedy_to_rbrace r with
      | Some m => Some (c :: m)
      | None => if N.eqb c RBRACE then Some [c] else None
      end
  end.

(** The leftmost position at which the whole pattern matches. *)
Fixpoint match_json_object (s : jsstring) : option jsstring :=
  match s with
  | [] => None
  | c :: r =>
      if N.eqb c LBRACE then
        match greedy_to_rbrace r with
        | Some m => Some (c :: m)
        | None => match_json_object r
        end
      else match_json_object r
  end.

(** ** JSON values, as [JSON.parse] builds them *)

(** A Number that [JSON.parse] can produce. A finite non-zero value is kept
    as the decimal value of its literal, [± 0.d1 d2 ... dk × 10 ^ point] with
    [d1] and [dk] non-zero. The two range effects of the binary64 format are
    modelled exactly: a literal of magnitude at least [2^1024 - 2^970] reads
    as [Infinity], one of magnitude at most [2^-1075] reads as zero. The
    rounding of the significand to 53 bits is not modelled: the handlers
    only test these numbers against [null] and for truthiness and store
    them. *)
Inductive number : Type :=
| NZero (neg : bool)
| NFinite (neg : bool) (digits : list N) (point : Z)
| NInfinity (neg : bool).

Unset Elimination Schemes.
Inductive json : Type :=
| JNull
| JBool (b : bool)
| JNumber (n : number)
| JString (s : jsstring)
| JArray (items : list json)
| JObject (props : list (jsstring * json)).
Set Elimination Schemes.

(** *** Decimal digits *)

Definition ZERO : N := 48%N.

Definition is_digit (c : N) : bool := (N.leb 48 c && N.leb c 57)%N.

Definition digit_code (d : N) : N := (d + 48)%N.

(** Horner evaluation of a list of digit values. *)
Definition digits_value (ds : list N) : N :=
  fold_left (fun acc d => (10 * acc + d)%N) ds 0%N.

Fixpoint N_to_digits_aux (fuel : nat) (n : N) (acc : list N) : list N :=
  match fuel with
  | O => acc
  | S f =>
      if (n <? 10)%N then n :: acc
      else N_to_digits_aux f (n / 10)%N ((n mod 10)%N :: acc)
  end.

(** The decimal digits of [n], most significant first; the binary size of
    [n] bounds their number. *)
Definition N_to_digits (n : N) : list N :=
  N_to_digits_aux (S (N.to_nat (N.size n))) n [].

(** The decimal numeral of a non-negative integer, as [toString] prints it. *)
Definition N_to_string (n : N) : jsstring := map digit_code (N_to_digits n).

(** The longest run of decimal digits at the start of [s], as digit values. *)
Fixpoint take_digits (s : jsstring) : list N * jsstring :=
  match s with
  | c :: r =>
      if is_digit c then
        let (ds, rest) := take_digits r in ((c - 48)%N :: ds, rest)
      else ([], s)
  | [] => ([], [])
  end.

Fixpoint strip_leading_zeros (ds : list N) : list N :=
  match ds with
  | d :: r => if N.eqb d 0 then strip_leading_zeros r else ds
  | [] => []
  end.

Definition strip_trailing_zeros (ds : list N) : list N :=
  rev (strip_leading_zeros (rev ds)).

(** *** From a number literal to a Number *)

Inductive magnitude : Type := Underflow | Normal | Overflow.

(** Half an ulp above the largest finite binary64 value. *)
Definition OVERFLOW_BOUND : N := (2 ^ 1024 - 2 ^ 970)%N.

(** [2 ^ 1075]: the reciprocal of half the smallest subnormal. *)
Definition UNDERFLOW_SCALE : N := (2 ^ 1075)%N.

(** Where [0.d1...dk × 10 ^ point] falls, for [d1] non-zero. The value lies
    in [[10 ^ (point - 1), 10 ^ point)], which settles the far cases without
    computing a power. *)
Definition classify_magnitude (ds : list N) (point : Z) : magnitude :=
  if (309 <? point)%Z then Overflow
  else if (point <? -323)%Z then Underflow
  else
    let m := digits_value ds in
    let x := (point - Z.of_nat (length ds))%Z in
    if (0 <=? x)%Z then
      if (OVERFLOW_BOUND <=? m * 10 ^ Z.to_N x)%N then Overflow else Normal
    else
      let p := (10 ^ Z.to_N (- x))%N in
      if (OVERFLOW_BOUND * p <=? m)%N then Overflow
      else if (m * UNDERFLOW_SCALE <=? p)%N then Underflow
      else Normal.

(** The Number denoted by the literal [int.frac e exp]. *)
Definition make_number (neg : bool) (int frac : list N) (exp : Z) : number :=
  let all := int ++ frac in
  let lead := (length all - length (strip_leading_zeros all))%nat in
  let ds := strip_trailing_zeros (strip_leading_zeros all) in
  match ds with
  | [] => NZero neg
  | _ :: _ =>
      let point := (Z.of_nat (length int) + exp - Z.of_nat lead)%Z in
      match classify_magnitude ds point with
      | Overflow => NInfinity neg
      | Underflow => NZero neg
      | Normal => NFinite neg ds point
      end
  end.

(** *** Objects

    An object is the list of its own properties in the order in which
    [JSON.stringify] and [for-in] enumerate them: array-index keys first, in
    ascending numeric order, then the other keys in order of creation. *)

Definition MAX_ARRAY_INDEX : N := 4294967294%N.

(** The array index that a property key denotes, if it is the canonical
    numeral of an integer below [2^32 - 1]. *)
Definition array_index (k : jsstring) : option N :=
  match k with
  | [] => None
  | c :: r =>
      if forallb is_digit k && (negb (N.eqb c ZERO) || match r with [] => true | _ => false end)
      then
        let n := digits_value (map (fun c => (c - 48)%N) k) in
        if (n <=? MAX_ARRAY_INDEX)%N then Some n else None
      else None
  end.

(** Whether a new key [k] is enumerated before the existing key [k']. *)
Definition key_before (k k' : jsstring) : bool :=
  match array_index k, array_index k' with
  | Some i, Some j => (i <? j)%N
  | Some _, None => true
  | None, _ => false
  end.

Fixpoint has_key (k : jsstring) (props : list (jsstring * json)) : bool :=
  match props with
  | [] => false
  | (k', _) :: rest => str_eqb k' k || has_key k rest
  end.

Fixpoint replace_value (k : jsstring) (v : json) (props : list (jsstring * json))
  : list (jsstring * json) :=
  match props with
  | [] => []
  | (k', v') :: rest =>
      if str_eqb k' k then (k', v) :: rest else (k', v') :: replace_value k v rest
  end.

Fixpoint insert_key (k : jsstring) (v : json) (props : list (jsstring * json))
  : list (jsstring * json) :=
  match props with
  | [] => [(k, v)]
  | (k', v') :: rest =>
      if key_before k k' then (k, v) :: props else (k', v') :: insert_key k v rest
  end.

(** [CreateDataProperty(obj, k, v)]: an existing property keeps its place
    and takes the new value; a new one is added. *)
Definition obj_set (k : jsstring) (v : json) (props : list (jsstring * json))
  : list (jsstring * json) :=
  if has_key k props then replace_value k v props else insert_key k v props.

(** [obj[k]] on the own properties; [None] is [undefined]. *)
Fixpoint get_prop (k : jsstring) (props : list (jsstring * json)) : option json :=
  match props with
  | [] => None
  | (k', v) :: rest => if str_eqb k' k then Some v else get_prop k rest
  end.

(** ** [JSON.parse]

    A recursive-descent reader of the JSON grammar (ECMA-404), which is what
    [JSON.parse] accepts. A failure records the input that was left when the
    reader stopped, from which the position of the error follows. *)

Inductive presult (A : Type) : Type :=
| POk (v : A) (rest : jsstring)
| PFail (left : jsstring)
| PFuel.
Arguments POk {A} v rest.
Arguments PFail {A} left.
Arguments PFuel {A}.

Definition pmap {A B : Type} (f : A -> B) (r : presult A) : presult B :=
  match r with
  | POk v rest => POk (f v) rest
  | PFail l => PFail l
  | PFuel => PFuel
  end.

Definition is_json_ws (c : N) : bool :=
  (N.eqb c 32 || N.eqb c 9 || N.eqb c 10 || N.eqb c 13)%N.

Fixpoint skip_ws (s : jsstring) : jsstring :=
  match s with
  | c :: r => if is_json_ws c then skip_ws r else s
  | [] => []
  end.

Definition hex_value (c : N) : option N :=
  if (N.leb 48 c && N.leb c 57)%N then Some (c - 48)%N
  else if (N.leb 97 c && N.leb c 102)%N then Some (c - 87)%N
  else if (N.leb 65 c && N.leb c 70)%N then Some (c - 55)%N
  else None.

Definition hex4_value (h1 h2 h3 h4 : N) : option N :=
  match hex_value h1, hex_value h2, hex_value h3, hex_value h4 with
  | Some a, Some b, Some c, Some d => Some (((a * 16 + b) * 16 + c) * 16 + d)%N
  | _, _, _, _ => None
  end.

(** The code unit that the escape [\c] denotes. *)
Definition simple_escape (c : N) : option N :=
  if N.eqb c 34 then Some 34%N            (* quotation mark *)
  else if N.eqb c 92 then Some 92%N       (* reverse solidus *)
  else if N.eqb c 47 then Some 47%N       (* solidus *)
  else if N.eqb c 98 then Some 8%N        (* \b *)
  else if N.eqb c 102 then Some 12%N      (* \f *)
  else if N.eqb c 110 then Some 10%N      (* \n *)
  else if N.eqb c 114 then Some 13%N      (* \r *)
  else if N.eqb c 116 then Some 9%N       (* \t *)
  else None.

(** The characters of a string literal, after its opening quote and up to the
    closing one. *)
Fixpoint parse_chars (s : jsstring) : presult jsstring :=
  match s with
  | [] => PFail []
  | c :: r =>
      if N.eqb c QUOTE then POk [] r
      else if N.eqb c BACKSLASH then
        match r with
        | [] => PFail []
        | e :: r1 =>
            if N.eqb e 117 then         (* \uXXXX *)
              match r1 with
              | h1 :: h2 :: h3 :: h4 :: r2 =>
                  match hex4_value h1 h2 h3 h4 with
                  | Some u => pmap (cons u) (parse_chars r2)
                  | None => PFail r1
                  end
              | _ => PFail r1
              end
            else
              match simple_escape e with
              | Some u => pmap (cons u) (parse_chars r1)
              | None => PFail r
              end
        end
      else if (c <? 32)%N then PFail s
      else pmap (cons c) (parse_chars r)
  end.

Definition MINUS : N := 45%N.
Definition PLUS : N := 43%N.
Definition DOT : N := 46%N.
Definition COMMA : N := 44%N.
Definition COLON : N := 58%N.
Definition LBRACKET : N := 91%N.
Definition RBRACKET : N := 93%N.

(** The optional fraction of a number literal. *)
Definition parse_frac (s : jsstring) : presult (list N) :=
  match s with
  | c :: r =>
      if N.eqb c DOT then
        match take_digits r with
        | ([], _) => PFail r
        | (ds, rest) => POk ds rest
        end
      else POk [] s
  | [] => POk [] []
  end.

(** The digits of an exponent, after its sign. *)
Definition parse_exp_digits (neg : bool) (s : jsstring) : presult Z :=
  match take_digits s with
  | ([], _) => PFail s
  | (ds, rest) =>
      let e := Z.of_N (digits_value ds) in
      POk (if neg then (- e)%Z else e) rest
  end.

(** The optional exponent of a number literal. *)
Definition parse_exp (s : jsstring) : presult Z :=
  match s with
  | c :: r =>
      if (N.eqb c 101 || N.eqb c 69)%N then       (* e E *)
        match r with
        | sg :: r' =>
            if N.eqb sg MINUS then parse_exp_digits true r'
            else if N.eqb sg PLUS then parse_exp_digits false r'
            else parse_exp_digits false r
        | [] => parse_exp_digits false r
        end
      else POk 0%Z s
  | [] => POk 0%Z []
  end.

(** The rest of a number literal after its integer part [int]: an optional
    fraction and an optional exponent. *)
Definition parse_fraction_exponent (neg : bool) (int : list N) (s : jsstring)
  : presult number :=
  match parse_frac s with
  | POk frac s3 =>
      match parse_exp s3 with
      | POk e s4 => POk (make_number neg int frac e) s4
      | PFail l => PFail l
      | PFuel => PFuel
      end
  | PFail l => PFail l
  | PFuel => PFuel
  end.

(** The part of a number literal after the sign. The integer part is a
    single zero or a run of digits that does not start with zero. *)
Definition parse_magnitude (neg : bool) (s : jsstring) : presult number :=
  match s with
  | [] => PFail []
  | c :: r =>
      if is_digit c then
        if N.eqb c ZERO then parse_fraction_exponent neg [0%N] r
        else let (int, s2) := take_digits s in parse_fraction_exponent neg int s2
      else PFail s
  end.

(** A number literal: an optional minus sign and the magnitude. *)
Definition parse_number (s : jsstring) : presult number :=
  match s with
  | [] => PFail []
  | c :: r =>
      if N.eqb c MINUS then parse_magnitude true r else parse_magnitude false s
  end.

(** A keyword literal. *)
Definition parse_keyword (word : jsstring) (v : json) (s : jsstring) : presult json :=
  if startsWith s word then POk v (skipn (length word) s) else PFail s.

(** Values, the members of an object and the elements of an array. Input is
    consumed at least at every second call, so twice the length of the text
    is enough [fuel]. [parse_members] and [parse_elements] start after the
    opening bracket or a comma and carry what was read so far. *)
Fixpoint parse_value (fuel : nat) (s : jsstring) : presult json :=
  match fuel with
  | O => PFuel
  | S f =>
      match skip_ws s with
      | [] => PFail []
      | c :: r =>
          if N.eqb c LBRACE then
            match skip_ws r with
            | [] => PFail []
            | c1 :: r1 =>
                if N.eqb c1 RBRACE then POk (JObject []) r1
                else parse_members f (c1 :: r1) []
            end
          else if N.eqb c LBRACKET then
            match skip_ws r with
            | [] => PFail []
            | c1 :: r1 =>
                if N.eqb c1 RBRACKET then POk (JArray []) r1
                else parse_elements f (c1 :: r1) []
            end
          else if N.eqb c QUOTE then pmap JString (parse_chars r)
          else if (N.eqb c MINUS || is_digit c)%bool then
            pmap JNumber (parse_number (c :: r))
          else if N.eqb c 116 then parse_keyword (lit "true") (JBool true) (c :: r)
          else if N.eqb c 102 then parse_keyword (lit "false") (JBool false) (c :: r)
          else if N.eqb c 110 then parse_keyword (lit "null") JNull (c :: r)
          else PFail (c :: r)
      end
  end

with parse_members (fuel : nat) (s : jsstring) (acc : list (jsstring * json))
  : presult json :=
  match fuel with
  | O => PFuel
  | S f =>
      match skip_ws s with
      | [] => PFail []
      | c :: r =>
          if N.eqb c QUOTE then
            match parse_chars r with
            | POk k r1 =>
                match skip_ws r1 with
                | [] => PFail []
                | c1 :: r2 =>
                    if N.eqb c1 COLON then
                      match parse_value f r2 with
                      | POk v r3 =>
                          match skip_ws r3 with
                          | [] => PFail []
                          | c3 :: r4 =>
                              if N.eqb c3 COMMA then
                                parse_members f r4 (obj_set k v acc)
                              else if N.eqb c3 RBRACE then
                                POk (JObject (obj_set k v acc)) r4
                              else PFail (c3 :: r4)
                          end
                      | PFail l => PFail l
                      | PFuel => PFuel
                      end
                    else PFail (c1 :: r2)
                end
            | PFail l => PFail l
            | PFuel => PFuel
            end
          else PFail (c :: r)
      end
  end

with parse_elements (fuel : nat) (s : jsstring) (acc : list json)
  : presult json :=
  match fuel with
  | O => PFuel
  | S f =>
      match parse_value f s with
      | POk v r1 =>
          match skip_ws r1 with
          | [] => PFail []
          | c :: r2 =>
              if N.eqb c COMMA then parse_elements f r2 (acc ++ [v])
              else if N.eqb c RBRACKET then POk (JArray (acc ++ [v])) r2
              else PFail (c :: r2)
          end
      | PFail l => PFail l
      | PFuel => PFuel
      end
  end.

(** The outcome of [JSON.parse text]: the value, or the position at which
    the [SyntaxError] arises. *)
Definition JSON_parse (text : jsstring) : json + nat :=
  match parse_value (S (2 * length text)) text with
  | POk v rest =>
      match skip_ws rest with
      | [] => inl v
      | l => inr (length text - length l)%nat
      end
  | PFail l => inr (length text - length l)%nat
  | PFuel => inr (length text)
  end.

(** ** [JSON.stringify]

    The text that [JSON.stringify(value)] gives for a value that [JSON.parse]
    built: no white space, properties in enumeration order. *)

Definition hex_digit (d : N) : N :=
  if (d <? 10)%N then (d + 48)%N else (d + 87)%N.

(** [\uXXXX] with lower-case digits. *)
Definition unicode_escape (c : N) : jsstring :=
  BACKSLASH :: 117%N ::
  map hex_digit [(c / 4096)%N; ((c / 256) mod 16)%N; ((c / 16) mod 16)%N; (c mod 16)%N].

Definition is_high_surrogate (c : N) : bool := (N.leb 55296 c && N.leb c 56319)%N.
Definition is_low_surrogate (c : N) : bool := (N.leb 56320 c && N.leb c 57343)%N.

(** [QuoteJSONString] without the surrounding quotes: the short escapes,
    [\u00XX] for the other control characters, [\uDXXX] for a surrogate
    that is not part of a pair. *)
Fixpoint quote_chars (s : jsstring) : jsstring :=
  match s with
  | [] => []
  | c :: r =>
      if N.eqb c 8 then BACKSLASH :: 98%N :: quote_chars r
      else if N.eqb c 9 then BACKSLASH :: 116%N :: quote_chars r
      else if N.eqb c 10 then BACKSLASH :: 110%N :: quote_chars r
      else if N.eqb c 12 then BACKSLASH :: 102%N :: quote_chars r
      else if N.eqb c 13 then BACKSLASH :: 114%N :: quote_chars r
      else if N.eqb c QUOTE then BACKSLASH :: QUOTE :: quote_chars r
      else if N.eqb c BACKSLASH then BACKSLASH :: BACKSLASH :: quote_chars r
      else if (c <? 32)%N then unicode_escape c ++ quote_chars r
      else if is_high_surrogate c then
        match r with
        | d :: r' =>
            if is_low_surrogate d then c :: d :: quote_chars r'
            else unicode_escape c ++ quote_chars r
        | [] => unicode_escape c
        end
      else if is_low_surrogate c then unicode_escape c ++ quote_chars r
      else c :: quote_chars r
  end.

Definition quote (s : jsstring) : jsstring := QUOTE :: quote_chars s ++ [QUOTE].

(** [Number::toString] on [0.d1...dk × 10 ^ n]: plain digits up to 21 integer
    digits, a leading [0.] down to six zeros after the point, and the
    exponent form otherwise. *)
Definition digits_to_string (ds : list N) (n : Z) : jsstring :=
  let k := Z.of_nat (length ds) in
  if ((k <=? n) && (n <=? 21))%Z then
    map digit_code ds ++ repeat ZERO (Z.to_nat (n - k))
  else if ((0 <? n) && (n <=? 21))%Z then
    map digit_code (firstn (Z.to_nat n) ds) ++ DOT :: map digit_code (skipn (Z.to_nat n) ds)
  else if ((-6 <? n) && (n <=? 0))%Z then
    ZERO :: DOT :: repeat ZERO (Z.to_nat (- n)) ++ map digit_code ds
  else
    let e := (n - 1)%Z in
    let sign := if (e <? 0)%Z then MINUS else PLUS in
    let mantissa :=
      match ds with
      | [] => []
      | [d] => [digit_code d]
      | d :: rest => digit_code d :: DOT :: map digit_code rest
      end in
    mantissa ++ 101%N :: sign :: N_to_string (Z.abs_N e).

(** How [JSON.stringify] writes a Number: a non-finite one becomes [null],
    either zero becomes [0]. *)
Definition number_to_json (x : number) : jsstring :=
  match x with
  | NZero _ => [ZERO]
  | NInfinity _ => lit "null"
  | NFinite neg ds n =>
      if neg then MINUS :: digits_to_string ds n else digits_to_string ds n
  end.

Fixpoint stringify (v : json) : jsstring :=
  match v with
  | JNull => lit "null"
  | JBool b => if b then lit "true" else lit "false"
  | JNumber x => number_to_json x
  | JString s => quote s
  | JArray items =>
      LBRACKET ::
      (fix elements (l : list json) : jsstring :=
         match l with
         | [] => []
         | x :: rest =>
             stringify x ++
             match rest with
             | [] => []
             | _ :: _ => COMMA :: elements rest
             end
         end) items ++ [RBRACKET]
  | JObject props =>
      LBRACE ::
      (fix members (l : list (jsstring * json)) : jsstring :=
         match l with
         | [] => []
         | (k, x) :: rest =>
             quote k ++ COLON :: stringify x ++
             match rest with
             | [] => []
             | _ :: _ => COMMA :: members rest
             end
         end) props ++ [RBRACE]
  end.

(** ** Re-serialising a record *)

(** The lists inside [stringify], as functions of their own. *)
Fixpoint stringify_elements (l : list json) : jsstring :=
  match l with
  | [] => []
  | x :: rest =>
      stringify x ++
      match rest with
      | [] => []
      | _ :: _ => COMMA :: stringify_elements rest
      end
  end.

Fixpoint stringify_members (l : list (jsstring * json)) : jsstring :=
  match l with
  | [] => []
  | (k, x) :: rest =>
      quote k ++ COLON :: stringify x ++
      match rest with
      | [] => []
      | _ :: _ => COMMA :: stringify_members rest
      end
  end.

(** [===] does not tell the two zeros apart, and [JSON.stringify] writes both
    as [0]. *)
Definition unsigned_number (x : number) : number :=
  match x with
  | NZero _ => NZero false
  | _ => x
  end.

Fixpoint unsigned_zeros (v : json) : json :=
  match v with
  | JNumber x => JNumber (unsigned_number x)
  | JArray items => JArray (map unsigned_zeros items)
  | JObject props =>
      JObject (map (fun kv : jsstring * json => let (k, x) := kv in (k, unsigned_zeros x))
                 props)
  | _ => v
  end.

(** Two records are equivalent when they have the same keys in the same
    order, bound to the same values, numbers compared as [===] does. *)
Definition json_equiv (a b : json) : Prop := unsigned_zeros a = unsigned_zeros b.

(** No number in the value is [Infinity] or [-Infinity]. *)
Fixpoint finite_numbers (v : json) : bool :=
  match v with
  | JNumber (NInfinity _) => false
  | JArray items => forallb finite_numbers items
  | JObject props =>
      forallb (fun kv : jsstring * json => let (k, x) := kv in finite_numbers x) props
  | _ => true
  end.

(** *** What [JSON.parse] guarantees about its result *)

(** Digits of a significand: decimal, without leading or trailing zero. *)
Definition digits_wf (ds : list N) : Prop :=
  Forall (fun d => (d < 10)%N) ds /\ hd 0%N ds <> 0%N /\ last ds 0%N <> 0%N.

Definition number_wf (x : number) : Prop :=
  match x with
  | NFinite _ ds point => digits_wf ds /\ classify_magnitude ds point = Normal
  | _ => True
  end.

(** [k'] may stand after [k] in an object: it is another key, and a new
    property [k'] would not have been placed before [k]. *)
Definition may_follow (k k' : jsstring) : bool :=
  negb (str_eqb k k') && negb (key_before k' k).

Fixpoint props_ordered (props : list (jsstring * json)) : bool :=
  match props with
  | [] => true
  | (k, _) :: rest =>
      forallb (fun kv => may_follow k (fst kv)) rest && props_ordered rest
  end.

Unset Elimination Schemes.
Inductive json_wf : json -> Prop :=
| wf_null : json_wf JNull
| wf_bool (b : bool) : json_wf (JBool b)
| wf_number (x : number) : number_wf x -> json_wf (JNumber x)
| wf_string (s : jsstring) : json_wf (JString s)
| wf_array (items : list json) :
    Forall json_wf items -> json_wf (JArray items)
| wf_object (props : list (jsstring * json)) :
    props_ordered props = true ->
    Forall (fun kv => json_wf (snd kv)) props ->
    json_wf (JObject props).
Set Elimination Schemes.

(** What may follow a value inside a JSON text: nothing, a comma or a
    closing bracket. *)
Definition delimited (rest : jsstring) : bool :=
  match rest with
  | [] => true
  | c :: _ => N.eqb c COMMA || N.eqb c RBRACE || N.eqb c RBRACKET
  end.

(** The head of a text is not a digit. *)
Definition no_digit_head (rest : jsstring) : Prop :=
  match rest with
  | [] => True
  | c :: _ => is_digit c = false
  end.

(** The code units with which a JSON value can begin. *)
Definition starts_value (c : N) : bool :=
  N.eqb c LBRACE || N.eqb c LBRACKET || N.eqb c QUOTE || N.eqb c MINUS
  || is_digit c || N.eqb c 116 || N.eqb c 102 || N.eqb c 110.

(** The text of a well-formed value without infinities, followed by a
    delimiter, reads back as the value, given fuel for its length. *)
Definition reads_back (v : json) : Prop :=
  json_wf v -> finite_numbers v = true ->
  forall fuel rest,
    (length (stringify v) <= fuel)%nat -> delimited rest = true ->
    parse_value fuel (stringify v ++ rest) = POk (unsigned_zeros v) rest.

(** A reader makes progress: it does not stop for lack of fuel, and what it
    leaves is shorter than what it was given. *)
Definition progresses {A : Type} (p : presult A) (s : jsstring) : Prop :=
  p <> PFuel /\ forall v r, p = POk v r -> length r < length s.
(** ** The values the program handles *)

(** A JavaScript value read off parsed JSON: [None] is [undefined]. *)
Definition jsvalue := option json.

Definition is_empty (s : jsstring) : bool :=
  match s with [] => true | _ :: _ => false end.

(** [ToBoolean]: what [!x] and [x || y] test. *)
Definition truthy (v : jsvalue) : bool :=
  match v with
  | None => false
  | Some JNull => false
  | Some (JBool b) => b
  | Some (JNumber (NZero _)) => false
  | Some (JNumber _) => true
  | Some (JString s) => negb (is_empty s)
  | Some (JArray _) => true
  | Some (JObject _) => true
  end.

(** [x === undefined || x === null], negated. *)
Definition not_nullish (v : jsvalue) : bool :=
  match v with
  | None => false
  | Some JNull => false
  | Some _ => true
  end.

(** [data[field]]. The data is always an object here, since the parsed text
    starts with an opening brace; none of the field names the program asks
    for is a member of [Object.prototype], so only own properties count. *)
Definition get_field (data : json) (field : jsstring) : jsvalue :=
  match data with
  | JObject props => get_prop field props
  | _ => None
  end.

(** What a [catch] clause receives: the fields of the thrown object that the
    handlers read, each possibly [undefined]. *)
Record JsError : Type := mkJsError {
  err_message : option jsstring;
  err_name : option jsstring;
  err_status : option jsstring;
  err_statusText : option jsstring
}.

(** [new Error(msg)] *)
Definition new_Error (msg : jsstring) : JsError :=
  mkJsError (Some msg) (Some (lit "Error")) None None.

(** The [SyntaxError] that [JSON.parse] throws. *)
Definition new_SyntaxError (msg : jsstring) : JsError :=
  mkJsError (Some msg) (Some (lit "SyntaxError")) None None.

(** ** The component state of [App] (lines 6-47) *)

(** The interfaces declare strings and numbers; at run time a field holds
    whatever the parsed reply held under that key. *)
Record Idea : Type := mkIdea {
  id : jsstring;
  title : jsvalue;
  description : jsvalue;
  category : jsvalue;
  targetMarket : jsvalue;
  problem : jsvalue;
  solution : jsvalue
}.

Record Evaluation : Type := mkEvaluation {
  marketSize : jsvalue;
  competition : jsvalue;
  feasibility : jsvalue;
  profitability : jsvalue;
  innovation : jsvalue;
  timeToMarket : jsvalue;
  overallScore : jsvalue;
  strengths : jsvalue;
  weaknesses : jsvalue;
  recommendations : jsvalue;
  marketAnalysis : jsvalue;
  riskAssessment : jsvalue
}.

(** The text of the debug panel. Where the source renders a record with
    [JSON.stringify(record, null, 2)], the record itself is kept. *)
Inductive DebugInfo : Type :=
| DebugText (s : jsstring)
| DebugConnectionFailed (details : JsError)
| DebugErrorDetails (label : jsstring) (err : JsError).

Record State : Type := mkState {
  currentIdea : option Idea;
  evaluation : option Evaluation;
  showEvaluation : bool;
  apiKey : jsstring;
  tempApiKey : jsstring;
  showApiKeyInput : bool;
  isGenerating : bool;
  isEvaluating : bool;
  error : jsstring;
  selectedCategory : jsstring;
  debugInfo : DebugInfo
}.

Definition setCurrentIdea (v : option Idea) (s : State) : State :=
  mkState v (evaluation s) (showEvaluation s) (apiKey s) (tempApiKey s)
    (showApiKeyInput s) (isGenerating s) (isEvaluating s) (error s)
    (selectedCategory s) (debugInfo s).

Definition setEvaluation (v : option Evaluation) (s : State) : State :=
  mkState (currentIdea s) v (showEvaluation s) (apiKey s) (tempApiKey s)
    (showApiKeyInput s) (isGenerating s) (isEvaluating s) (error s)
    (selectedCategory s) (debugInfo s).

Definition setShowEvaluation (v : bool) (s : State) : State :=
  mkState (currentIdea s) (evaluation s) v (apiKey s) (tempApiKey s)
    (showApiKeyInput s) (isGenerating s) (isEvaluating s) (error s)
    (selectedCategory s) (debugInfo s).

Definition setApiKey (v : jsstring) (s : State) : State :=
  mkState (currentIdea s) (evaluation s) (showEvaluation s) v (tempApiKey s)
    (showApiKeyInput s) (isGenerating s) (isEvaluating s) (error s)
    (selectedCategory s) (debugInfo s).

Definition setTempApiKey (v : jsstring) (s : State) : State :=
  mkState (currentIdea s) (evaluation s) (showEvaluation s) (apiKey s) v
    (showApiKeyInput s) (isGenerating s) (isEvaluating s) (error s)
    (selectedCategory s) (debugInfo s).

Definition setShowApiKeyInput (v : bool) (s : State) : State :=
  mkState (currentIdea s) (evaluation s) (showEvaluation s) (apiKey s)
    (tempApiKey s) v (isGenerating s) (isEvaluating s) (error s)
    (selectedCategory s) (debugInfo s).

Definition setIsGenerating (v : bool) (s : State) : State :=
  mkState (currentIdea s) (evaluation s) (showEvaluation s) (apiKey s)
    (tempApiKey s) (showApiKeyInput s) v (isEvaluating s) (error s)
    (selectedCategory s) (debugInfo s).

Definition setIsEvaluating (v : bool) (s : State) : State :=
  mkState (currentIdea s) (evaluation s) (showEvaluation s) (apiKey s)
    (tempApiKey s) (showApiKeyInput s) (isGenerating s) v (error s)
    (selectedCategory s) (debugInfo s).

Definition setError (v : jsstring) (s : State) : State :=
  mkState (currentIdea s) (evaluation s) (showEvaluation s) (apiKey s)
    (tempApiKey s) (showApiKeyInput s) (isGenerating s) (isEvaluating s) v
    (selectedCategory s) (debugInfo s).

Definition setSelectedCategory (v : jsstring) (s : State) : State :=
  mkState (currentIdea s) (evaluation s) (showEvaluation s) (apiKey s)
    (tempApiKey s) (showApiKeyInput s) (isGenerating s) (isEvaluating s)
    (error s) v (debugInfo s).

Definition setDebugInfo (v : DebugInfo) (s : State) : State :=
  mkState (currentIdea s) (evaluation s) (showEvaluation s) (apiKey s)
    (tempApiKey s) (showApiKeyInput s) (isGenerating s) (isEvaluating s)
    (error s) (selectedCategory s) v.

(** The initial values of the [useState] calls. *)
Definition initial_state : State :=
  mkState None None false [] [] false false false [] [] (DebugText []).

(** ** The environment of a round trip *)

(** A request that reaches the Gemini gateway. The prompt of a generation is
    a function of the selected category, that of an evaluation a function of
    the idea, so a request is identified by the key and that argument. *)
Inductive Request : Type :=
| TestRequest (key : jsstring)
| IdeaRequest (key selected : jsstring)
| EvaluationRequest (key : jsstring) (idea : Idea).

(** What the program cannot decide: the outcome of [model.generateContent]
    followed by [response.text()] for each request (a text, or the object
    thrown), the clock, and the wording of the engine's [SyntaxError] for a
    text and an error position. *)
Record Host : Type := mkHost {
  gateway : Request -> JsError + jsstring;
  date_now : N;
  syntax_error_message : jsstring -> nat -> jsstring
}.

(** The state slots together with the requests sent so far. *)
Record World : Type := mkWorld {
  ui : State;
  sent : list Request
}.

(** A computation that may throw: it runs in a world and yields a value or
    the thrown object, with the world it leaves. *)
Definition Run (A : Type) : Type := World -> (JsError + A) * World.

Definition ret {A : Type} (a : A) : Run A := fun w => (inr a, w).

Definition throw {A : Type} (e : JsError) : Run A := fun w => (inl e, w).

Definition bind {A B : Type} (c : Run A) (k : A -> Run B) : Run B :=
  fun w =>
    match c w with
    | (inl e, w') => (inl e, w')
    | (inr a, w') => k a w'
    end.

Declare Scope run_scope.
Delimit Scope run_scope with run.
Notation "x <- c ;; k" := (bind c (fun x => k))
  (at level 61, c at next level, right associativity) : run_scope.
Notation "c ;; k" := (bind c (fun _ => k))
  (at level 61, right associativity) : run_scope.

(** A call of a state setter. *)
Definition update (f : State -> State) : Run unit :=
  fun w => (inr tt, mkWorld (f (ui w)) (sent w)).

(** [await model.generateContent(...)] and [response.text()]. *)
Definition call_gateway (h : Host) (r : Request) : Run jsstring :=
  fun w =>
    let w' := mkWorld (ui w) (sent w ++ [r]) in
    match gateway h r with
    | inl e => (inl e, w')
    | inr text => (inr text, w')
    end.

(** A step that fails or succeeds without touching the world. *)
Definition lift_result {A : Type} (r : JsError + A) : Run A :=
  fun w => (r, w).

(** [try { body } catch (err) { handler } finally { final }], where neither
    the handler nor the final block throws. *)
Definition try_catch_finally (body : Run unit)
    (handler : JsError -> State -> State) (final : State -> State)
    (w : World) : World :=
  match body w with
  | (inl err, w') => mkWorld (final (handler err (ui w'))) (sent w')
  | (inr _, w') => mkWorld (final (ui w')) (sent w')
  end.

(** ** Parsing and validating a reply (lines 136-160 and 273-297) *)

(** The [for (const field of requiredFields)] loop: the first field whose
    value fails the test, if any. *)
Fixpoint first_missing (present : jsvalue -> bool) (data : json)
    (requiredFields : list jsstring) : option jsstring :=
  match requiredFields with
  | [] => None
  | field :: rest =>
      if present (get_field data field) then first_missing present data rest
      else Some field
  end.

(** The shared shape of the two copies of the pipeline: clean the text, find
    the object, parse it, check the required fields. The copies differ in the
    two messages, in the test applied to a field and in the field list. *)
Definition parse_response (h : Host) (no_json missing : jsstring)
    (present : jsvalue -> bool) (requiredFields : list jsstring)
    (text : jsstring) : JsError + json :=
  let cleanedText := clean_response text in
  match match_json_object cleanedText with
  | None => inl (new_Error (no_json ++ cleanedText))
  | Some jsonMatch =>
      match JSON_parse jsonMatch with
      | inr position =>
          inl (new_SyntaxError (syntax_error_message h jsonMatch position))
      | inl data =>
          match first_missing present data requiredFields with
          | Some field => inl (new_Error (missing ++ field))
          | None => inr data
          end
      end
  end.

Definition idea_requiredFields : list jsstring :=
  [lit "title"; lit "description"; lit "category"; lit "targetMarket";
   lit "problem"; lit "solution"].

Definition evaluation_requiredFields : list jsstring :=
  [lit "marketSize"; lit "competition"; lit "feasibility"; lit "profitability";
   lit "innovation"; lit "timeToMarket"; lit "overallScore"; lit "strengths";
   lit "weaknesses"; lit "recommendations"; lit "marketAnalysis";
   lit "riskAssessment"].

(** Lines 136-160: the check is [if (!ideaData[field])]. *)
Definition parse_idea (h : Host) (text : jsstring) : JsError + json :=
  parse_response h (lit "No valid JSON found in response: ")
    (lit "Missing required field: ") truthy idea_requiredFields text.

(** Lines 273-297: the check is
    [evaluationData[field] === undefined || evaluationData[field] === null]. *)
Definition parse_evaluation (h : Host) (text : jsstring) : JsError + json :=
  parse_response h (lit "No valid JSON found in evaluation response: ")
    (lit "Missing required evaluation field: ") not_nullish
    evaluation_requiredFields text.

(** ** Error messages of the two [catch] blocks *)

(** [err.message?.includes(pat)] *)
Definition message_includes (err : JsError) (pat : jsstring) : bool :=
  match err_message err with
  | Some m => includes m pat
  | None => false
  end.

(** [err.message || fallback] *)
Definition message_or (err : JsError) (fallback : jsstring) : jsstring :=
  match err_message err with
  | Some m => if is_empty m then fallback else m
  | None => fallback
  end.

Definition INVALID_KEY_TEXT : jsstring :=
  lit "Invalid API key. Please check your Gemini API key.".
Definition PERMISSION_TEXT : jsstring :=
  lit "Permission denied. Please ensure your API key has the correct permissions.".
Definition QUOTA_TEXT : jsstring :=
  lit "API quota exceeded. Please check your usage limits.".
Definition NETWORK_TEXT : jsstring :=
  lit "Network error. Please check your internet connection.".

(** Lines 180-194. *)
Definition generate_errorMessage (err : JsError) : jsstring :=
  lit "Failed to generate idea. " ++
  (if message_includes err (lit "API_KEY_INVALID") then INVALID_KEY_TEXT
   else if message_includes err (lit "PERMISSION_DENIED") then PERMISSION_TEXT
   else if message_includes err (lit "QUOTA_EXCEEDED") then QUOTA_TEXT
   else if message_includes err (lit "Failed to fetch") then NETWORK_TEXT
   else if message_includes err (lit "API Connection Failed") then
     match err_message err with
     | Some m => remove_first (lit "API Connection Failed: ") m
     | None => []
     end
   else lit "Error: " ++ message_or err (lit "Unknown error occurred")).

(** Lines 321-333. *)
Definition evaluate_errorMessage (err : JsError) : jsstring :=
  lit "Failed to evaluate idea. " ++
  (if message_includes err (lit "API_KEY_INVALID") then INVALID_KEY_TEXT
   else if message_includes err (lit "PERMISSION_DENIED") then PERMISSION_TEXT
   else if message_includes err (lit "QUOTA_EXCEEDED") then QUOTA_TEXT
   else if message_includes err (lit "Failed to fetch") then NETWORK_TEXT
   else lit "Error: " ++ message_or err (lit "Unknown error occurred")).

(** ** [testApiConnection] (lines 57-81) *)

Record ConnectionTest : Type := mkConnectionTest {
  success : bool;
  message : jsstring;
  details : option JsError
}.

(** The function catches whatever the gateway throws and reports it. *)
Definition testApiConnection (h : Host) (testKey : jsstring) : Run ConnectionTest :=
  fun w =>
    match call_gateway h (TestRequest (trim testKey)) w with
    | (inr text, w') => (inr (mkConnectionTest true text None), w')
    | (inl err, w') =>
        (inr (mkConnectionTest false (message_or err (lit "Unknown error")) (Some err)), w')
    end.

(** ** [generateAIIdea] (lines 83-206) *)

Local Open Scope run_scope.

(** The body of the [try] block, lines 94-175. [apiKey] and
    [selectedCategory] are the values the closure captured. *)
Definition generate_try (h : Host) (apiKey selectedCategory : jsstring) : Run unit :=
  update (setDebugInfo (DebugText (lit "Testing API connection..."))) ;;
  connectionTest <- testApiConnection h apiKey ;;
  (if negb (success connectionTest) then
     update (setDebugInfo
               (match details connectionTest with
                | Some d => DebugConnectionFailed d
                | None => DebugText (lit "Connection failed: undefined")
                end)) ;;
     throw (new_Error (lit "API Connection Failed: " ++ message connectionTest))
   else ret tt) ;;
  update (setDebugInfo (DebugText (lit "API connection successful, generating idea..."))) ;;
  update (setDebugInfo (DebugText (lit "Sending request to Gemini..."))) ;;
  text <- call_gateway h (IdeaRequest (trim apiKey) selectedCategory) ;;
  update (setDebugInfo
            (DebugText (lit "Received response: " ++ substring0 100 text ++ lit "..."))) ;;
  ideaData <- lift_result (parse_idea h text) ;;
  let newIdea :=
    mkIdea (N_to_string (date_now h))
      (get_field ideaData (lit "title"))
      (get_field ideaData (lit "description"))
      (get_field ideaData (lit "category"))
      (get_field ideaData (lit "targetMarket"))
      (get_field ideaData (lit "problem"))
      (get_field ideaData (lit "solution")) in
  update (setCurrentIdea (Some newIdea)) ;;
  update (setShowEvaluation false) ;;
  update (setEvaluation None) ;;
  update (setDebugInfo (DebugText (lit "Idea generated successfully!"))).

(** The [catch] block, lines 177-202. *)
Definition generate_catch (err : JsError) (s : State) : State :=
  setDebugInfo (DebugErrorDetails (lit "Error details: ") err)
    (setError (generate_errorMessage err) s).

(** The whole handler. With a blank key it opens the key dialog and returns;
    otherwise it raises the flag, clears the error, runs the [try] block and
    lowers the flag in [finally]. *)
Definition generateAIIdea (h : Host) (w : World) : World :=
  let st := ui w in
  if is_empty (trim (apiKey st)) then
    mkWorld (setShowApiKeyInput true st) (sent w)
  else
    let w1 :=
      mkWorld
        (setDebugInfo (DebugText (lit "Starting API connection..."))
           (setError [] (setIsGenerating true st)))
        (sent w) in
    try_catch_finally (generate_try h (apiKey st) (selectedCategory st))
      generate_catch (setIsGenerating false) w1.

(** ** [evaluateAIIdea] (lines 208-345) *)

(** The body of the [try] block, lines 218-316. *)
Definition evaluate_try (h : Host) (apiKey : jsstring) (currentIdea : Idea) : Run unit :=
  update (setDebugInfo (DebugText (lit "Sending evaluation request to Gemini..."))) ;;
  text <- call_gateway h (EvaluationRequest (trim apiKey) currentIdea) ;;
  update (setDebugInfo
            (DebugText (lit "Received evaluation response: " ++ substring0 100 text ++ lit "..."))) ;;
  evaluationData <- lift_result (parse_evaluation h text) ;;
  let newEvaluation :=
    mkEvaluation
      (get_field evaluationData (lit "marketSize"))
      (get_field evaluationData (lit "competition"))
      (get_field evaluationData (lit "feasibility"))
      (get_field evaluationData (lit "profitability"))
      (get_field evaluationData (lit "innovation"))
      (get_field evaluationData (lit "timeToMarket"))
      (get_field evaluationData (lit "overallScore"))
      (get_field evaluationData (lit "strengths"))
      (get_field evaluationData (lit "weaknesses"))
      (get_field evaluationData (lit "recommendations"))
      (get_field evaluationData (lit "marketAnalysis"))
      (get_field evaluationData (lit "riskAssessment")) in
  update (setEvaluation (Some newEvaluation)) ;;
  update (setShowEvaluation true) ;;
  update (setDebugInfo (DebugText (lit "AI evaluation completed successfully!"))).

(** The [catch] block, lines 318-341. *)
Definition evaluate_catch (err : JsError) (s : State) : State :=
  setDebugInfo (DebugErrorDetails (lit "Evaluation error details: ") err)
    (setError (evaluate_errorMessage err) s).

(** The whole handler: [if (!currentIdea || !apiKey.trim()) return;] and then
    the same frame as the generation. *)
Definition evaluateAIIdea (h : Host) (w : World) : World :=
  let st := ui w in
  match currentIdea st with
  | None => w
  | Some idea =>
      if is_empty (trim (apiKey st)) then w
      else
        let w1 :=
          mkWorld
            (setDebugInfo (DebugText (lit "Starting AI evaluation..."))
               (setError [] (setIsEvaluating true st)))
            (sent w) in
        try_catch_finally (evaluate_try h (apiKey st) idea)
          evaluate_catch (setIsEvaluating false) w1
  end.

Local Close Scope run_scope.

(** ** The key dialog and the two buttons *)

(** [saveApiKey] (lines 347-355), on the state slots. *)
Definition saveApiKey (s : State) : State :=
  if is_empty (trim (tempApiKey s)) then s
  else
    setDebugInfo (DebugText [])
      (setError [] (setShowApiKeyInput false (setApiKey (trim (tempApiKey s)) s))).

(** [clearApiKey] (lines 357-363), on the state slots. *)
Definition clearApiKey (s : State) : State :=
  setDebugInfo (DebugText []) (setError [] (setTempApiKey [] (setApiKey [] s))).

(** The header badge (lines 411-417) reads [API Key Required] exactly when
    the key is the empty string. *)
Definition key_required_badge (s : State) : bool := is_empty (apiKey s).

(** The generate button (lines 569-573) carries [disabled={isGenerating}]:
    a disabled button delivers no click. *)
Definition click_generate (h : Host) (w : World) : World :=
  if isGenerating (ui w) then w else generateAIIdea h w.

(** The evaluate button (lines 662-666) is rendered only under
    [currentIdea &&] and carries [disabled={isEvaluating}]. *)
Definition click_evaluate (h : Host) (w : World) : World :=
  match currentIdea (ui w) with
  | None => w
  | Some _ => if isEvaluating (ui w) then w else evaluateAIIdea h w
  end.

(** The world in which the [try] block of [generateAIIdea] starts. *)
Definition generate_started (w : World) : World :=
  mkWorld
    (setDebugInfo (DebugText (lit "Starting API connection..."))
       (setError [] (setIsGenerating true (ui w))))
    (sent w).

(** The world in which the [try] block of [evaluateAIIdea] starts. *)
Definition evaluate_started (w : World) : World :=
  mkWorld
    (setDebugInfo (DebugText (lit "Starting AI evaluation..."))
       (setError [] (setIsEvaluating true (ui w))))
    (sent w).

(** The idea that [generateAIIdea] builds from the validated data. *)
Definition idea_of (h : Host) (ideaData : json) : Idea :=
  mkIdea (N_to_string (date_now h))
    (get_field ideaData (lit "title"))
    (get_field ideaData (lit "description"))
    (get_field ideaData (lit "category"))
    (get_field ideaData (lit "targetMarket"))
    (get_field ideaData (lit "problem"))
    (get_field ideaData (lit "solution")).

(** ** Sample environments *)

(** The wording of the [SyntaxError] in V8 up to version 10 (Node.js 18). *)
Definition v8_syntax_error_message (text : jsstring) (position : nat) : jsstring :=
  match nth_error text position with
  | None => lit "Unexpected end of JSON input"
  | Some c =>
      if N.eqb c QUOTE then
        lit "Unexpected string in JSON at position " ++ N_to_string (N.of_nat position)
      else if (is_digit c || N.eqb c MINUS)%bool then
        lit "Unexpected number in JSON at position " ++ N_to_string (N.of_nat position)
      else
        lit "Unexpected token " ++ [c] ++ lit " in JSON at position "
          ++ N_to_string (N.of_nat position)
  end.

(** A host whose gateway answers the connection test with [test] and the
    request that follows with [reply]. *)
Definition sample_host (test reply : JsError + jsstring) : Host :=
  mkHost
    (fun r => match r with TestRequest _ => test | _ => reply end)
    1730000000000%N
    v8_syntax_error_message.


(** [key: value] with a quoted key. *)
Definition member (k : string) (value : jsstring) : jsstring :=
  quote (lit k) ++ COLON :: value.

Fixpoint join_commas (l : list jsstring) : jsstring :=
  match l with
  | [] => []
  | [x] => x
  | x :: rest => x ++ COMMA :: join_commas rest
  end.

Definition object_text (members : list jsstring) : jsstring :=
  LBRACE :: join_commas members ++ [RBRACE].

Definition str (s : string) : jsstring := quote (lit s).

(** A reply to the generation prompt. *)
Definition sample_idea_text : jsstring :=
  object_text
    [member "title" (str "PayLeaf"); member "description" (str "Carbon-aware payments");
     member "category" (str "FinTech"); member "targetMarket" (str "Small shops");
     member "problem" (str "Opaque footprint"); member "solution" (str "Per-transaction offsets")].

(** The same reply with an empty title. *)
Definition empty_title_text : jsstring :=
  object_text
    [member "title" (str ""); member "description" (str "Carbon-aware payments");
     member "category" (str "FinTech"); member "targetMarket" (str "Small shops");
     member "problem" (str "Opaque footprint"); member "solution" (str "Per-transaction offsets")].

(** A reply to the evaluation prompt, with [marketSize] left open. *)
Definition evaluation_text (marketSize : jsstring) : jsstring :=
  object_text
    [member "marketSize" marketSize; member "competition" (lit "3");
     member "feasibility" (lit "5"); member "profitability" (lit "4");
     member "innovation" (lit "5"); member "timeToMarket" (lit "3");
     member "overallScore" (lit "85");
     member "strengths" (LBRACKET :: str "Unique value proposition" ++ [RBRACKET]);
     member "weaknesses" (LBRACKET :: str "High competition" ++ [RBRACKET]);
     member "recommendations" (LBRACKET :: str "Focus on MVP development" ++ [RBRACKET]);
     member "marketAnalysis" (str "Growing market");
     member "riskAssessment" (str "Regulatory risk")].

Definition sample_idea : Idea :=
  mkIdea (lit "1729999999999")
    (Some (JString (lit "PayLeaf"))) (Some (JString (lit "Carbon-aware payments")))
    (Some (JString (lit "FinTech"))) (Some (JString (lit "Small shops")))
    (Some (JString (lit "Opaque footprint"))) (Some (JString (lit "Per-transaction offsets"))).

Definition sample_evaluation : Evaluation :=
  mkEvaluation
    (Some (JNumber (NFinite false [4%N] 1))) (Some (JNumber (NFinite false [3%N] 1)))
    (Some (JNumber (NFinite false [5%N] 1))) (Some (JNumber (NFinite false [4%N] 1)))
    (Some (JNumber (NFinite false [5%N] 1))) (Some (JNumber (NFinite false [3%N] 1)))
    (Some (JNumber (NFinite false [8%N; 5%N] 2)))
    (Some (JArray [])) (Some (JArray [])) (Some (JArray []))
    (Some (JString (lit "Growing market"))) (Some (JString (lit "Regulatory risk"))).

(** A session with a saved key, an idea on screen and its evaluation. *)
Definition evaluated_state : State :=
  mkState (Some sample_idea) (Some sample_evaluation) true
    (lit "AIzaSyExampleKey") [] false false false [] (lit "FinTech") (DebugText []).

(** The value that [JSON.parse] gives for a text known to be valid. *)
Definition parsed (text : jsstring) : json :=
  match JSON_parse text with
  | inl v => v
  | inr _ => JNull
  end.

(** A host that answers the connection test and then sends [reply]. *)
Definition replying_host (reply : jsstring) : Host :=
  sample_host (inr (lit "API connection successful")) (inr reply).

(** A session in which a generation is in flight. *)
Definition generating_state : State := setIsGenerating true evaluated_state.


(** * The page around the two round trips

    The rest of [App.tsx]: the saved key and the key dialog, the handlers
    taken between their [await]s, the prompts and the helpers of the
    evaluation panel. *)

(** ** The saved key (lines 49-55, 347-363)

    Of [localStorage] the program uses one entry, [gemini-api-key]; [None]
    is an absent entry, for which [getItem] returns [null]. Writing to the
    storage is taken to succeed. *)

(** The effect run on mount: [if (savedApiKey) setApiKey(savedApiKey)]. *)
Definition load_saved_key (saved : option jsstring) (s : State) : State :=
  match saved with
  | Some savedApiKey => if is_empty savedApiKey then s else setApiKey savedApiKey s
  | None => s
  end.

(** What [saveApiKey] leaves in the storage (line 350). *)
Definition saveApiKey_storage (s : State) (saved : option jsstring)
  : option jsstring :=
  if is_empty (trim (tempApiKey s)) then saved else Some (trim (tempApiKey s)).

(** The [Configure] button (lines 422-425). *)
Definition openConfigure (s : State) : State :=
  setShowApiKeyInput true (setTempApiKey (apiKey s) s).

(** The advisory under the key field (line 478):
    [tempApiKey && !tempApiKey.startsWith('AIza')]. *)
Definition prefix_advisory (s : State) : bool :=
  negb (is_empty (tempApiKey s)) && negb (startsWith (tempApiKey s) (lit "AIza")).

(** The options of the category [select] (lines 31-34 and 562-565). *)
Definition categories : list jsstring :=
  [lit "FinTech"; lit "HealthTech"; lit "EdTech"; lit "E-commerce"; lit "SaaS";
   lit "AI/ML"; lit "Sustainability"; lit "Social Media"; lit "Gaming";
   lit "Food & Beverage"].

Definition category_options : list jsstring := [] :: categories.

(** ** The handlers between their awaits

    An [async] handler runs up to its first [await], returns to the event
    loop, and is resumed when the awaited request settles; other events are
    handled in between. A suspended handler keeps the values of [apiKey],
    [selectedCategory] and [currentIdea] of the render in which it was
    started. *)

Inductive Task : Type :=
| AwaitingTest (apiKey selectedCategory : jsstring)
| AwaitingIdea (apiKey selectedCategory : jsstring)
| AwaitingEvaluation (apiKey : jsstring) (currentIdea : Idea).

(** The request a suspended handler waits for. *)
Definition request_of (t : Task) : Request :=
  match t with
  | AwaitingTest key _ => TestRequest (trim key)
  | AwaitingIdea key selected => IdeaRequest (trim key) selected
  | AwaitingEvaluation key idea => EvaluationRequest (trim key) idea
  end.

Definition request_key (r : Request) : jsstring :=
  match r with
  | TestRequest key => key
  | IdeaRequest key _ => key
  | EvaluationRequest key _ => key
  end.

Definition is_generation (t : Task) : bool :=
  match t with
  | AwaitingTest _ _ | AwaitingIdea _ _ => true
  | AwaitingEvaluation _ _ => false
  end.

Definition is_evaluation (t : Task) : bool := negb (is_generation t).

(** The page: the state slots and the requests sent, the storage entry, and
    the handlers that are suspended. *)
Record Page : Type := mkPage {
  world : World;
  saved : option jsstring;
  inflight : list Task
}.

(** The evaluation that [evaluateAIIdea] builds from the validated data
    (lines 299-312). *)
Definition evaluation_of (evaluationData : json) : Evaluation :=
  mkEvaluation
    (get_field evaluationData (lit "marketSize"))
    (get_field evaluationData (lit "competition"))
    (get_field evaluationData (lit "feasibility"))
    (get_field evaluationData (lit "profitability"))
    (get_field evaluationData (lit "innovation"))
    (get_field evaluationData (lit "timeToMarket"))
    (get_field evaluationData (lit "overallScore"))
    (get_field evaluationData (lit "strengths"))
    (get_field evaluationData (lit "weaknesses"))
    (get_field evaluationData (lit "recommendations"))
    (get_field evaluationData (lit "marketAnalysis"))
    (get_field evaluationData (lit "riskAssessment")).

Local Open Scope run_scope.

(** [testApiConnection] from its [await] on (lines 63-80). *)
Definition connection_result (outcome : JsError + jsstring) : ConnectionTest :=
  match outcome with
  | inr text => mkConnectionTest true text None
  | inl err => mkConnectionTest false (message_or err (lit "Unknown error")) (Some err)
  end.

(** [generateAIIdea] from the result of the connection test to the second
    request (lines 98-129). *)
Definition after_test (connectionTest : ConnectionTest) : Run unit :=
  (if negb (success connectionTest) then
     update (setDebugInfo
               (match details connectionTest with
                | Some d => DebugConnectionFailed d
                | None => DebugText (lit "Connection failed: undefined")
                end)) ;;
     throw (new_Error (lit "API Connection Failed: " ++ message connectionTest))
   else ret tt) ;;
  update (setDebugInfo (DebugText (lit "API connection successful, generating idea..."))) ;;
  update (setDebugInfo (DebugText (lit "Sending request to Gemini..."))).

(** [generateAIIdea] from the outcome of the second request to the end of
    the [try] block (lines 130-175). *)
Definition after_idea (h : Host) (outcome : JsError + jsstring) : Run unit :=
  text <- lift_result outcome ;;
  update (setDebugInfo
            (DebugText (lit "Received response: " ++ substring0 100 text ++ lit "..."))) ;;
  ideaData <- lift_result (parse_idea h text) ;;
  update (setCurrentIdea (Some (idea_of h ideaData))) ;;
  update (setShowEvaluation false) ;;
  update (setEvaluation None) ;;
  update (setDebugInfo (DebugText (lit "Idea generated successfully!"))).

(** [evaluateAIIdea] from the outcome of its request to the end of the [try]
    block (lines 267-316). *)
Definition after_evaluation (h : Host) (outcome : JsError + jsstring) : Run unit :=
  text <- lift_result outcome ;;
  update (setDebugInfo
            (DebugText (lit "Received evaluation response: " ++ substring0 100 text ++ lit "..."))) ;;
  evaluationData <- lift_result (parse_evaluation h text) ;;
  update (setEvaluation (Some (evaluation_of evaluationData))) ;;
  update (setShowEvaluation true) ;;
  update (setDebugInfo (DebugText (lit "AI evaluation completed successfully!"))).

Local Close Scope run_scope.

(** *** The idea in the evaluation prompt (lines 229-237)

    The prompt of an evaluation is a template literal that converts six
    fields of the idea to strings, inside the [try] block. The conversion of
    a value that [JSON.parse] built throws a [TypeError] in one case: an
    object with a property [toString] of its own, which is never callable
    (the inherited [valueOf] returns the object itself). An array is joined,
    its elements converted in turn, [null] giving the empty string. *)
Fixpoint printable (v : json) : bool :=
  match v with
  | JArray items => forallb printable items
  | JObject props => negb (has_key (lit "toString") props)
  | _ => true
  end.

Definition printable_value (v : jsvalue) : bool :=
  match v with
  | Some x => printable x
  | None => true
  end.

Definition printable_idea (idea : Idea) : bool :=
  printable_value (title idea) && printable_value (description idea)
  && printable_value (category idea) && printable_value (targetMarket idea)
  && printable_value (problem idea) && printable_value (solution idea).

Section Handlers.

(** The [TypeError] that the engine throws when a value cannot be converted
    to a string. *)
Variable conversion_error : JsError.

(** [evaluateAIIdea] with the conversion of the idea: where a field cannot
    be converted the [try] block throws before the request is made. *)
Definition evaluate_handler (h : Host) (w : World) : World :=
  match currentIdea (ui w) with
  | None => w
  | Some idea =>
      if is_empty (trim (apiKey (ui w))) then w
      else if printable_idea idea then evaluateAIIdea h w
      else
        mkWorld
          (setIsEvaluating false
             (evaluate_catch conversion_error (ui (evaluate_started w))))
          (sent w)
  end.

(** The evaluate button (rendered under [currentIdea &&], disabled while
    evaluating) with the whole handler behind it. *)
Definition press_evaluate (h : Host) (w : World) : World :=
  match currentIdea (ui w) with
  | None => w
  | Some _ => if isEvaluating (ui w) then w else evaluate_handler h w
  end.

(** A click on the generate button that is delivered: the handler up to the
    [await] of the connection test (lines 84-96 and 59-63). *)
Definition start_generate (p : Page) : Page :=
  let st := ui (world p) in
  if is_empty (trim (apiKey st)) then
    mkPage (mkWorld (setShowApiKeyInput true st) (sent (world p))) (saved p) (inflight p)
  else
    mkPage
      (mkWorld
         (setDebugInfo (DebugText (lit "Testing API connection..."))
            (ui (generate_started (world p))))
         (sent (world p) ++ [TestRequest (trim (apiKey st))]))
      (saved p)
      (inflight p ++ [AwaitingTest (apiKey st) (selectedCategory st)]).

(** A click on the evaluate button that is delivered: the handler up to the
    [await] of its request (lines 209-267), or to its end when the prompt
    cannot be built. *)
Definition start_evaluate (p : Page) : Page :=
  let st := ui (world p) in
  match currentIdea st with
  | None => p
  | Some idea =>
      if is_empty (trim (apiKey st)) then p
      else if printable_idea idea then
        mkPage
          (mkWorld
             (setDebugInfo (DebugText (lit "Sending evaluation request to Gemini..."))
                (ui (evaluate_started (world p))))
             (sent (world p) ++ [EvaluationRequest (trim (apiKey st)) idea]))
          (saved p)
          (inflight p ++ [AwaitingEvaluation (apiKey st) idea])
      else
        mkPage
          (mkWorld
             (setIsEvaluating false
                (evaluate_catch conversion_error (ui (evaluate_started (world p)))))
             (sent (world p)))
          (saved p) (inflight p)
  end.

(** The handler [t] is resumed in the environment [h], which gives the
    outcome of the request it waits for and the time; [others] are the
    handlers that stay suspended. *)
Definition resume (h : Host) (t : Task) (w : World) (stored : option jsstring)
    (others : list Task) : Page :=
  match t with
  | AwaitingTest key selected =>
      match after_test (connection_result (gateway h (request_of t))) w with
      | (inl err, w') =>
          mkPage (mkWorld (setIsGenerating false (generate_catch err (ui w'))) (sent w'))
            stored others
      | (inr _, w') =>
          mkPage (mkWorld (ui w') (sent w' ++ [IdeaRequest (trim key) selected]))
            stored (others ++ [AwaitingIdea key selected])
      end
  | AwaitingIdea _ _ =>
      mkPage
        (try_catch_finally (after_idea h (gateway h (request_of t)))
           generate_catch (setIsGenerating false) w)
        stored others
  | AwaitingEvaluation _ _ =>
      mkPage
        (try_catch_finally (after_evaluation h (gateway h (request_of t)))
           evaluate_catch (setIsEvaluating false) w)
        stored others
  end.

Fixpoint remove_nth {A : Type} (n : nat) (l : list A) : list A :=
  match n, l with
  | _, [] => []
  | O, _ :: r => r
  | S m, x :: r => x :: remove_nth m r
  end.

(** What happens on the page: a load, the controls of the header and of the
    key dialog, the category select, the two buttons, and the settling of
    the request of the [n]-th suspended handler. *)
Inductive Event : Type :=
| Reload
| ClickConfigure
| TypeKey (value : jsstring)
| ClickSave
| ClickCancel
| ClickClear
| SelectCategory (value : jsstring)
| ClickGenerate
| ClickEvaluate
| Settle (n : nat) (h : Host).

Definition with_state (f : State -> State) (p : Page) : Page :=
  mkPage (mkWorld (f (ui (world p))) (sent (world p))) (saved p) (inflight p).

(** One event. A control that is not rendered or is disabled delivers
    nothing: the dialog controls exist only under [showApiKeyInput &&], the
    save button carries [disabled={!tempApiKey.trim()}], the clear button
    stands under [apiKey &&], the select offers [category_options]. A load
    starts from the initial state and runs the mount effect; the handlers
    that were suspended are gone with the old page. React renders once a
    handler has returned to the event loop, so an event meets the page of the
    state the previous one left. Events are taken on every page, also on one
    whose render has thrown and which delivers none: the pages reached here
    include all that the program can reach. *)
Definition step (p : Page) (e : Event) : Page :=
  let st := ui (world p) in
  match e with
  | Reload =>
      mkPage (mkWorld (load_saved_key (saved p) initial_state) (sent (world p)))
        (saved p) []
  | ClickConfigure => with_state openConfigure p
  | TypeKey value =>
      if showApiKeyInput st then with_state (setTempApiKey value) p else p
  | ClickSave =>
      if showApiKeyInput st && negb (is_empty (trim (tempApiKey st))) then
        mkPage (mkWorld (saveApiKey st) (sent (world p)))
          (saveApiKey_storage st (saved p)) (inflight p)
      else p
  | ClickCancel =>
      if showApiKeyInput st then with_state (setShowApiKeyInput false) p else p
  | ClickClear =>
      if showApiKeyInput st && negb (is_empty (apiKey st)) then
        mkPage (mkWorld (clearApiKey st) (sent (world p))) None (inflight p)
      else p
  | SelectCategory value =>
      if existsb (str_eqb value) category_options then
        with_state (setSelectedCategory value) p
      else p
  | ClickGenerate => if isGenerating st then p else start_generate p
  | ClickEvaluate =>
      match currentIdea st with
      | None => p
      | Some _ => if isEvaluating st then p else start_evaluate p
      end
  | Settle n h =>
      match nth_error (inflight p) n with
      | None => p
      | Some t => resume h t (world p) (saved p) (remove_nth n (inflight p))
      end
  end.

Definition run (p : Page) (events : list Event) : Page := fold_left step events p.

End Handlers.

(** The page after its first load, with [stored] in the storage. *)
Definition boot (stored : option jsstring) : Page :=
  mkPage (mkWorld (load_saved_key stored initial_state) []) stored [].

(** A page on which nothing is suspended. *)
Definition idle_page (w : World) (stored : option jsstring) : Page :=
  mkPage w stored [].

(** ** What every reachable page satisfies *)

Definition task_key (t : Task) : jsstring :=
  match t with
  | AwaitingTest key _ => key
  | AwaitingIdea key _ => key
  | AwaitingEvaluation key _ => key
  end.

(** The number of suspended handlers of a kind. *)
Definition suspended (kind : Task -> bool) (p : Page) : nat :=
  length (filter kind (inflight p)).

Definition flag_count (flag : bool) : nat := if flag then 1 else 0.

(** The content of the storage entry as [apiKey] holds it. *)
Definition saved_key (p : Page) : jsstring :=
  match saved p with
  | Some key => key
  | None => []
  end.

(** A request carries a key that is trimmed and not empty. *)
Definition key_in_order (r : Request) : Prop :=
  is_empty (request_key r) = false /\ trim (request_key r) = request_key r.

Record page_invariant (p : Page) : Prop := mkPageInvariant {
  inv_generating :
    suspended is_generation p = flag_count (isGenerating (ui (world p)));
  inv_evaluating :
    suspended is_evaluation p = flag_count (isEvaluating (ui (world p)));
  inv_panel :
    showEvaluation (ui (world p)) = true -> evaluation (ui (world p)) <> None;
  inv_evaluated :
    evaluation (ui (world p)) <> None -> currentIdea (ui (world p)) <> None;
  inv_evaluating_idea :
    isEvaluating (ui (world p)) = true -> currentIdea (ui (world p)) <> None;
  inv_task_keys :
    Forall (fun t => is_empty (trim (task_key t)) = false) (inflight p);
  inv_sent_keys : Forall key_in_order (sent (world p));
  inv_key_saved : apiKey (ui (world p)) = saved_key p;
  inv_category : In (selectedCategory (ui (world p))) category_options
}.

(** No occurrence of [pat] begins inside [a], whatever text follows [a]. *)
Fixpoint clear_of (pat a : jsstring) : bool :=
  match a with
  | [] => true
  | _ :: r => negb (startsWith a pat) && negb (startsWith pat a) && clear_of pat r
  end.

(** The markers by which the [catch] blocks classify a message. *)
Definition error_markers : list jsstring :=
  [lit "API_KEY_INVALID"; lit "PERMISSION_DENIED"; lit "QUOTA_EXCEEDED";
   lit "Failed to fetch"].

(** The [TypeError] of V8 for a value that cannot be converted. *)
Definition v8_conversion_error : JsError :=
  mkJsError (Some (lit "Cannot convert object to primitive value"))
    (Some (lit "TypeError")) None None.

(** ** The helpers of the evaluation panel (lines 365-382 and 763-776)

    A [number] of TypeScript is a binary64 float, and [>=] is the comparison
    of floats: it is false when a side is [NaN]. The helpers are taken on
    their declared domain. *)

From Stdlib Require Floats.

Section ScoreHelpers.

Import PrimFloat.

(** [score >= bound] *)
Definition at_least (score bound : float) : bool := PrimFloat.leb bound score.

Definition getScoreColor (score : float) : jsstring :=
  if at_least score 80%float then lit "text-green-600"
  else if at_least score 60%float then lit "text-yellow-600"
  else lit "text-red-600".

Definition getScoreLabel (score : float) : jsstring :=
  if at_least score 80%float then lit "Excellent"
  else if at_least score 60%float then lit "Good"
  else if at_least score 40%float then lit "Fair"
  else lit "Needs Work".

Definition getCriteriaColor (score : float) : jsstring :=
  if at_least score 4%float then lit "text-green-600"
  else if at_least score 3%float then lit "text-yellow-600"
  else lit "text-red-600".

(** The five dots beside a criterion (lines 767-776): the dot of a rating
    is filled when [value >= rating]. *)
Definition ratings : list float := [1%float; 2%float; 3%float; 4%float; 5%float].

Definition filled_dots (value : float) : list bool := map (at_least value) ratings.

Definition count_filled (dots : list bool) : nat := length (filter (fun b => b) dots).

(** The labels and the colours from worst to best. *)
Definition label_rank (label : jsstring) : nat :=
  if str_eqb label (lit "Excellent") then 3
  else if str_eqb label (lit "Good") then 2
  else if str_eqb label (lit "Fair") then 1
  else 0.

Definition colour_rank (colour : jsstring) : nat :=
  if str_eqb colour (lit "text-green-600") then 2
  else if str_eqb colour (lit "text-yellow-600") then 1
  else 0.

(** A float that is not a number differs from itself. *)
Definition is_NaN (x : float) : bool := negb (PrimFloat.eqb x x).

End ScoreHelpers.

(** ** What the render does with the values of a reply (lines 610-660 and
    720-848)

    The fields of the idea and of the evaluation are placed in the page as
    React children, and the three lists of the evaluation are rendered with
    [.map]. React renders a string or a number as text, renders nothing for
    a boolean or [null], renders the elements of an array in turn, and
    throws for any other object. Of the values that [JSON.parse] builds only
    an array has a [map] method, so the call throws a [TypeError] on
    anything else. Nothing catches what the render throws. *)

(** A value that React accepts as a child. *)
Fixpoint renderable (v : json) : bool :=
  match v with
  | JObject _ => false
  | JArray items => forallb renderable items
  | _ => true
  end.

Definition renderable_value (v : jsvalue) : bool :=
  match v with
  | Some x => renderable x
  | None => true
  end.

(** [value.map(item => <li>... {item}</li>)] goes through. *)
Definition list_renders (v : jsvalue) : bool :=
  match v with
  | Some (JArray items) => forallb renderable items
  | _ => false
  end.

(** Lines 610-660. *)
Definition idea_renders (idea : Idea) : bool :=
  renderable_value (category idea) && renderable_value (title idea)
  && renderable_value (description idea) && renderable_value (targetMarket idea)
  && renderable_value (problem idea) && renderable_value (solution idea).

(** Lines 720-848. *)
Definition panel_renders (e : Evaluation) : bool :=
  renderable_value (overallScore e)
  && renderable_value (marketSize e) && renderable_value (competition e)
  && renderable_value (feasibility e) && renderable_value (profitability e)
  && renderable_value (innovation e) && renderable_value (timeToMarket e)
  && list_renders (strengths e) && list_renders (weaknesses e)
  && renderable_value (marketAnalysis e) && renderable_value (riskAssessment e)
  && list_renders (recommendations e).

(** The render of a state throws. The idea is rendered under
    [currentIdea &&], the panel under [showEvaluation && evaluation]. *)
Definition render_throws (s : State) : bool :=
  negb
    (match currentIdea s with
     | Some idea => idea_renders idea
     | None => true
     end
     && match showEvaluation s, evaluation s with
        | true, Some e => panel_renders e
        | _, _ => true
        end).

(** A reply to the generation prompt whose title is an object. *)
Definition object_title_text : jsstring :=
  object_text
    [member "title" (object_text [member "en" (str "PayLeaf")]);
     member "description" (str "Carbon-aware payments");
     member "category" (str "FinTech"); member "targetMarket" (str "Small shops");
     member "problem" (str "Opaque footprint"); member "solution" (str "Per-transaction offsets")].

(** A reply to the evaluation prompt whose strengths are one string. *)
Definition string_strengths_text : jsstring :=
  object_text
    [member "marketSize" (lit "4"); member "competition" (lit "3");
     member "feasibility" (lit "5"); member "profitability" (lit "4");
     member "innovation" (lit "5"); member "timeToMarket" (lit "3");
     member "overallScore" (lit "85");
     member "strengths" (str "Unique value proposition");
     member "weaknesses" (LBRACKET :: str "High competition" ++ [RBRACKET]);
     member "recommendations" (LBRACKET :: str "Focus on MVP development" ++ [RBRACKET]);
     member "marketAnalysis" (str "Growing market");
     member "riskAssessment" (str "Regulatory risk")].

(** ** The prompts (lines 63, 116-127 and 229-264) *)

(** A value converted to a string, as a template literal does it; [None]
    when the conversion throws. A number is printed from the decimal value
    of its literal. *)
Definition number_to_text (x : number) : jsstring :=
  match x with
  | NZero _ => [ZERO]
  | NInfinity neg => if neg then lit "-Infinity" else lit "Infinity"
  | NFinite _ _ _ => number_to_json x
  end.

Fixpoint to_text (v : json) : option jsstring :=
  match v with
  | JNull => Some (lit "null")
  | JBool b => Some (if b then lit "true" else lit "false")
  | JNumber x => Some (number_to_text x)
  | JString s => Some s
  | JArray items =>
      (fix join (l : list json) : option jsstring :=
         match l with
         | [] => Some []
         | x :: rest =>
             match match x with JNull => Some [] | _ => to_text x end, join rest with
             | Some a, Some b =>
                 Some (a ++ match rest with [] => [] | _ :: _ => COMMA :: b end)
             | _, _ => None
             end
         end) items
  | JObject props =>
      if has_key (lit "toString") props then None else Some (lit "[object Object]")
  end.

Definition value_text (v : jsvalue) : option jsstring :=
  match v with
  | Some x => to_text x
  | None => Some (lit "undefined")
  end.

Definition quoted (s : string) : jsstring := QUOTE :: lit s ++ [QUOTE].

Fixpoint join_lines (lines : list jsstring) : jsstring :=
  match lines with
  | [] => []
  | [l] => l
  | l :: rest => l ++ LF :: join_lines rest
  end.

(** A line of an example object: two blanks, the quoted key, a colon and a
    blank, the value, and what ends the line. *)
Definition example_line (key : string) (value tail : jsstring) : jsstring :=
  lit "  " ++ quoted key ++ lit ": " ++ value ++ tail.

(** [["a", "b", "c"]] as the evaluation prompt writes it. *)
Definition example_list (a b c : string) : jsstring :=
  lit "[" ++ quoted a ++ lit ", " ++ quoted b ++ lit ", " ++ quoted c ++ lit "]".

(** Line 63. *)
Definition test_prompt : jsstring := lit "Say 'API connection successful'".

(** Line 116. *)
Definition categoryPrompt (selectedCategory : jsstring) : jsstring :=
  if is_empty selectedCategory then lit "in any innovative category"
  else lit "in the " ++ selectedCategory ++ lit " category".

(** The example object of the generation prompt (lines 120-127). *)
Definition idea_example (selectedCategory : jsstring) : jsstring :=
  join_lines
    [lit "{";
     example_line "title" (quoted "Startup name") (lit ",");
     example_line "description" (quoted "Brief description") (lit ",");
     example_line "category"
       (QUOTE :: (if is_empty selectedCategory then lit "Innovation"
                  else selectedCategory) ++ [QUOTE])
       (lit ",");
     example_line "targetMarket" (quoted "Target market") (lit ",");
     example_line "problem" (quoted "Problem solved") (lit ",");
     example_line "solution" (quoted "Solution provided") [];
     lit "}"].

(** Lines 118-127. *)
Definition idea_prompt (selectedCategory : jsstring) : jsstring :=
  join_lines
    [lit "Generate a startup idea " ++ categoryPrompt selectedCategory
       ++ lit ". Respond with valid JSON only:";
     [];
     idea_example selectedCategory].

(** The example object of the evaluation prompt (lines 241-254). *)
Definition evaluation_example : jsstring :=
  join_lines
    [lit "{";
     example_line "marketSize" (lit "4") (lit ",");
     example_line "competition" (lit "3") (lit ",");
     example_line "feasibility" (lit "5") (lit ",");
     example_line "profitability" (lit "4") (lit ",");
     example_line "innovation" (lit "5") (lit ",");
     example_line "timeToMarket" (lit "3") (lit ",");
     example_line "overallScore" (lit "85") (lit ",");
     example_line "strengths"
       (example_list "Unique value proposition" "Large addressable market"
          "Strong technical feasibility") (lit ",");
     example_line "weaknesses"
       (example_list "High competition" "Long development time"
          "Regulatory challenges") (lit ",");
     example_line "recommendations"
       (example_list "Focus on MVP development" "Conduct market research"
          "Build strategic partnerships") (lit ",");
     example_line "marketAnalysis"
       (quoted "Detailed analysis of the market opportunity, size, and trends")
       (lit ",");
     example_line "riskAssessment" (quoted "Key risks and mitigation strategies") [];
     lit "}"].

(** Lines 229-239, with the six fields already converted. *)
Definition evaluation_heading
    (title description category targetMarket problem solution : jsstring) : jsstring :=
  join_lines
    [lit "Evaluate this startup idea comprehensively. Respond with valid JSON only:";
     [];
     lit "Startup Idea:";
     lit "- Title: " ++ title;
     lit "- Description: " ++ description;
     lit "- Category: " ++ category;
     lit "- Target Market: " ++ targetMarket;
     lit "- Problem: " ++ problem;
     lit "- Solution: " ++ solution;
     [];
     lit "Provide a detailed evaluation in this exact JSON format:";
     []].

(** Lines 255-264. *)
Definition evaluation_legend : jsstring :=
  join_lines
    [[];
     lit "Rate each criterion from 1-5 where:";
     lit "- marketSize: 1=Very Small, 5=Huge Market";
     lit "- competition: 1=No Competition, 5=Highly Competitive";
     lit "- feasibility: 1=Very Difficult, 5=Highly Feasible";
     lit "- profitability: 1=Low Profit, 5=High Profit Potential";
     lit "- innovation: 1=Not Innovative, 5=Highly Innovative";
     lit "- timeToMarket: 1=Very Long, 5=Very Quick";
     [];
     lit "Calculate overallScore as percentage (0-100) based on weighted average of all criteria."].

(** Lines 229-264. *)
Definition evaluation_prompt_text
    (title description category targetMarket problem solution : jsstring) : jsstring :=
  evaluation_heading title description category targetMarket problem solution
  ++ LF :: evaluation_example ++ LF :: evaluation_legend.

(** The prompt for an idea; [None] when a field cannot be converted. *)
Definition evaluation_prompt (idea : Idea) : option jsstring :=
  match value_text (title idea), value_text (description idea),
        value_text (category idea), value_text (targetMarket idea),
        value_text (problem idea), value_text (solution idea) with
  | Some t, Some d, Some c, Some m, Some p, Some s =>
      Some (evaluation_prompt_text t d c m p s)
  | _, _, _, _, _, _ => None
  end.

(** The text that goes to the gateway with a request. *)
Definition prompt_of (r : Request) : option jsstring :=
  match r with
  | TestRequest _ => Some test_prompt
  | IdeaRequest _ selected => Some (idea_prompt selected)
  | EvaluationRequest _ idea => evaluation_prompt idea
  end.

(** The keys of an object, in order. *)
Definition keys_of (v : json) : list jsstring :=
  match v with
  | JObject props => map fst props
  | _ => []
  end.

(** What [evaluation_example] parses to. *)
Definition example_evaluation : json := parsed evaluation_example.

(** A code unit that a JSON string holds as it stands and that is not an
    opening brace; a text made of such units. *)
Definition plain_unit (c : N) : bool :=
  negb (N.eqb c QUOTE) && negb (N.eqb c BACKSLASH) && negb (c <? 32)%N
  && negb (N.eqb c LBRACE).

Definition plain_text (s : jsstring) : bool := forallb plain_unit s.

(** What the example of the generation prompt denotes. *)
Definition example_idea (selectedCategory : jsstring) : json :=
  JObject
    [(lit "title", JString (lit "Startup name"));
     (lit "description", JString (lit "Brief description"));
     (lit "category",
      JString (if is_empty selectedCategory then lit "Innovation" else selectedCategory));
     (lit "targetMarket", JString (lit "Target market"));
     (lit "problem", JString (lit "Problem solved"));
     (lit "solution", JString (lit "Solution provided"))].

(** * Properties *)

(** ** Strings *)

Section Strings.

Lemma str_eqb_eq (a b : jsstring) : str_eqb a b = true <-> a = b.
Proof.
  revert b; induction a as [|x a IH]; intros [|y b]; simpl; split;
    try easy.
  - rewrite andb_true_iff, N.eqb_eq, IH. now intros [-> ->].
  - intros [= -> ->]. rewrite N.eqb_refl. now apply IH.
Qed.

Lemma str_eqb_refl (a : jsstring) : str_eqb a a = true.
Proof. now apply str_eqb_eq. Qed.

Lemma str_eqb_neq (a b : jsstring) : str_eqb a b = false <-> a <> b.
Proof.
  split.
  - intros H E. apply str_eqb_eq in E. congruence.
  - intros H. destruct (str_eqb a b) eqn:E; [|reflexivity].
    apply str_eqb_eq in E. contradiction.
Qed.

Lemma startsWith_app (p r : jsstring) : startsWith (p ++ r) p = true.
Proof. induction p as [|c p IH]; simpl; [reflexivity|]. now rewrite N.eqb_refl. Qed.

Lemma startsWith_prefix (s p : jsstring) :
  startsWith s p = true <-> exists r, s = p ++ r.
Proof.
  split.
  - revert s; induction p as [|c p IH]; intros s H.
    + now exists s.
    + destruct s as [|d s]; simpl in H; [discriminate|].
      apply andb_true_iff in H as [Hc Hs]. apply N.eqb_eq in Hc; subst d.
      destruct (IH _ Hs) as [r ->]. now exists r.
  - intros [r ->]. apply startsWith_app.
Qed.

Lemma skipn_prefix (p r : jsstring) : skipn (length p) (p ++ r) = r.
Proof. induction p; simpl; auto. Qed.

Lemma ends_with_suffix (s suffix : jsstring) :
  ends_with s suffix = true <-> exists r, s = r ++ suffix.
Proof.
  unfold ends_with. rewrite startsWith_prefix. split.
  - intros [r H]. exists (rev r).
    rewrite <- (rev_involutive s), H, rev_app_distr, rev_involutive.
    reflexivity.
  - intros [r ->]. exists (rev r). now rewrite rev_app_distr.
Qed.

Lemma remove_last_suffix (r suffix : jsstring) :
  remove_last (length suffix) (r ++ suffix) = r.
Proof.
  unfold remove_last. rewrite length_app.
  replace (length r + length suffix - length suffix)%nat with (length r + 0)%nat by lia.
  rewrite firstn_app_2. simpl. apply app_nil_r.
Qed.

End Strings.

(** ** Fence stripping *)

Section Fences.

Lemma replace_open_fence_at_start (marker s : jsstring) :
  startsWith s marker = true ->
  replace_open_fence marker s = without_opening_fence marker s.
Proof. intros H. destruct s; simpl; simpl in H; now rewrite H. Qed.

Lemma close_fence_here_length (s : jsstring) :
  close_fence_here s = true -> (length s <= 4)%nat.
Proof.
  unfold close_fence_here. intros H. apply orb_true_iff in H as [H|H];
    apply str_eqb_eq in H; subst s; simpl; lia.
Qed.

(** The closing pattern matches at the line feed in front of a final fence. *)
Lemma replace_close_fence_newline (r : jsstring) :
  replace_close_fence (r ++ LF :: FENCE) = r.
Proof.
  induction r as [|c r IH].
  - reflexivity.
  - change ((c :: r) ++ LF :: FENCE) with (c :: (r ++ LF :: FENCE)).
    simpl replace_close_fence.
    destruct (close_fence_here (c :: r ++ LF :: FENCE)) eqn:E.
    + apply close_fence_here_length in E. simpl in E.
      rewrite length_app in E. simpl in E. lia.
    + now rewrite IH.
Qed.

(** Without a line feed in front, it matches at the fence itself. *)
Lemma replace_close_fence_plain (r : jsstring) :
  ends_with r [LF] = false ->
  replace_close_fence (r ++ FENCE) = r.
Proof.
  induction r as [|c r IH]; intros Hnl.
  - reflexivity.
  - change ((c :: r) ++ FENCE) with (c :: (r ++ FENCE)).
    simpl replace_close_fence.
    destruct (close_fence_here (c :: r ++ FENCE)) eqn:E.
    + exfalso. unfold close_fence_here in E.
      apply orb_true_iff in E as [E|E]; apply str_eqb_eq in E.
      * injection E as -> E. destruct r as [|d r]; [discriminate Hnl|].
        apply (f_equal (@length N)) in E. simpl in E.
        rewrite length_app in E. simpl in E. lia.
      * apply (f_equal (@length N)) in E. simpl in E.
        rewrite length_app in E. simpl in E. lia.
    + f_equal. apply IH.
      destruct r as [|d r]; [reflexivity|].
      destruct (ends_with (d :: r) [LF]) eqn:E'; [|reflexivity].
      apply ends_with_suffix in E' as [q E'].
      assert (ends_with (c :: d :: r) [LF] = true) as X.
      { apply ends_with_suffix. exists (c :: q). now rewrite E'. }
      congruence.
Qed.

(** With no fence at the end, nothing matches. *)
Lemma replace_close_fence_none (s : jsstring) :
  ends_with s FENCE = false ->
  replace_close_fence s = s.
Proof.
  induction s as [|c s IH]; intros H.
  - reflexivity.
  - simpl replace_close_fence.
    destruct (close_fence_here (c :: s)) eqn:E.
    + exfalso. unfold close_fence_here in E.
      assert (ends_with (c :: s) FENCE = true) as X; [|congruence].
      apply ends_with_suffix.
      apply orb_true_iff in E as [E|E]; apply str_eqb_eq in E; rewrite E.
      * now exists [LF].
      * now exists [].
    + f_equal. apply IH.
      destruct (ends_with s FENCE) eqn:E'; [|reflexivity].
      apply ends_with_suffix in E' as [q E'].
      assert (ends_with (c :: s) FENCE = true) as X; [|congruence].
      apply ends_with_suffix. exists (c :: q). now rewrite E'.
Qed.

Lemma replace_close_fence_spec (s : jsstring) :
  replace_close_fence s = without_closing_fence s.
Proof.
  unfold without_closing_fence.
  destruct (ends_with s (LF :: FENCE)) eqn:E1.
  - apply ends_with_suffix in E1 as [r ->].
    rewrite replace_close_fence_newline.
    symmetry. apply (remove_last_suffix r (LF :: FENCE)).
  - destruct (ends_with s FENCE) eqn:E2.
    + apply ends_with_suffix in E2 as [r ->].
      replace (remove_last 3 (r ++ FENCE)) with r
        by (symmetry; apply (remove_last_suffix r FENCE)).
      apply replace_close_fence_plain.
      destruct (ends_with r [LF]) eqn:E3; [|reflexivity].
      apply ends_with_suffix in E3 as [q ->].
      assert (ends_with ((q ++ [LF]) ++ FENCE) (LF :: FENCE) = true) as X;
        [|congruence].
      apply ends_with_suffix. exists q. now rewrite <- app_assoc.
    + now apply replace_close_fence_none.
Qed.

Lemma strip_fences_unfenced (t : jsstring) : strip_fences t = unfenced t.
Proof.
  unfold strip_fences, unfenced.
  destruct (startsWith t FENCE_JSON) eqn:E1.
  - now rewrite replace_open_fence_at_start, replace_close_fence_spec.
  - destruct (startsWith t FENCE) eqn:E2; [|reflexivity].
    now rewrite replace_open_fence_at_start, replace_close_fence_spec.
Qed.

End Fences.

(** ** Trimming *)

Section Trim.

Lemma trimStart_guarded (c : N) (r : jsstring) :
  is_js_whitespace c = false -> trimStart (c :: r) = c :: r.
Proof. intros H. simpl. now rewrite H. Qed.

(** A text that starts and ends with a visible character is its own trim. *)
Lemma trim_guarded (c d : N) (mid : jsstring) :
  is_js_whitespace c = false -> is_js_whitespace d = false ->
  trim (c :: mid ++ [d]) = c :: mid ++ [d].
Proof.
  intros Hc Hd. unfold trim, trimEnd.
  rewrite (trimStart_guarded _ _ Hc).
  assert (rev (c :: mid ++ [d]) = d :: rev (c :: mid)) as E.
  { change (c :: mid ++ [d]) with ((c :: mid) ++ [d]).
    now rewrite rev_app_distr. }
  rewrite E, (trimStart_guarded _ _ Hd), <- E.
  apply rev_involutive.
Qed.

End Trim.

(** ** C3: fence stripping *)

(** C3. After trimming, the cleaning removes what the specification says: a
    leading [```json] marker (else a leading [```] marker) with the line
    feed after it, and a closing [```] at the very end with the line feed
    before it; a text without a leading marker is left alone. Only one pair
    goes: whatever stands between a fence line and a closing fence line comes
    out unchanged, further fences included. *)
Theorem fence_stripping_characterised :
  (forall text, clean_response text = unfenced (trim text)) /\
  (forall body, clean_response (FENCE_JSON ++ LF :: body ++ LF :: FENCE) = body) /\
  (forall body, clean_response (FENCE ++ LF :: body ++ LF :: FENCE) = body) /\
  clean_response (lit "  ```json{}```  ") = lit "{}" /\
  clean_response (lit "Here you go: ```json{}```") = lit "Here you go: ```json{}```".
Proof.
  split; [|split; [|split; [|split]]].
  - intros text. apply strip_fences_unfenced.
  - intros body. unfold clean_response.
    replace (FENCE_JSON ++ LF :: body ++ LF :: FENCE)
      with (96%N :: ([96; 96; 106; 115; 111; 110; 10]%N ++ body ++ [10; 96; 96]%N) ++ [96%N])
      by (simpl; rewrite <- !app_assoc; reflexivity).
    rewrite trim_guarded by reflexivity.
    replace (96%N :: ([96; 96; 106; 115; 111; 110; 10]%N ++ body ++ [10; 96; 96]%N) ++ [96%N])
      with (FENCE_JSON ++ LF :: body ++ LF :: FENCE)
      by (simpl; rewrite <- !app_assoc; reflexivity).
    unfold strip_fences. rewrite startsWith_app.
    rewrite replace_open_fence_at_start by apply startsWith_app.
    unfold without_opening_fence. rewrite skipn_prefix. simpl drop_newline.
    apply replace_close_fence_newline.
  - intros body. unfold clean_response.
    replace (FENCE ++ LF :: body ++ LF :: FENCE)
      with (96%N :: ([96; 96; 10]%N ++ body ++ [10; 96; 96]%N) ++ [96%N])
      by (simpl; rewrite <- !app_assoc; reflexivity).
    rewrite trim_guarded by reflexivity.
    replace (96%N :: ([96; 96; 10]%N ++ body ++ [10; 96; 96]%N) ++ [96%N])
      with (FENCE ++ LF :: body ++ LF :: FENCE)
      by (simpl; rewrite <- !app_assoc; reflexivity).
    unfold strip_fences.
    replace (startsWith (FENCE ++ LF :: body ++ LF :: FENCE) FENCE_JSON) with false
      by reflexivity.
    rewrite startsWith_app.
    rewrite replace_open_fence_at_start by apply startsWith_app.
    unfold without_opening_fence. rewrite skipn_prefix. simpl drop_newline.
    apply replace_close_fence_newline.
  - vm_compute. reflexivity.
  - vm_compute. reflexivity.
Qed.

(** ** C2: locating the JSON object *)

Section Braces.

Lemma greedy_to_rbrace_none (s : jsstring) :
  greedy_to_rbrace s = None <-> ~ In RBRACE s.
Proof.
  induction s as [|c s IH]; simpl.
  - tauto.
  - destruct (greedy_to_rbrace s) as [m|] eqn:E.
    + split; [discriminate|]. intros H. exfalso.
      destruct IH as [_ IH].
      assert (Some m = None) by (apply IH; tauto). discriminate.
    + destruct (N.eqb_spec c RBRACE) as [->|Hc].
      * split; [discriminate|]. intros H. exfalso. apply H. now left.
      * split; [|reflexivity]. intros _ [H|H]; [congruence|].
        now apply IH.
Qed.

(** From any position the greedy part runs to the last closing brace. *)
Lemma greedy_to_rbrace_last (mid post : jsstring) :
  ~ In RBRACE post ->
  greedy_to_rbrace (mid ++ RBRACE :: post) = Some (mid ++ [RBRACE]).
Proof.
  intros Hpost. apply greedy_to_rbrace_none in Hpost.
  induction mid as [|c mid IH]; simpl.
  - now rewrite Hpost.
  - now rewrite IH.
Qed.

Lemma greedy_to_rbrace_some (s m : jsstring) :
  greedy_to_rbrace s = Some m ->
  exists mid post, s = mid ++ RBRACE :: post /\ m = mid ++ [RBRACE]
                   /\ ~ In RBRACE post.
Proof.
  revert m; induction s as [|c s IH]; intros m H; simpl in H.
  - discriminate.
  - destruct (greedy_to_rbrace s) eqn:E.
    + injection H as <-. destruct (IH _ eq_refl) as (mid & post & -> & -> & Hp).
      now exists (c :: mid), post.
    + destruct (N.eqb_spec c RBRACE) as [->|Hc]; [|discriminate].
      injection H as <-. exists [], s. repeat split.
      now apply greedy_to_rbrace_none.
Qed.

(** The match is the span from the first opening brace to the last closing
    brace. *)
Lemma match_json_object_span (pre mid post : jsstring) :
  ~ In LBRACE pre -> ~ In RBRACE post ->
  match_json_object (pre ++ LBRACE :: mid ++ RBRACE :: post)
  = Some (LBRACE :: mid ++ [RBRACE]).
Proof.
  intros Hpre Hpost. induction pre as [|c pre IH]; simpl.
  - now rewrite greedy_to_rbrace_last.
  - destruct (N.eqb_spec c LBRACE) as [->|Hc].
    + exfalso. apply Hpre. now left.
    + apply IH. intros H. apply Hpre. now right.
Qed.

Lemma match_json_object_some (s m : jsstring) :
  match_json_object s = Some m ->
  exists pre mid post,
    s = pre ++ m ++ post /\ m = LBRACE :: mid ++ [RBRACE] /\
    ~ In LBRACE pre /\ ~ In RBRACE post.
Proof.
  revert m; induction s as [|c s IH]; intros m H; simpl in H.
  - discriminate.
  - destruct (N.eqb_spec c LBRACE) as [->|Hc].
    + destruct (greedy_to_rbrace s) eqn:E.
      * injection H as <-.
        destruct (greedy_to_rbrace_some _ _ E) as (mid & post & -> & -> & Hp).
        exists [], mid, post. simpl. rewrite <- app_assoc. auto.
      * exfalso. apply IH in H as (pre & mid & post & -> & -> & _ & _).
        apply greedy_to_rbrace_none in E. apply E.
        apply in_or_app. right. right.
        apply in_or_app. left. apply in_or_app. right. now left.
    + destruct (IH _ H) as (pre & mid & post & -> & -> & Hpre & Hpost).
      exists (c :: pre), mid, post. repeat split; auto.
      intros [X|X]; [congruence|contradiction].
Qed.


End Braces.


(** ** Validation of the required fields *)

Section RequiredFields.

Variable present : jsvalue -> bool.
Variable data : json.

Lemma first_missing_none (fields : list jsstring) :
  (forall f, In f fields -> present (get_field data f) = true) ->
  first_missing present data fields = None.
Proof.
  induction fields as [|f fields IH]; intros H; simpl.
  - reflexivity.
  - rewrite (H f) by now left. apply IH. intros g Hg. apply H. now right.
Qed.

Lemma first_missing_first (before after : list jsstring) (f : jsstring) :
  (forall g, In g before -> present (get_field data g) = true) ->
  present (get_field data f) = false ->
  first_missing present data (before ++ f :: after) = Some f.
Proof.
  induction before as [|g before IH]; intros Hb Hf; simpl.
  - now rewrite Hf.
  - rewrite (Hb g) by now left. apply IH; [|assumption].
    intros g' Hg'. apply Hb. now right.
Qed.

End RequiredFields.

(** The pipeline past the parse: the outcome is that of the field check. *)
Lemma parse_response_checked (h : Host) (no_json missing : jsstring)
    (present : jsvalue -> bool) (fields : list jsstring)
    (text m : jsstring) (data : json) :
  match_json_object (clean_response text) = Some m ->
  JSON_parse m = inl data ->
  parse_response h no_json missing present fields text
  = match first_missing present data fields with
    | Some f => inl (new_Error (missing ++ f))
    | None => inr data
    end.
Proof. intros Hm Hp. unfold parse_response. now rewrite Hm, Hp. Qed.

(** C1 (as amended). Once the object is parsed, the evaluation pipeline
    checks presence and non-null only: it accepts the data when every
    required key holds a value that is neither [undefined] nor [null], of
    whatever type, the empty string and zero included, and at the first
    required key that is absent or null it throws the missing-field error
    naming that key. The generation pipeline tests truthiness instead: it
    accepts the data when every required key holds a truthy value, and the
    first required key that is absent, null or otherwise falsy is reported as
    missing by name. In both handlers the message placed in the error slot
    for such an error ends with the name of the field. *)
Theorem required_fields_checked (h : Host) (text m : jsstring) (data : json) :
  match_json_object (clean_response text) = Some m ->
  JSON_parse m = inl data ->
  ((forall f, In f evaluation_requiredFields ->
              not_nullish (get_field data f) = true) ->
   parse_evaluation h text = inr data) /\
  (forall before f after,
     evaluation_requiredFields = before ++ f :: after ->
     (forall g, In g before -> not_nullish (get_field data g) = true) ->
     not_nullish (get_field data f) = false ->
     parse_evaluation h text
     = inl (new_Error (lit "Missing required evaluation field: " ++ f))) /\
  ((forall f, In f idea_requiredFields -> truthy (get_field data f) = true) ->
   parse_idea h text = inr data) /\
  (forall before f after,
     idea_requiredFields = before ++ f :: after ->
     (forall g, In g before -> truthy (get_field data g) = true) ->
     truthy (get_field data f) = false ->
     parse_idea h text = inl (new_Error (lit "Missing required field: " ++ f))) /\
  (forall s, not_nullish (Some (JString s)) = true) /\
  (forall x, not_nullish (Some (JNumber x)) = true) /\
  (forall v, not_nullish (Some v) = false <-> v = JNull) /\
  (forall v, truthy v = true -> not_nullish v = true) /\
  Forall (fun f =>
            evaluate_errorMessage
              (new_Error (lit "Missing required evaluation field: " ++ f))
            = lit "Failed to evaluate idea. Error: Missing required evaluation field: "
                ++ f)
    evaluation_requiredFields /\
  Forall (fun f =>
            generate_errorMessage (new_Error (lit "Missing required field: " ++ f))
            = lit "Failed to generate idea. Error: Missing required field: " ++ f)
    idea_requiredFields.
Proof.
  intros Hm Hp.
  unfold parse_evaluation, parse_idea.
  rewrite !(parse_response_checked h _ _ _ _ text m data Hm Hp).
  assert (Forall (fun f =>
            evaluate_errorMessage
              (new_Error (lit "Missing required evaluation field: " ++ f))
            = lit "Failed to evaluate idea. Error: Missing required evaluation field: "
                ++ f)
            evaluation_requiredFields) as Hshown
    by (repeat (constructor; [vm_compute; reflexivity|]); constructor).
  assert (Forall (fun f =>
            generate_errorMessage (new_Error (lit "Missing required field: " ++ f))
            = lit "Failed to generate idea. Error: Missing required field: " ++ f)
            idea_requiredFields) as Hshown'
    by (repeat (constructor; [vm_compute; reflexivity|]); constructor).
  repeat split; try assumption.
  - intros H. now rewrite first_missing_none.
  - intros before f after E Hb Hf. rewrite E.
    now rewrite first_missing_first.
  - intros H. now rewrite first_missing_none.
  - intros before f after E Hb Hf. rewrite E.
    now rewrite first_missing_first.
  - destruct v; simpl; congruence.
  - intros ->. reflexivity.
  - intros [v|]; [|discriminate]. destruct v; simpl; congruence.
Qed.

(** A case where the amended C1 applies: an evaluation whose [marketSize] is
    the empty string passes, and an idea whose [title] is the empty string is
    reported as missing its title. *)
Lemma required_fields_checked_witness :
  parse_evaluation (replying_host []) (evaluation_text (str ""))
  = inr (parsed (evaluation_text (str ""))) /\
  parse_idea (replying_host []) empty_title_text
  = inl (new_Error (lit "Missing required field: " ++ lit "title")).
Proof.
  split.
  - refine (proj1 (required_fields_checked (replying_host [])
                     (evaluation_text (str "")) (evaluation_text (str ""))
                     (parsed (evaluation_text (str ""))) _ _) _).
    + vm_compute; reflexivity.
    + vm_compute; reflexivity.
    + intros f Hf. simpl in Hf.
      repeat (destruct Hf as [<-|Hf]; [vm_compute; reflexivity|]).
      contradiction.
  - refine (proj1 (proj2 (proj2 (proj2 (required_fields_checked (replying_host [])
                     empty_title_text empty_title_text
                     (parsed empty_title_text) _ _)))) [] (lit "title") _ _ _ _).
    + vm_compute; reflexivity.
    + vm_compute; reflexivity.
    + reflexivity.
    + intros g [].
    + vm_compute; reflexivity.
Defined.

(** C1 fails as stated on the generation pipeline: in this reply every
    required key is bound to a value that is neither absent nor null, the
    title being the empty string, and the pipeline reports the title as
    missing. *)
Lemma empty_title_reported_missing :
  exists data,
    JSON_parse empty_title_text = inl data /\
    get_field data (lit "title") = Some (JString []) /\
    Forall (fun f => not_nullish (get_field data f) = true) idea_requiredFields /\
    parse_idea (replying_host []) empty_title_text
    = inl (new_Error (lit "Missing required field: title")).
Proof.
  exists (parsed empty_title_text).
  split; [vm_compute; reflexivity|].
  split; [vm_compute; reflexivity|].
  split; [|vm_compute; reflexivity].
  repeat (constructor; [vm_compute; reflexivity|]). constructor.
Qed.

(** ** C8: malformed JSON *)

(** C8 (as amended). When the extracted substring is not valid JSON, the
    pipeline throws the [SyntaxError] of [JSON.parse], whose message is the
    engine's own for that text and position; nothing else is attached to it.
    The required fields are not looked at: the outcome is the same for every
    field list and every field test. *)
Theorem malformed_json_rejected (h : Host) (text m : jsstring) (position : nat) :
  match_json_object (clean_response text) = Some m ->
  JSON_parse m = inr position ->
  parse_idea h text = inl (new_SyntaxError (syntax_error_message h m position)) /\
  parse_evaluation h text = inl (new_SyntaxError (syntax_error_message h m position)) /\
  forall no_json missing present fields,
    parse_response h no_json missing present fields text
    = inl (new_SyntaxError (syntax_error_message h m position)).
Proof.
  intros Hm Hp.
  assert (forall no_json missing present fields,
             parse_response h no_json missing present fields text
             = inl (new_SyntaxError (syntax_error_message h m position))) as H.
  { intros. unfold parse_response. now rewrite Hm, Hp. }
  repeat split; try apply H.
Qed.

(** The input of the specification's test: the error is the engine's
    unexpected-token message. *)
Lemma malformed_json_rejected_witness :
  parse_idea (replying_host []) (lit "{a:1,}")
  = inl (new_SyntaxError (lit "Unexpected token a in JSON at position 1")) /\
  parse_evaluation (replying_host []) (lit "{a:1,}")
  = inl (new_SyntaxError (lit "Unexpected token a in JSON at position 1")).
Proof.
  pose proof (malformed_json_rejected (replying_host []) (lit "{a:1,}")
                (lit "{a:1,}") 1 eq_refl eq_refl) as (H1 & H2 & _).
  split; [exact H1 | exact H2].
Defined.

(** C8 fails as stated: the thrown error does not carry the offending
    substring. Under the wording of V8, the error for [{a:1,}] holds the
    message and nothing of the text beyond the unexpected token; the error
    slot shows that message, and the whole state at the end of the round trip
    is the very one that the different reply [{a:2,}] leads to. *)
Lemma syntax_error_omits_substring :
  match_json_object (clean_response (lit "{a:1,}")) = Some (lit "{a:1,}") /\
  parse_idea (replying_host []) (lit "{a:1,}")
  = inl (mkJsError (Some (lit "Unexpected token a in JSON at position 1"))
           (Some (lit "SyntaxError")) None None) /\
  includes (lit "Unexpected token a in JSON at position 1") (lit "{a:1,}") = false /\
  error (ui (generateAIIdea (replying_host (lit "{a:1,}")) (mkWorld evaluated_state [])))
  = lit "Failed to generate idea. Error: Unexpected token a in JSON at position 1" /\
  debugInfo (ui (generateAIIdea (replying_host (lit "{a:1,}")) (mkWorld evaluated_state [])))
  = DebugErrorDetails (lit "Error details: ")
      (new_SyntaxError (lit "Unexpected token a in JSON at position 1")) /\
  ui (generateAIIdea (replying_host (lit "{a:2,}")) (mkWorld evaluated_state []))
  = ui (generateAIIdea (replying_host (lit "{a:1,}")) (mkWorld evaluated_state [])).
Proof. repeat split; vm_compute; reflexivity. Qed.

(** ** The two round trips *)

Arguments lit : simpl never.
Arguments generate_errorMessage : simpl never.
Arguments evaluate_errorMessage : simpl never.

Ltac unfold_run :=
  unfold generate_try, evaluate_try, testApiConnection, try_catch_finally,
    bind, update, call_gateway, lift_result, ret, throw in *.

Section RoundTrips.

Variable h : Host.


(** The evaluation handler past its guard. *)
Lemma evaluateAIIdea_unguarded (w : World) (idea : Idea) :
  currentIdea (ui w) = Some idea ->
  is_empty (trim (apiKey (ui w))) = false ->
  evaluateAIIdea h w
  = try_catch_finally (evaluate_try h (apiKey (ui w)) idea)
      evaluate_catch (setIsEvaluating false) (evaluate_started w).
Proof. intros Hi H. unfold evaluateAIIdea. now rewrite Hi, H. Qed.




End RoundTrips.

Lemma first_missing_none_inv (present : jsvalue -> bool) (data : json)
    (fields : list jsstring) :
  first_missing present data fields = None ->
  forall f, In f fields -> present (get_field data f) = true.
Proof.
  induction fields as [|g fields IH]; simpl; intros H f Hf.
  - contradiction.
  - destruct (present (get_field data g)) eqn:E; [|discriminate].
    destruct Hf as [<-|Hf]; auto.
Qed.


(** ** C4: a new idea clears the evaluation *)



(** ** C5: failures *)

Lemma generate_errorMessage_prefix (err : JsError) :
  startsWith (generate_errorMessage err) (lit "Failed to generate idea. ") = true.
Proof. unfold generate_errorMessage. apply startsWith_app. Qed.

Lemma evaluate_errorMessage_prefix (err : JsError) :
  startsWith (evaluate_errorMessage err) (lit "Failed to evaluate idea. ") = true.
Proof. unfold evaluate_errorMessage. apply startsWith_app. Qed.



(** ** C10: an evaluation leaves the idea alone *)

(** C10. Whatever the outcome of [evaluateAIIdea] (blocked by its guard,
    failed or completed), the idea slot afterwards is the idea slot before;
    so are the key, the selected category and the generating flag. *)
Theorem evaluation_preserves_idea (h : Host) (w : World) :
  currentIdea (ui (evaluateAIIdea h w)) = currentIdea (ui w) /\
  apiKey (ui (evaluateAIIdea h w)) = apiKey (ui w) /\
  selectedCategory (ui (evaluateAIIdea h w)) = selectedCategory (ui w) /\
  isGenerating (ui (evaluateAIIdea h w)) = isGenerating (ui w).
Proof.
  unfold evaluateAIIdea.
  destruct (currentIdea (ui w)) as [idea|] eqn:Hi; [|now rewrite Hi].
  destruct (is_empty (trim (apiKey (ui w)))); [now rewrite Hi|].
  unfold_run. simpl.
  destruct (gateway h (EvaluationRequest (trim (apiKey (ui w))) idea))
    as [e|text]; simpl; [auto|].
  destruct (parse_evaluation h text) as [e|data]; simpl; auto.
Qed.

(** ** C6: re-entrancy *)

(** C6 fails as stated: the handler itself has no re-entrancy guard. Called
    in a state whose generating flag is already true, it sends its two
    requests, replaces the idea, clears the evaluation and lowers the flag. *)
Lemma reentrant_generation_runs :
  isGenerating generating_state = true /\
  generateAIIdea (replying_host sample_idea_text) (mkWorld generating_state [])
  <> mkWorld generating_state [] /\
  sent (generateAIIdea (replying_host sample_idea_text) (mkWorld generating_state []))
  = [TestRequest (lit "AIzaSyExampleKey");
     IdeaRequest (lit "AIzaSyExampleKey") (lit "FinTech")] /\
  evaluation (ui (generateAIIdea (replying_host sample_idea_text)
                    (mkWorld generating_state []))) = None /\
  isGenerating (ui (generateAIIdea (replying_host sample_idea_text)
                      (mkWorld generating_state []))) = false.
Proof.
  split; [reflexivity|]. split; [|repeat split; vm_compute; reflexivity].
  intros E. apply (f_equal (fun w => isGenerating (ui w))) in E.
  vm_compute in E. discriminate.
Qed.

(** C6 (as amended). Re-entrancy is prevented by the buttons, not by the
    handlers. A click on the generate button while the generating flag is
    true, or on the evaluate button while the evaluating flag is true,
    changes nothing, since the button is disabled. The handlers do not read
    the flags: past the key and idea guards, [generateAIIdea] and
    [evaluateAIIdea] run the same way whatever the flag held. *)
Theorem reentrancy_guarded_by_buttons (h : Host) (w : World) :
  (isGenerating (ui w) = true -> click_generate h w = w) /\
  (isEvaluating (ui w) = true -> click_evaluate h w = w) /\
  (isGenerating (ui w) = false -> click_generate h w = generateAIIdea h w) /\
  (isEvaluating (ui w) = false -> click_evaluate h w = evaluateAIIdea h w) /\
  (is_empty (trim (apiKey (ui w))) = false ->
   forall b,
     generateAIIdea h (mkWorld (setIsGenerating b (ui w)) (sent w))
     = generateAIIdea h w) /\
  (currentIdea (ui w) <> None ->
   is_empty (trim (apiKey (ui w))) = false ->
   forall b,
     evaluateAIIdea h (mkWorld (setIsEvaluating b (ui w)) (sent w))
     = evaluateAIIdea h w).
Proof.
  repeat split.
  - intros H. unfold click_generate. now rewrite H.
  - intros H. unfold click_evaluate. rewrite H. now destruct (currentIdea (ui w)).
  - intros H. unfold click_generate. now rewrite H.
  - intros H. unfold click_evaluate. rewrite H.
    destruct (currentIdea (ui w)) eqn:E; [reflexivity|].
    unfold evaluateAIIdea. now rewrite E.
  - intros Hkey b. unfold generateAIIdea. simpl. now rewrite Hkey.
  - intros Hidea Hkey b. unfold evaluateAIIdea. simpl.
    destruct (currentIdea (ui w)); [|contradiction].
    now rewrite Hkey.
Qed.

(** While a generation is in flight the button is dead, and the handler
    called directly behaves as from a state with the flag down. *)
Lemma reentrancy_guarded_by_buttons_witness :
  click_generate (replying_host sample_idea_text) (mkWorld generating_state [])
  = mkWorld generating_state [] /\
  generateAIIdea (replying_host sample_idea_text) (mkWorld generating_state [])
  = generateAIIdea (replying_host sample_idea_text) (mkWorld evaluated_state []).
Proof.
  pose proof (reentrancy_guarded_by_buttons (replying_host sample_idea_text)
                (mkWorld generating_state [])) as (H1 & _ & _ & _ & H5 & _).
  split.
  - apply H1. reflexivity.
  - rewrite <- (H5 ltac:(vm_compute; reflexivity) false). reflexivity.
Defined.

(** ** C7: a missing key *)


(** A key of white space only, as [localStorage] may hold it: the header
    badge does not ask for a key, the evaluation is blocked, and no slot
    changes. *)
Lemma blank_key_evaluation_unnoticed :
  key_required_badge (setApiKey (lit "  ") evaluated_state) = false /\
  evaluateAIIdea (replying_host []) (mkWorld (setApiKey (lit "  ") evaluated_state) [])
  = mkWorld (setApiKey (lit "  ") evaluated_state) [].
Proof. split; reflexivity. Qed.

(** The state of the witness below is reached by the program: save a key,
    generate an idea, clear the key. *)
Lemma cleared_key_state_reached :
  ui (click_generate (replying_host sample_idea_text)
        (mkWorld (saveApiKey (setTempApiKey (lit "AIzaSyExampleKey") initial_state)) []))
  = setDebugInfo (DebugText (lit "Idea generated successfully!"))
      (setCurrentIdea (Some (idea_of (replying_host sample_idea_text)
                               (parsed sample_idea_text)))
         (saveApiKey (setTempApiKey (lit "AIzaSyExampleKey") initial_state))) /\
  forall s,
    currentIdea s <> None -> isEvaluating s = false ->
    click_evaluate (replying_host []) (mkWorld (clearApiKey s) [])
    = mkWorld (clearApiKey s) [].
Proof.
  split; [vm_compute; reflexivity|].
  intros s Hidea Hflag. unfold click_evaluate, evaluateAIIdea.
  destruct s as [[idea|] ev sh key tmp dlg gen evl err cat dbg];
    [|contradiction].
  cbn in Hflag. subst evl. reflexivity.
Qed.


(** ** Decimal numerals *)

Section Numerals.

Local Open Scope N_scope.

Lemma horner_acc (ds : list N) (acc : N) :
  fold_left (fun a d => 10 * a + d) ds acc
  = acc * 10 ^ N.of_nat (length ds) + digits_value ds.
Proof.
  unfold digits_value. revert acc.
  induction ds as [|d ds IH]; intros acc.
  - simpl. lia.
  - cbn [fold_left length]. rewrite IH, (IH (10 * 0 + d)).
    rewrite Nat2N.inj_succ, N.pow_succ_r'. lia.
Qed.

Lemma digits_value_cons (d : N) (ds : list N) :
  digits_value (d :: ds) = d * 10 ^ N.of_nat (length ds) + digits_value ds.
Proof.
  unfold digits_value at 1. cbn [fold_left]. rewrite horner_acc. lia.
Qed.

Lemma N_to_digits_aux_value (fuel : nat) :
  forall n acc,
    n < 2 ^ N.of_nat fuel ->
    digits_value (N_to_digits_aux (S fuel) n acc)
    = n * 10 ^ N.of_nat (length acc) + digits_value acc.
Proof.
  induction fuel as [|f IH]; intros n acc Hn.
  - simpl in Hn. assert (n = 0) as -> by lia. simpl.
    now rewrite digits_value_cons.
  - change (N_to_digits_aux (S (S f)) n acc)
      with (if n <? 10 then n :: acc
            else N_to_digits_aux (S f) (n / 10) (n mod 10 :: acc)).
    destruct (N.ltb_spec n 10) as [Hlt|Hge].
    + now rewrite digits_value_cons.
    + rewrite IH.
      * rewrite digits_value_cons. cbn [length].
        rewrite Nat2N.inj_succ, N.pow_succ_r'.
        pose proof (N.div_mod n 10 ltac:(lia)). nia.
      * apply N.Div0.div_lt_upper_bound.
        rewrite Nat2N.inj_succ, N.pow_succ_r' in Hn. lia.
Qed.

(** The digits that are printed denote the number. *)
Lemma N_to_digits_value (n : N) : digits_value (N_to_digits n) = n.
Proof.
  unfold N_to_digits. rewrite N_to_digits_aux_value.
  - simpl. unfold digits_value. simpl. lia.
  - rewrite N2Nat.id. apply N.size_gt.
Qed.

Lemma N_to_digits_aux_small (fuel : nat) :
  forall n acc,
    Forall (fun d => d < 10) acc ->
    Forall (fun d => d < 10) (N_to_digits_aux fuel n acc).
Proof.
  induction fuel as [|f IH]; intros n acc Hacc; simpl.
  - assumption.
  - destruct (N.ltb_spec n 10).
    + now constructor.
    + apply IH. constructor; [|assumption]. now apply N.mod_lt.
Qed.

Lemma N_to_digits_small (n : N) : Forall (fun d => d < 10) (N_to_digits n).
Proof. apply N_to_digits_aux_small. constructor. Qed.

Lemma N_to_digits_aux_nonempty (fuel : nat) :
  forall n acc, N_to_digits_aux (S fuel) n acc <> [].
Proof.
  induction fuel as [|f IH]; intros n acc.
  - simpl. destruct (n <? 10); discriminate.
  - change (N_to_digits_aux (S (S f)) n acc)
      with (if n <? 10 then n :: acc
            else N_to_digits_aux (S f) (n / 10) (n mod 10 :: acc)).
    destruct (n <? 10); [discriminate|apply IH].
Qed.

Lemma N_to_digits_nonempty (n : N) : N_to_digits n <> [].
Proof. apply N_to_digits_aux_nonempty. Qed.

Lemma is_digit_code (d : N) : d < 10 -> is_digit (digit_code d) = true.
Proof.
  intros H. unfold is_digit, digit_code.
  apply andb_true_iff. split; apply N.leb_le; lia.
Qed.

Lemma digit_code_value (d : N) : digit_code d - 48 = d.
Proof. unfold digit_code. lia. Qed.

(** Printed digits are read back up to the first code unit that is not a
    digit. *)
Lemma take_digits_printed (ds : list N) (rest : jsstring) :
  Forall (fun d => d < 10) ds -> no_digit_head rest ->
  take_digits (map digit_code ds ++ rest) = (ds, rest).
Proof.
  intros Hds Hrest. induction Hds as [|d ds Hd _ IH]; cbn [map app take_digits].
  - destruct rest as [|c r]; [reflexivity|].
    change (is_digit c = false) in Hrest. cbn [take_digits]. now rewrite Hrest.
  - rewrite (is_digit_code d Hd), IH. now rewrite digit_code_value.
Qed.

Lemma take_digits_small (s : jsstring) :
  Forall (fun d => d < 10) (fst (take_digits s)).
Proof.
  induction s as [|c s IH]; cbn [take_digits].
  - constructor.
  - destruct (is_digit c) eqn:E; [|constructor].
    destruct (take_digits s) as [ds rest]. cbn [fst] in *. constructor; [|assumption].
    unfold is_digit in E. apply andb_true_iff in E as [E1 E2].
    apply N.leb_le in E1, E2. lia.
Qed.

Lemma take_digits_length (s : jsstring) :
  (length (fst (take_digits s)) + length (snd (take_digits s)) = length s)%nat.
Proof.
  induction s as [|c s IH]; cbn [take_digits].
  - reflexivity.
  - destruct (is_digit c); [|reflexivity].
    destruct (take_digits s) as [ds rest]. cbn [fst snd length] in *. lia.
Qed.

End Numerals.

(** ** String literals: what is quoted reads back *)

Section StringLiterals.

Local Open Scope N_scope.

Lemma hex_value_digit (d : N) : d < 16 -> hex_value (hex_digit d) = Some d.
Proof.
  intros H. unfold hex_value, hex_digit.
  destruct (N.ltb_spec d 10) as [Hd|Hd].
  - replace (48 <=? d + 48) with true by (symmetry; apply N.leb_le; lia).
    replace (d + 48 <=? 57) with true by (symmetry; apply N.leb_le; lia).
    simpl. f_equal. lia.
  - replace (d + 87 <=? 57) with false by (symmetry; apply N.leb_gt; lia).
    rewrite andb_false_r.
    replace (97 <=? d + 87) with true by (symmetry; apply N.leb_le; lia).
    replace (d + 87 <=? 102) with true by (symmetry; apply N.leb_le; lia).
    simpl. f_equal. lia.
Qed.

Lemma hex4_value_escape (c : N) :
  c < 65536 ->
  hex4_value (hex_digit (c / 4096)) (hex_digit ((c / 256) mod 16))
    (hex_digit ((c / 16) mod 16)) (hex_digit (c mod 16)) = Some c.
Proof.
  intros Hc. unfold hex4_value.
  assert (c / 4096 < 16) by (apply N.Div0.div_lt_upper_bound; lia).
  rewrite !hex_value_digit by (try assumption; apply N.mod_lt; lia).
  f_equal.
  replace (c / 4096) with (c / 16 / 16 / 16) by (rewrite !N.Div0.div_div; reflexivity).
  replace (c / 256) with (c / 16 / 16) by (rewrite !N.Div0.div_div; reflexivity).
  pose proof (N.div_mod c 16 ltac:(lia)).
  pose proof (N.div_mod (c / 16) 16 ltac:(lia)).
  pose proof (N.div_mod (c / 16 / 16) 16 ltac:(lia)).
  lia.
Qed.

Lemma parse_chars_unicode_escape (c : N) (rest : jsstring) :
  c < 65536 ->
  parse_chars (unicode_escape c ++ rest) = pmap (cons c) (parse_chars rest).
Proof.
  intros Hc. unfold unicode_escape. cbn [map app parse_chars].
  replace (BACKSLASH =? QUOTE) with false by reflexivity.
  replace (BACKSLASH =? BACKSLASH) with true by reflexivity.
  replace (117 =? 117) with true by reflexivity.
  now rewrite hex4_value_escape.
Qed.

(** A code unit that is written as it stands. *)
Lemma parse_chars_plain (c : N) (rest : jsstring) :
  (c =? QUOTE) = false -> (c =? BACKSLASH) = false -> (c <? 32) = false ->
  parse_chars (c :: rest) = pmap (cons c) (parse_chars rest).
Proof. intros H1 H2 H3. cbn [parse_chars]. now rewrite H1, H2, H3. Qed.

Lemma surrogate_plain (c : N) :
  (is_high_surrogate c || is_low_surrogate c)%bool = true ->
  (c =? QUOTE) = false /\ (c =? BACKSLASH) = false /\ (c <? 32) = false
  /\ c < 65536.
Proof.
  unfold is_high_surrogate, is_low_surrogate, QUOTE, BACKSLASH. intros H.
  apply orb_true_iff in H as [H|H]; apply andb_true_iff in H as [H1 H2];
    apply N.leb_le in H1, H2;
    (repeat split; [apply N.eqb_neq | apply N.eqb_neq | apply N.ltb_ge | ]; lia).
Qed.

Lemma quote_chars_reads_back_bounded (n : nat) :
  forall s rest,
    (length s <= n)%nat ->
    parse_chars (quote_chars s ++ QUOTE :: rest) = POk s rest.
Proof.
  induction n as [|n IH]; intros s rest Hlen.
  - destruct s; [|simpl in Hlen; lia]. reflexivity.
  - destruct s as [|c r]; [reflexivity|].
    assert (Hr : forall rest', parse_chars (quote_chars r ++ QUOTE :: rest') = POk r rest').
    { intros rest'. apply IH. simpl in Hlen. lia. }
    cbn [quote_chars].
    destruct (N.eqb_spec c 8) as [->|H8];
      [cbn [app]; simpl parse_chars; now rewrite Hr|].
    destruct (N.eqb_spec c 9) as [->|H9];
      [cbn [app]; simpl parse_chars; now rewrite Hr|].
    destruct (N.eqb_spec c 10) as [->|H10];
      [cbn [app]; simpl parse_chars; now rewrite Hr|].
    destruct (N.eqb_spec c 12) as [->|H12];
      [cbn [app]; simpl parse_chars; now rewrite Hr|].
    destruct (N.eqb_spec c 13) as [->|H13];
      [cbn [app]; simpl parse_chars; now rewrite Hr|].
    destruct (N.eqb_spec c QUOTE) as [->|Hq];
      [cbn [app]; simpl parse_chars; now rewrite Hr|].
    destruct (N.eqb_spec c BACKSLASH) as [->|Hb];
      [cbn [app]; simpl parse_chars; now rewrite Hr|].
    apply N.eqb_neq in Hq, Hb.
    destruct (N.ltb_spec c 32) as [Hc|Hc].
    { rewrite <- app_assoc, parse_chars_unicode_escape by lia. now rewrite Hr. }
    assert ((c <? 32) = false) as Hc' by (apply N.ltb_ge; lia).
    destruct (is_high_surrogate c) eqn:Hh.
    { destruct (surrogate_plain c ltac:(now rewrite Hh)) as (_ & _ & _ & Hbound).
      destruct r as [|d r'].
      - rewrite parse_chars_unicode_escape by assumption. reflexivity.
      - destruct (is_low_surrogate d) eqn:Hl.
        + destruct (surrogate_plain d ltac:(rewrite Hl; apply orb_true_r))
            as (D1 & D2 & D3 & _).
          cbn [app]. rewrite (parse_chars_plain c _ Hq Hb Hc').
          rewrite (parse_chars_plain d _ D1 D2 D3).
          rewrite IH by (simpl in Hlen; lia). reflexivity.
        + rewrite <- app_assoc, parse_chars_unicode_escape by assumption.
          now rewrite Hr. }
    destruct (is_low_surrogate c) eqn:Hl.
    { destruct (surrogate_plain c ltac:(rewrite Hl; apply orb_true_r))
        as (_ & _ & _ & Hbound).
      rewrite <- app_assoc, parse_chars_unicode_escape by assumption.
      now rewrite Hr. }
    cbn [app]. rewrite (parse_chars_plain c _ Hq Hb Hc'). now rewrite Hr.
Qed.

(** Every string reads back from its quoted form. *)
Lemma quote_chars_reads_back (s rest : jsstring) :
  parse_chars (quote_chars s ++ QUOTE :: rest) = POk s rest.
Proof. now apply (quote_chars_reads_back_bounded (length s)). Qed.

End StringLiterals.

(** ** Number literals: what is printed reads back *)

Section NumberLiterals.

Local Open Scope N_scope.

Lemma strip_leading_zeros_head (ds : list N) :
  hd 0 ds <> 0 -> strip_leading_zeros ds = ds.
Proof.
  destruct ds as [|d ds]; simpl; [reflexivity|]. intros H.
  destruct (N.eqb_spec d 0); [contradiction|reflexivity].
Qed.

Lemma strip_leading_zeros_repeat (z : nat) (ds : list N) :
  hd 0 ds <> 0 -> strip_leading_zeros (repeat 0 z ++ ds) = ds.
Proof.
  intros H. induction z as [|z IH]; simpl.
  - now apply strip_leading_zeros_head.
  - assumption.
Qed.

Lemma rev_repeat (z : nat) (x : N) : rev (repeat x z) = repeat x z.
Proof.
  induction z as [|z IH]; simpl; [reflexivity|].
  rewrite IH. clear IH. induction z as [|z IH]; simpl; [reflexivity|].
  now rewrite IH.
Qed.

Lemma hd_rev_last (ds : list N) : hd 0 (rev ds) = last ds 0.
Proof.
  induction ds as [|d ds IH] using rev_ind; [reflexivity|].
  rewrite rev_app_distr, last_last. reflexivity.
Qed.

Lemma strip_trailing_zeros_repeat (j : nat) (ds : list N) :
  last ds 0 <> 0 -> strip_trailing_zeros (ds ++ repeat 0 j) = ds.
Proof.
  intros H. unfold strip_trailing_zeros.
  rewrite rev_app_distr, rev_repeat, strip_leading_zeros_repeat.
  - apply rev_involutive.
  - now rewrite hd_rev_last.
Qed.

(** A literal whose digits are those of a canonical significand, padded
    with zeros on either side, denotes that significand. *)
Lemma make_number_canonical (neg : bool) (ds int frac : list N) (n e : Z)
    (z j : nat) :
  digits_wf ds -> classify_magnitude ds n = Normal ->
  int ++ frac = repeat 0 z ++ ds ++ repeat 0 j ->
  (Z.of_nat (length int) + e - Z.of_nat z = n)%Z ->
  make_number neg int frac e = NFinite neg ds n.
Proof.
  intros (Hsmall & Hhd & Hlast) Hclass Hall Hpoint.
  unfold make_number. rewrite Hall.
  assert (hd 0 (ds ++ repeat 0 j) <> 0) as Hhd'.
  { destruct ds; [contradiction|assumption]. }
  rewrite (strip_leading_zeros_repeat z _ Hhd').
  rewrite (strip_trailing_zeros_repeat j _ Hlast).
  destruct ds as [|d ds]; [contradiction|].
  replace (length (repeat 0%N z ++ (d :: ds) ++ repeat 0%N j)
           - length ((d :: ds) ++ repeat 0%N j))%nat with z
    by (rewrite !length_app, repeat_length; lia).
  rewrite Hpoint, Hclass. reflexivity.
Qed.

Lemma delimited_no_digit (rest : jsstring) :
  delimited rest = true -> no_digit_head rest.
Proof.
  destruct rest as [|c r]; simpl; [trivial|]. intros H.
  apply orb_true_iff in H as [H|H]; [apply orb_true_iff in H as [H|H]|];
    apply N.eqb_eq in H; subst c; reflexivity.
Qed.

Lemma parse_frac_delimited (rest : jsstring) :
  delimited rest = true -> parse_frac rest = POk [] rest.
Proof.
  destruct rest as [|c r]; simpl; [reflexivity|]. intros H.
  apply orb_true_iff in H as [H|H]; [apply orb_true_iff in H as [H|H]|];
    apply N.eqb_eq in H; subst c; reflexivity.
Qed.

Lemma parse_exp_delimited (rest : jsstring) :
  delimited rest = true -> parse_exp rest = POk 0%Z rest.
Proof.
  destruct rest as [|c r]; simpl; [reflexivity|]. intros H.
  apply orb_true_iff in H as [H|H]; [apply orb_true_iff in H as [H|H]|];
    apply N.eqb_eq in H; subst c; reflexivity.
Qed.

(** A printed fraction reads back. *)
Lemma parse_frac_printed (ds : list N) (rest : jsstring) :
  Forall (fun d => d < 10) ds -> ds <> [] -> no_digit_head rest ->
  parse_frac (DOT :: map digit_code ds ++ rest) = POk ds rest.
Proof.
  intros Hds Hne Hrest. cbn [parse_frac].
  replace (DOT =? DOT) with true by reflexivity.
  rewrite take_digits_printed by assumption.
  destruct ds; [contradiction|reflexivity].
Qed.

Lemma parse_exp_digits_printed (neg : bool) (a : N) (rest : jsstring) :
  no_digit_head rest ->
  parse_exp_digits neg (N_to_string a ++ rest)
  = POk (if neg then (- Z.of_N a)%Z else Z.of_N a) rest.
Proof.
  intros Hrest. unfold parse_exp_digits, N_to_string.
  rewrite take_digits_printed by (auto using N_to_digits_small).
  rewrite N_to_digits_value.
  destruct (N_to_digits a) eqn:E; [|reflexivity].
  now apply N_to_digits_nonempty in E.
Qed.

(** A printed exponent reads back. *)
Lemma parse_exp_printed (e : Z) (rest : jsstring) :
  no_digit_head rest ->
  parse_exp (101 :: (if (e <? 0)%Z then MINUS else PLUS)
               :: N_to_string (Z.abs_N e) ++ rest)
  = POk e rest.
Proof.
  intros Hrest. cbn [parse_exp].
  replace ((101 =? 101) || (101 =? 69))%bool with true by reflexivity.
  destruct (Z.ltb_spec e 0).
  - replace (MINUS =? MINUS) with true by reflexivity.
    rewrite parse_exp_digits_printed by assumption.
    f_equal. rewrite N2Z.inj_abs_N. lia.
  - replace (PLUS =? MINUS) with false by reflexivity.
    replace (PLUS =? PLUS) with true by reflexivity.
    rewrite parse_exp_digits_printed by assumption.
    f_equal. rewrite N2Z.inj_abs_N. lia.
Qed.

End NumberLiterals.

Section PrintedNumbers.

Local Open Scope N_scope.

Lemma Forall_firstn_part (P : N -> Prop) (m : nat) (l : list N) :
  Forall P l -> Forall P (firstn m l).
Proof.
  revert l; induction m as [|m IH]; intros l H; [constructor|].
  destruct H; cbn [firstn]; constructor; auto.
Qed.

Lemma Forall_skipn_part (P : N -> Prop) (m : nat) (l : list N) :
  Forall P l -> Forall P (skipn m l).
Proof.
  revert l; induction m as [|m IH]; intros l H; [assumption|].
  destruct H; cbn [skipn]; [constructor|auto].
Qed.

Lemma parse_magnitude_digits (neg : bool) (d : N) (ds : list N) (s : jsstring) :
  d < 10 -> d <> 0 -> Forall (fun x => x < 10) ds -> no_digit_head s ->
  parse_magnitude neg (map digit_code (d :: ds) ++ s)
  = parse_fraction_exponent neg (d :: ds) s.
Proof.
  intros Hd Hnz Hds Hs. cbn [map app]. unfold parse_magnitude.
  rewrite (is_digit_code d Hd).
  replace (digit_code d =? ZERO) with false
    by (symmetry; apply N.eqb_neq; unfold digit_code, ZERO; lia).
  change (digit_code d :: map digit_code ds ++ s)
    with (map digit_code (d :: ds) ++ s).
  rewrite take_digits_printed; auto.
Qed.

Lemma parse_fraction_exponent_delimited (neg : bool) (int : list N) (rest : jsstring) :
  delimited rest = true ->
  parse_fraction_exponent neg int rest = POk (make_number neg int [] 0%Z) rest.
Proof.
  intros H. unfold parse_fraction_exponent.
  now rewrite parse_frac_delimited, parse_exp_delimited.
Qed.

(** The text that [Number::toString] gives for a finite non-zero number
    reads back as that number, in each of its four forms. *)
Lemma parse_magnitude_printed (neg : bool) (ds : list N) (n : Z) (rest : jsstring) :
  digits_wf ds -> classify_magnitude ds n = Normal -> delimited rest = true ->
  parse_magnitude neg (digits_to_string ds n ++ rest) = POk (NFinite neg ds n) rest.
Proof.
  intros Hwf Hclass Hrest.
  pose proof Hwf as (Hsmall & Hhd & Hlast).
  destruct ds as [|d ds']; [contradiction|]. cbn [hd] in Hhd.
  pose proof (Forall_inv Hsmall) as Hd. pose proof (Forall_inv_tail Hsmall) as Hds'.
  unfold digits_to_string.
  set (k := Z.of_nat (length (d :: ds'))).
  destruct ((k <=? n)%Z && (n <=? 21)%Z)%bool eqn:F1.
  - (* digits and zeros *)
    apply andb_true_iff in F1 as [F1 _]. apply Z.leb_le in F1.
    set (j := Z.to_nat (n - k)).
    replace (repeat ZERO j) with (map digit_code (repeat 0 j))
      by (rewrite map_repeat; reflexivity).
    rewrite <- map_app. change ((d :: ds') ++ repeat 0 j) with (d :: (ds' ++ repeat 0 j)).
    rewrite parse_magnitude_digits; auto using delimited_no_digit.
    + rewrite parse_fraction_exponent_delimited by assumption. f_equal.
      apply make_number_canonical with (z := 0%nat) (j := j); auto.
      * now rewrite app_nil_r.
      * cbn [length]. rewrite length_app, repeat_length. subst j k.
        cbn [length] in *. lia.
    + apply Forall_app. split; [assumption|].
      apply Forall_forall. intros x Hx. apply repeat_spec in Hx. subst x. lia.
  - destruct ((0 <? n)%Z && (n <=? 21)%Z)%bool eqn:F2.
    + (* digits, point, digits *)
      apply andb_true_iff in F2 as [F2 F2']. apply Z.ltb_lt in F2.
      assert (n < k)%Z as Hnk.
      { rewrite F2', andb_true_r in F1. now apply Z.leb_gt in F1. }
      destruct (Z.to_nat n) as [|m] eqn:Hm; [lia|].
      cbn [firstn skipn]. rewrite <- app_assoc.
      rewrite parse_magnitude_digits; auto.
      * unfold parse_fraction_exponent. cbn [app].
        assert (skipn m ds' <> []) as Hne.
        { intros E. apply (f_equal (@length N)) in E.
          rewrite length_skipn in E. subst k. cbn [length] in *. lia. }
        rewrite parse_frac_printed; auto using delimited_no_digit.
        -- rewrite parse_exp_delimited by assumption. f_equal.
           apply make_number_canonical with (z := 0%nat) (j := 0%nat); auto.
           ++ cbn [repeat app]. rewrite app_nil_r. cbn [app].
              now rewrite firstn_skipn.
           ++ cbn [length]. rewrite length_firstn. subst k. cbn [length] in *. lia.
        -- now apply Forall_skipn_part.
      * now apply Forall_firstn_part.
      * reflexivity.
    + destruct ((-6 <? n)%Z && (n <=? 0)%Z)%bool eqn:F3.
      * (* zero, point, zeros, digits *)
        apply andb_true_iff in F3 as [_ F3]. apply Z.leb_le in F3.
        set (z := Z.to_nat (- n)).
        cbn [app]. unfold parse_magnitude.
        replace (is_digit ZERO) with true by reflexivity.
        replace (ZERO =? ZERO) with true by reflexivity.
        replace (repeat ZERO z) with (map digit_code (repeat 0 z))
          by (rewrite map_repeat; reflexivity).
        replace (DOT :: (map digit_code (repeat 0 z) ++ map digit_code (d :: ds')) ++ rest)
          with (DOT :: map digit_code (repeat 0 z ++ d :: ds') ++ rest)
          by now rewrite map_app.
        unfold parse_fraction_exponent.
        rewrite parse_frac_printed; auto using delimited_no_digit.
        -- rewrite parse_exp_delimited by assumption. f_equal.
           apply make_number_canonical with (z := S z) (j := 0%nat); auto.
           ++ cbn [repeat app]. now rewrite app_nil_r.
           ++ cbn [length]. subst z. lia.
        -- apply Forall_app. split; [|assumption].
           apply Forall_forall. intros x Hx. apply repeat_spec in Hx. subst x. lia.
        -- destruct (repeat 0 z); discriminate.
      * (* exponent form *)
        assert (no_digit_head
                  (101 :: (if (n - 1 <? 0)%Z then MINUS else PLUS)
                     :: N_to_string (Z.abs_N (n - 1)) ++ rest)) as He
          by reflexivity.
        destruct ds' as [|d2 ds''].
        -- cbn [app].
           match goal with
           | |- parse_magnitude _ ?t = _ =>
               change t with (map digit_code [d] ++
                                101 :: (if (n - 1 <? 0)%Z then MINUS else PLUS)
                                :: N_to_string (Z.abs_N (n - 1)) ++ rest)
           end.
           rewrite parse_magnitude_digits; auto.
           unfold parse_fraction_exponent.
           replace (parse_frac (101 :: (if (n - 1 <? 0)%Z then MINUS else PLUS)
                                  :: N_to_string (Z.abs_N (n - 1)) ++ rest))
             with (POk (@nil N) (101 :: (if (n - 1 <? 0)%Z then MINUS else PLUS)
                                  :: N_to_string (Z.abs_N (n - 1)) ++ rest))
             by reflexivity.
           rewrite parse_exp_printed by auto using delimited_no_digit.
           f_equal.
           apply make_number_canonical with (z := 0%nat) (j := 0%nat); auto.
           cbn [length]. lia.
        -- rewrite <- app_assoc. cbn [app].
           match goal with
           | |- parse_magnitude _ ?t = _ =>
               change t with (map digit_code [d] ++
                                DOT :: map digit_code (d2 :: ds'')
                                ++ 101 :: (if (n - 1 <? 0)%Z then MINUS else PLUS)
                                :: N_to_string (Z.abs_N (n - 1)) ++ rest)
           end.
           rewrite parse_magnitude_digits; auto; try reflexivity.
           unfold parse_fraction_exponent.
           rewrite parse_frac_printed; auto; try discriminate.
           rewrite parse_exp_printed by auto using delimited_no_digit.
           f_equal.
           apply make_number_canonical with (z := 0%nat) (j := 0%nat); auto.
           ++ cbn [repeat app]. now rewrite app_nil_r.
           ++ cbn [length]. lia.
Qed.

End PrintedNumbers.

(** ** Values: what [JSON.stringify] writes, [JSON.parse] reads back *)

Section Values.

Local Open Scope N_scope.

Lemma json_induction (P : json -> Prop) :
  P JNull -> (forall b, P (JBool b)) -> (forall x, P (JNumber x)) ->
  (forall s, P (JString s)) ->
  (forall items, Forall P items -> P (JArray items)) ->
  (forall props, Forall (fun kv => P (snd kv)) props -> P (JObject props)) ->
  forall v, P v.
Proof.
  intros Hnull Hbool Hnum Hstr Harr Hobj.
  refine (fix IH (v : json) : P v :=
            match v with
            | JNull => Hnull
            | JBool b => Hbool b
            | JNumber x => Hnum x
            | JString s => Hstr s
            | JArray items =>
                Harr items
                  ((fix all (l : list json) : Forall P l :=
                      match l with
                      | [] => Forall_nil P
                      | x :: r => Forall_cons x (IH x) (all r)
                      end) items)
            | JObject props =>
                Hobj props
                  ((fix all (l : list (jsstring * json))
                      : Forall (fun kv => P (snd kv)) l :=
                      match l with
                      | [] => Forall_nil _
                      | kv :: r => Forall_cons kv (IH (snd kv)) (all r)
                      end) props)
            end).
Qed.

Lemma stringify_array (items : list json) :
  stringify (JArray items) = LBRACKET :: stringify_elements items ++ [RBRACKET].
Proof.
  cbn [stringify]. do 2 f_equal.
Qed.

Lemma stringify_object (props : list (jsstring * json)) :
  stringify (JObject props) = LBRACE :: stringify_members props ++ [RBRACE].
Proof.
  cbn [stringify]. do 2 f_equal.
Qed.

Lemma digits_to_string_head (ds : list N) (n : Z) :
  digits_wf ds ->
  exists c t, digits_to_string ds n = c :: t /\ is_digit c = true.
Proof.
  intros (Hsmall & Hhd & _).
  destruct ds as [|d ds]; [contradiction|].
  pose proof (is_digit_code d (Forall_inv Hsmall)) as Hd.
  unfold digits_to_string.
  destruct ((Z.of_nat (length (d :: ds)) <=? n)%Z && (n <=? 21)%Z)%bool.
  { cbn [map app]. eauto. }
  destruct ((0 <? n)%Z && (n <=? 21)%Z)%bool eqn:F2.
  { apply andb_true_iff in F2 as [F2 _]. apply Z.ltb_lt in F2.
    destruct (Z.to_nat n) eqn:E; [lia|]. cbn [firstn map app]. eauto. }
  destruct ((-6 <? n)%Z && (n <=? 0)%Z)%bool.
  { exists ZERO. eexists. split; reflexivity. }
  destruct ds; cbn [app]; eauto.
Qed.

(** A number that is not infinite reads back from its JSON text, up to the
    sign of zero. *)
Lemma number_reads_back (x : number) (rest : jsstring) :
  number_wf x -> (forall neg, x <> NInfinity neg) -> delimited rest = true ->
  parse_number (number_to_json x ++ rest) = POk (unsigned_number x) rest.
Proof.
  intros Hwf Hfin Hrest. destruct x as [neg|neg ds n|neg].
  - cbn [number_to_json app parse_number unsigned_number].
    replace (ZERO =? MINUS) with false by reflexivity.
    unfold parse_magnitude.
    replace (is_digit ZERO) with true by reflexivity.
    replace (ZERO =? ZERO) with true by reflexivity.
    now rewrite parse_fraction_exponent_delimited.
  - destruct Hwf as [Hds Hclass]. cbn [number_to_json unsigned_number].
    destruct neg.
    + cbn [app parse_number]. replace (MINUS =? MINUS) with true by reflexivity.
      now apply parse_magnitude_printed.
    + destruct (digits_to_string_head ds n Hds) as (c & t & E & Hc).
      pose proof (parse_magnitude_printed false ds n rest Hds Hclass Hrest) as H.
      rewrite E in *. cbn [app parse_number] in *.
      destruct (N.eqb_spec c MINUS) as [->|_]; [discriminate Hc|exact H].
  - exfalso. now apply (Hfin neg).
Qed.

Lemma number_to_json_head (x : number) :
  number_wf x -> (forall neg, x <> NInfinity neg) ->
  exists c t, number_to_json x = c :: t /\ (N.eqb c MINUS || is_digit c)%bool = true.
Proof.
  intros Hwf Hfin. destruct x as [neg|neg ds n|neg].
  - exists ZERO, []. split; reflexivity.
  - destruct Hwf as [Hds _]. cbn [number_to_json].
    destruct neg.
    + exists MINUS. eexists. split; reflexivity.
    + destruct (digits_to_string_head ds n Hds) as (c & t & E & Hc).
      exists c, t. split; [assumption|]. rewrite Hc. apply orb_true_r.
  - exfalso. now apply (Hfin neg).
Qed.

Lemma starts_value_not_ws (c : N) :
  starts_value c = true -> is_json_ws c = false.
Proof.
  intros H. unfold is_json_ws.
  destruct (N.eqb_spec c 32) as [->|_]; [discriminate H|].
  destruct (N.eqb_spec c 9) as [->|_]; [discriminate H|].
  destruct (N.eqb_spec c 10) as [->|_]; [discriminate H|].
  destruct (N.eqb_spec c 13) as [->|_]; [discriminate H|].
  reflexivity.
Qed.

Lemma skip_ws_value (c : N) (r : jsstring) :
  starts_value c = true -> skip_ws (c :: r) = c :: r.
Proof. intros H. cbn [skip_ws]. now rewrite (starts_value_not_ws c H). Qed.

Lemma skip_ws_delimited (rest : jsstring) :
  delimited rest = true -> skip_ws rest = rest.
Proof.
  destruct rest as [|c r]; [reflexivity|]. cbn [delimited skip_ws]. intros H.
  replace (is_json_ws c) with false; [reflexivity|].
  apply orb_true_iff in H as [H|H]; [apply orb_true_iff in H as [H|H]|];
    apply N.eqb_eq in H; subst c; reflexivity.
Qed.

(** The first code unit of the text of a value. *)
Lemma stringify_head (v : json) :
  json_wf v -> finite_numbers v = true ->
  exists c t, stringify v = c :: t /\ starts_value c = true.
Proof.
  intros Hwf Hfin. destruct v as [|b|x| | |].
  - exists 110, (lit "ull"). split; reflexivity.
  - destruct b; [exists 116, (lit "rue") | exists 102, (lit "alse")];
      split; reflexivity.
  - inversion Hwf as [| |x' Hx| | |]; subst.
    destruct (number_to_json_head x Hx) as (c & t & E & Hc).
    { intros neg ->. discriminate Hfin. }
    exists c, t. split; [exact E|].
    unfold starts_value. apply orb_true_iff in Hc as [Hc|Hc]; rewrite Hc;
      rewrite ?orb_true_r; reflexivity.
  - eexists QUOTE, _. split; reflexivity.
  - rewrite stringify_array. eexists LBRACKET, _. split; reflexivity.
  - rewrite stringify_object. eexists LBRACE, _. split; reflexivity.
Qed.

End Values.

(** ** Objects: ordered property lists *)

Section Objects.

Lemma has_key_false (k : jsstring) (props : list (jsstring * json)) :
  forallb (fun kv => negb (str_eqb (fst kv) k)) props = true ->
  has_key k props = false.
Proof.
  induction props as [|[k' v'] rest IH]; cbn [forallb has_key fst]; intros H.
  - reflexivity.
  - apply andb_true_iff in H as [H1 H2]. apply negb_true_iff in H1.
    now rewrite H1, IH.
Qed.

Lemma insert_key_end (k : jsstring) (v : json) (props : list (jsstring * json)) :
  forallb (fun kv => negb (key_before k (fst kv))) props = true ->
  insert_key k v props = props ++ [(k, v)].
Proof.
  induction props as [|[k' v'] rest IH]; cbn [forallb insert_key fst app]; intros H.
  - reflexivity.
  - apply andb_true_iff in H as [H1 H2]. apply negb_true_iff in H1.
    now rewrite H1, IH.
Qed.

Lemma props_ordered_snoc (props : list (jsstring * json)) (k : jsstring) (v : json) :
  props_ordered (props ++ [(k, v)]) = true ->
  props_ordered props = true /\
  forallb (fun kv => may_follow (fst kv) k) props = true.
Proof.
  induction props as [|[k' v'] rest IH]; cbn [app props_ordered forallb fst]; intros H.
  - now split.
  - apply andb_true_iff in H as [H1 H2].
    rewrite forallb_app in H1. apply andb_true_iff in H1 as [H1 H3].
    cbn [forallb fst] in H3. rewrite andb_true_r in H3.
    destruct (IH H2) as [IH1 IH2]. now rewrite H1, IH1, H3, IH2.
Qed.

(** A property that may follow all the others is added at the end. *)
Lemma obj_set_end (k : jsstring) (v : json) (props : list (jsstring * json)) :
  props_ordered (props ++ [(k, v)]) = true ->
  obj_set k v props = props ++ [(k, v)].
Proof.
  intros H. apply props_ordered_snoc in H as [_ H]. unfold obj_set.
  rewrite has_key_false, insert_key_end; auto.
  - apply forallb_forall. intros kv Hkv.
    apply (proj1 (forallb_forall _ _) H) in Hkv.
    unfold may_follow in Hkv. now apply andb_true_iff in Hkv as [_ Hkv].
  - apply forallb_forall. intros kv Hkv.
    apply (proj1 (forallb_forall _ _) H) in Hkv.
    unfold may_follow in Hkv. now apply andb_true_iff in Hkv as [Hkv _].
Qed.

Lemma props_ordered_prefix (a b : list (jsstring * json)) :
  props_ordered (a ++ b) = true -> props_ordered a = true.
Proof.
  induction a as [|[k v] a IH]; cbn [app props_ordered]; intros H.
  - reflexivity.
  - apply andb_true_iff in H as [H1 H2]. rewrite forallb_app in H1.
    apply andb_true_iff in H1 as [H1 _]. now rewrite H1, IH.
Qed.

(** Re-creating the properties of an ordered list in order gives the list. *)
Lemma fold_obj_set_ordered (q acc : list (jsstring * json)) :
  props_ordered (acc ++ q) = true ->
  fold_left (fun a kv => obj_set (fst kv) (snd kv) a) q acc = acc ++ q.
Proof.
  revert acc; induction q as [|[k v] q IH]; intros acc H; cbn [fold_left fst snd].
  - now rewrite app_nil_r.
  - rewrite obj_set_end.
    + rewrite IH; rewrite <- app_assoc; [reflexivity|exact H].
    + apply props_ordered_prefix with (b := q). now rewrite <- app_assoc.
Qed.

Lemma props_ordered_map (f : json -> json) (props : list (jsstring * json)) :
  props_ordered (map (fun kv : jsstring * json => let (k, x) := kv in (k, f x)) props)
  = props_ordered props.
Proof.
  induction props as [|[k v] rest IH]; cbn [map props_ordered]; [reflexivity|].
  rewrite IH. f_equal. clear IH.
  induction rest as [|[k' v'] rest IH]; cbn [map forallb fst]; [reflexivity|].
  now rewrite IH.
Qed.

End Objects.

Section ReadingBack.

Local Open Scope N_scope.

Lemma parse_value_number (f : nat) (c : N) (r : jsstring) :
  (N.eqb c MINUS || is_digit c)%bool = true ->
  parse_value (S f) (c :: r) = pmap JNumber (parse_number (c :: r)).
Proof.
  intros H. cbn [parse_value].
  assert (starts_value c = true) as Hs.
  { unfold starts_value. apply orb_true_iff in H as [H|H]; rewrite H;
      rewrite ?orb_true_r; reflexivity. }
  rewrite (skip_ws_value c r Hs).
  destruct (N.eqb_spec c LBRACE) as [->|_]; [discriminate H|].
  destruct (N.eqb_spec c LBRACKET) as [->|_]; [discriminate H|].
  destruct (N.eqb_spec c QUOTE) as [->|_]; [discriminate H|].
  now rewrite H.
Qed.

Lemma parse_value_array (f : nat) (c : N) (r : jsstring) :
  starts_value c = true ->
  parse_value (S f) (LBRACKET :: c :: r) = parse_elements f (c :: r) [].
Proof.
  intros H. cbn [parse_value].
  change (skip_ws (LBRACKET :: c :: r)) with (LBRACKET :: c :: r).
  cbv beta iota.
  replace (LBRACKET =? LBRACE) with false by reflexivity.
  replace (LBRACKET =? LBRACKET) with true by reflexivity.
  rewrite (skip_ws_value c r H).
  destruct (N.eqb_spec c RBRACKET) as [->|_]; [discriminate H|reflexivity].
Qed.

Lemma parse_elements_step (f : nat) (s r : jsstring) (acc : list json) (v : json) :
  parse_value f s = POk v r ->
  parse_elements (S f) s acc
  = match skip_ws r with
    | [] => PFail []
    | c :: r2 =>
        if c =? COMMA then parse_elements f r2 (acc ++ [v])
        else if c =? RBRACKET then POk (JArray (acc ++ [v])) r2
        else PFail (c :: r2)
    end.
Proof. intros H. cbn [parse_elements]. now rewrite H. Qed.

Lemma parse_members_step (f : nat) (r r2 r3 : jsstring)
    (acc : list (jsstring * json)) (k : jsstring) (v : json) :
  parse_chars r = POk k (COLON :: r2) ->
  parse_value f r2 = POk v r3 ->
  parse_members (S f) (QUOTE :: r) acc
  = match skip_ws r3 with
    | [] => PFail []
    | c3 :: r4 =>
        if c3 =? COMMA then parse_members f r4 (obj_set k v acc)
        else if c3 =? RBRACE then POk (JObject (obj_set k v acc)) r4
        else PFail (c3 :: r4)
    end.
Proof.
  intros Hk Hv. cbn [parse_members].
  change (skip_ws (QUOTE :: r)) with (QUOTE :: r).
  cbv beta iota.
  replace (QUOTE =? QUOTE) with true by reflexivity.
  rewrite Hk. change (skip_ws (COLON :: r2)) with (COLON :: r2).
  cbv beta iota.
  replace (COLON =? COLON) with true by reflexivity.
  now rewrite Hv.
Qed.

Lemma stringify_nonempty (v : json) :
  json_wf v -> finite_numbers v = true -> (1 <= length (stringify v))%nat.
Proof.
  intros Hwf Hfin. destruct (stringify_head v Hwf Hfin) as (c & t & -> & _).
  cbn [length]. lia.
Qed.

Lemma elements_read_back (items : list json) :
  Forall reads_back items -> Forall json_wf items ->
  forallb finite_numbers items = true -> items <> [] ->
  forall f rest acc,
    (length (stringify_elements items) < f)%nat ->
    parse_elements f (stringify_elements items ++ RBRACKET :: rest) acc
    = POk (JArray (acc ++ map unsigned_zeros items)) rest.
Proof.
  induction items as [|x l IH]; intros HP Hwf Hfin Hne f rest acc Hf;
    [contradiction|].
  pose proof (Forall_inv HP) as Px. pose proof (Forall_inv Hwf) as Wx.
  cbn [forallb] in Hfin. apply andb_true_iff in Hfin as [Fx Fl].
  pose proof (stringify_nonempty x Wx Fx) as Lx.
  destruct f as [|f]; [lia|].
  cbn [stringify_elements] in *. rewrite length_app in Hf.
  destruct l as [|y l'].
  - rewrite app_nil_r in *. cbn [length] in Hf.
    rewrite (parse_elements_step f _ (RBRACKET :: rest) acc (unsigned_zeros x)).
    + reflexivity.
    + apply Px; auto. lia.
  - rewrite <- app_assoc. cbn [app]. cbn [length] in Hf.
    rewrite (parse_elements_step f _
               (COMMA :: stringify_elements (y :: l') ++ RBRACKET :: rest)
               acc (unsigned_zeros x)).
    + change (skip_ws (COMMA :: stringify_elements (y :: l') ++ RBRACKET :: rest))
        with (COMMA :: stringify_elements (y :: l') ++ RBRACKET :: rest).
      cbv beta iota.
      replace (COMMA =? COMMA) with true by reflexivity.
      rewrite IH; auto.
      * cbn [map]. now rewrite <- app_assoc.
      * now apply Forall_inv_tail in HP.
      * now apply Forall_inv_tail in Hwf.
      * discriminate.
      * lia.
    + apply Px; auto. lia.
Qed.

Lemma members_read_back (props : list (jsstring * json)) :
  Forall (fun kv => reads_back (snd kv)) props ->
  Forall (fun kv => json_wf (snd kv)) props ->
  forallb (fun kv : jsstring * json => let (k, x) := kv in finite_numbers x) props = true ->
  props <> [] ->
  forall f rest acc,
    (length (stringify_members props) < f)%nat ->
    parse_members f (stringify_members props ++ RBRACE :: rest) acc
    = POk (JObject
             (fold_left (fun a kv => obj_set (fst kv) (unsigned_zeros (snd kv)) a)
                props acc)) rest.
Proof.
  induction props as [|[k x] l IH]; intros HP Hwf Hfin Hne f rest acc Hf;
    [contradiction|].
  pose proof (Forall_inv HP) as Px. pose proof (Forall_inv Hwf) as Wx.
  cbn [snd] in Px, Wx.
  cbn [forallb] in Hfin. apply andb_true_iff in Hfin as [Fx Fl].
  pose proof (stringify_nonempty x Wx Fx) as Lx.
  destruct f as [|f]; [lia|].
  cbn [stringify_members fold_left fst snd] in *.
  unfold quote in *. cbn [app length] in Hf. rewrite !length_app in Hf.
  cbn [length] in Hf. rewrite length_app in Hf.
  destruct l as [|[k2 y] l'].
  - rewrite app_nil_r in *. cbn [fold_left].
    replace (((QUOTE :: quote_chars k ++ [QUOTE]) ++ COLON :: stringify x)
               ++ RBRACE :: rest)
      with (QUOTE :: (quote_chars k ++ QUOTE :: COLON :: stringify x ++ RBRACE :: rest))
      by (cbn [app]; rewrite <- !app_assoc; reflexivity).
    rewrite (parse_members_step f _ (stringify x ++ RBRACE :: rest)
               (RBRACE :: rest) acc k (unsigned_zeros x)).
    + reflexivity.
    + apply quote_chars_reads_back.
    + apply Px; auto. lia.
  - replace (((QUOTE :: quote_chars k ++ [QUOTE]) ++ COLON :: stringify x
                ++ COMMA :: stringify_members ((k2, y) :: l')) ++ RBRACE :: rest)
      with (QUOTE :: (quote_chars k ++ QUOTE :: COLON :: stringify x
                        ++ COMMA :: stringify_members ((k2, y) :: l') ++ RBRACE :: rest))
      by (cbn [app]; rewrite <- !app_assoc; cbn [app]; rewrite <- !app_assoc; reflexivity).
    rewrite (parse_members_step f _
               (stringify x ++ COMMA :: stringify_members ((k2, y) :: l') ++ RBRACE :: rest)
               (COMMA :: stringify_members ((k2, y) :: l') ++ RBRACE :: rest)
               acc k (unsigned_zeros x)).
    + change (skip_ws (COMMA :: stringify_members ((k2, y) :: l') ++ RBRACE :: rest))
        with (COMMA :: stringify_members ((k2, y) :: l') ++ RBRACE :: rest).
      cbv beta iota.
      replace (COMMA =? COMMA) with true by reflexivity.
      rewrite IH; auto.
      * now apply Forall_inv_tail in HP.
      * now apply Forall_inv_tail in Hwf.
      * discriminate.
      * cbn [length] in Hf. lia.
    + apply quote_chars_reads_back.
    + apply Px; auto. cbn [length] in Hf. lia.
Qed.

End ReadingBack.

Section ReadingBackValues.

Local Open Scope N_scope.

Lemma fold_obj_set_unsigned (props acc : list (jsstring * json)) :
  fold_left (fun a kv => obj_set (fst kv) (unsigned_zeros (snd kv)) a) props acc
  = fold_left (fun a kv => obj_set (fst kv) (snd kv) a)
      (map (fun kv : jsstring * json => let (k, x) := kv in (k, unsigned_zeros x)) props)
      acc.
Proof.
  revert acc; induction props as [|[k x] l IH]; intros acc; cbn [fold_left map fst snd].
  - reflexivity.
  - apply IH.
Qed.

Lemma json_wf_array (items : list json) :
  json_wf (JArray items) -> Forall json_wf items.
Proof. intros H. now inversion H. Qed.

Lemma json_wf_object (props : list (jsstring * json)) :
  json_wf (JObject props) ->
  props_ordered props = true /\ Forall (fun kv => json_wf (snd kv)) props.
Proof. intros H. now inversion H. Qed.

(** Every value reads back from its text. *)
Lemma all_read_back (v : json) : reads_back v.
Proof.
  induction v as [|b|x|s|items IH|props IH] using json_induction;
    intros Hwf Hfin fuel rest Hfuel Hrest;
    pose proof (stringify_nonempty _ Hwf Hfin) as Hlen;
    (destruct fuel as [|f]; [lia|]).
  - reflexivity.
  - destruct b; reflexivity.
  - inversion Hwf as [| |x' Hx| | |]; subst.
    assert (forall neg, x <> NInfinity neg) as Hx'
      by (intros neg ->; discriminate Hfin).
    destruct (number_to_json_head x Hx Hx') as (c & t & E & Hc).
    cbn [stringify unsigned_zeros] in *.
    rewrite E. cbn [app]. rewrite parse_value_number by assumption.
    change (c :: t ++ rest) with ((c :: t) ++ rest). rewrite <- E.
    now rewrite number_reads_back.
  - cbn [stringify unsigned_zeros] in *. unfold quote in *.
    replace ((QUOTE :: quote_chars s ++ [QUOTE]) ++ rest)
      with (QUOTE :: (quote_chars s ++ QUOTE :: rest))
      by (cbn [app]; rewrite <- app_assoc; reflexivity).
    change (parse_value (S f) (QUOTE :: (quote_chars s ++ QUOTE :: rest)))
      with (pmap JString (parse_chars (quote_chars s ++ QUOTE :: rest))).
    now rewrite quote_chars_reads_back.
  - rewrite stringify_array in *. cbn [unsigned_zeros].
    destruct items as [|x l]; [reflexivity|].
    pose proof (json_wf_array _ Hwf) as Hwfs.
    cbn [finite_numbers] in Hfin.
    assert (exists c r, stringify_elements (x :: l) ++ RBRACKET :: rest = c :: r
                        /\ starts_value c = true) as (c & r & E & Hc).
    { pose proof (Forall_inv Hwfs) as Wx.
      cbn [forallb] in Hfin. apply andb_true_iff in Hfin as [Fx _].
      destruct (stringify_head x Wx Fx) as (c & t & E & Hc).
      cbn [stringify_elements]. rewrite E. cbn [app]. eauto. }
    replace ((LBRACKET :: stringify_elements (x :: l) ++ [RBRACKET]) ++ rest)
      with (LBRACKET :: (stringify_elements (x :: l) ++ RBRACKET :: rest))
      by (cbn [app]; rewrite <- app_assoc; reflexivity).
    rewrite E, parse_value_array, <- E by assumption.
    rewrite elements_read_back; auto; [discriminate|].
    cbn [length] in Hfuel. rewrite length_app in Hfuel. cbn [length] in Hfuel. lia.
  - rewrite stringify_object in *. cbn [unsigned_zeros].
    destruct props as [|[k x] l]; [reflexivity|].
    destruct (json_wf_object _ Hwf) as [Hord Hwfs].
    cbn [finite_numbers] in Hfin.
    replace ((LBRACE :: stringify_members ((k, x) :: l) ++ [RBRACE]) ++ rest)
      with (LBRACE :: (stringify_members ((k, x) :: l) ++ RBRACE :: rest))
      by (cbn [app]; rewrite <- app_assoc; reflexivity).
    assert (exists r, stringify_members ((k, x) :: l) ++ RBRACE :: rest = QUOTE :: r)
      as (r & E).
    { cbn [stringify_members]. unfold quote. cbn [app]. eauto. }
    rewrite E.
    change (parse_value (S f) (LBRACE :: QUOTE :: r))
      with (parse_members f (QUOTE :: r) []).
    rewrite <- E.
    rewrite members_read_back; auto; [|discriminate|].
    + rewrite fold_obj_set_unsigned, fold_obj_set_ordered; [reflexivity|].
      cbn [app]. now rewrite props_ordered_map.
    + cbn [length] in Hfuel. rewrite length_app in Hfuel. cbn [length] in Hfuel. lia.
Qed.

(** [JSON.parse(JSON.stringify(v))] is [v], up to the sign of zeros, for a
    value without infinities that [JSON.parse] built. *)
Lemma JSON_parse_stringify (v : json) :
  json_wf v -> finite_numbers v = true ->
  JSON_parse (stringify v) = inl (unsigned_zeros v).
Proof.
  intros Hwf Hfin. unfold JSON_parse.
  rewrite <- (app_nil_r (stringify v)) at 2.
  rewrite (all_read_back v Hwf Hfin); [reflexivity|lia|reflexivity].
Qed.

End ReadingBackValues.

(** ** What [JSON.parse] returns is well formed *)

Section ParsedNumbers.

Local Open Scope N_scope.

Lemma strip_leading_zeros_split (l : list N) :
  exists j, l = repeat 0 j ++ strip_leading_zeros l.
Proof.
  induction l as [|d l [j IH]]; cbn [strip_leading_zeros].
  - now exists 0%nat.
  - destruct (N.eqb_spec d 0) as [->|_].
    + exists (S j). cbn [repeat app]. now rewrite <- IH.
    + now exists 0%nat.
Qed.

Lemma strip_leading_zeros_hd (l : list N) :
  strip_leading_zeros l <> [] -> hd 0 (strip_leading_zeros l) <> 0.
Proof.
  induction l as [|d l IH]; cbn [strip_leading_zeros]; [congruence|].
  destruct (N.eqb_spec d 0); [assumption|]. now cbn [hd].
Qed.

Lemma strip_trailing_zeros_split (l : list N) :
  exists j, l = strip_trailing_zeros l ++ repeat 0 j.
Proof.
  unfold strip_trailing_zeros.
  destruct (strip_leading_zeros_split (rev l)) as [j E]. exists j.
  rewrite <- (rev_involutive l) at 1. rewrite E at 1.
  now rewrite rev_app_distr, rev_repeat.
Qed.

Lemma strip_trailing_zeros_last (l : list N) :
  strip_trailing_zeros l <> [] -> last (strip_trailing_zeros l) 0 <> 0.
Proof.
  unfold strip_trailing_zeros. intros H.
  rewrite <- hd_rev_last, rev_involutive.
  apply strip_leading_zeros_hd. intros E. apply H. now rewrite E.
Qed.

Lemma Forall_app_left (P : N -> Prop) (a b : list N) :
  Forall P (a ++ b) -> Forall P a.
Proof. intros H. now apply Forall_app in H. Qed.

Lemma Forall_app_right (P : N -> Prop) (a b : list N) :
  Forall P (a ++ b) -> Forall P b.
Proof. intros H. now apply Forall_app in H. Qed.

(** The Number made from the digits of a literal is well formed. *)
Lemma make_number_wf (neg : bool) (int frac : list N) (e : Z) :
  Forall (fun d => d < 10) int -> Forall (fun d => d < 10) frac ->
  number_wf (make_number neg int frac e).
Proof.
  intros Hint Hfrac. unfold make_number.
  assert (Forall (fun d => d < 10) (int ++ frac)) as Hall
    by (apply Forall_app; now split).
  set (all := int ++ frac) in *.
  set (lead := strip_leading_zeros all).
  destruct (strip_trailing_zeros lead) as [|d ds] eqn:E; [exact I|].
  match goal with
  | |- number_wf (match ?c with _ => _ end) => destruct c eqn:Hclass
  end; try exact I.
  split; [|exact Hclass]. rewrite <- E.
  assert (strip_trailing_zeros lead <> []) as Hne by (rewrite E; discriminate).
  destruct (strip_leading_zeros_split all) as [z Hz].
  destruct (strip_trailing_zeros_split lead) as [j Hj].
  fold lead in Hz.
  repeat split.
  - apply Forall_app_left with (b := repeat 0 j). rewrite <- Hj.
    apply Forall_app_right with (a := repeat 0 z). now rewrite <- Hz.
  - assert (lead <> []) as Hlead.
    { intros El. apply Hne. now rewrite El. }
    pose proof (strip_leading_zeros_hd all Hlead) as Hhd. fold lead in Hhd.
    rewrite Hj in Hhd. rewrite E in *. exact Hhd.
  - now apply strip_trailing_zeros_last.
Qed.

Lemma parse_frac_small (s : jsstring) (ds : list N) (r : jsstring) :
  parse_frac s = POk ds r -> Forall (fun d => d < 10) ds.
Proof.
  destruct s as [|c s]; cbn [parse_frac].
  - intros [= <- <-]. constructor.
  - destruct (c =? DOT).
    + pose proof (take_digits_small s) as H.
      destruct (take_digits s) as [[|d l] rest]; [discriminate|].
      now intros [= <- <-].
    + intros [= <- <-]. constructor.
Qed.

Lemma parse_fraction_exponent_wf (neg : bool) (int : list N) (s r : jsstring)
    (x : number) :
  Forall (fun d => d < 10) int ->
  parse_fraction_exponent neg int s = POk x r -> number_wf x.
Proof.
  intros Hint. unfold parse_fraction_exponent.
  destruct (parse_frac s) as [frac s3| |] eqn:Ef; try discriminate.
  destruct (parse_exp s3) as [e s4| |]; try discriminate.
  intros [= <- <-]. apply make_number_wf; [assumption|].
  now apply (parse_frac_small s frac s3).
Qed.

Lemma parse_magnitude_wf (neg : bool) (s r : jsstring) (x : number) :
  parse_magnitude neg s = POk x r -> number_wf x.
Proof.
  destruct s as [|c s]; cbn [parse_magnitude]; [discriminate|].
  destruct (is_digit c); [|discriminate].
  destruct (c =? ZERO).
  - apply parse_fraction_exponent_wf. repeat constructor.
  - pose proof (take_digits_small (c :: s)) as H.
    destruct (take_digits (c :: s)) as [int s2].
    now apply parse_fraction_exponent_wf.
Qed.

Lemma parse_number_wf (s r : jsstring) (x : number) :
  parse_number s = POk x r -> number_wf x.
Proof.
  destruct s as [|c s]; cbn [parse_number]; [discriminate|].
  destruct (c =? MINUS); apply parse_magnitude_wf.
Qed.

End ParsedNumbers.

Section ParsedObjects.

Local Open Scope N_scope.

Lemma str_eqb_sym (a b : jsstring) : str_eqb a b = str_eqb b a.
Proof.
  destruct (str_eqb a b) eqn:E.
  - apply str_eqb_eq in E. subst. symmetry. apply str_eqb_refl.
  - apply str_eqb_neq in E. symmetry. apply str_eqb_neq. congruence.
Qed.

Lemma key_before_asym (a b : jsstring) :
  key_before a b = true -> key_before b a = false.
Proof.
  unfold key_before.
  destruct (array_index a) as [i|], (array_index b) as [j|]; try congruence.
  intros H. apply N.ltb_lt in H. apply N.ltb_ge. lia.
Qed.

(** If a new key [k] goes before [k0], whatever may follow [k0] would not go
    before [k]. *)
Lemma key_before_blocks (k k0 x : jsstring) :
  key_before k k0 = true -> key_before x k0 = false -> key_before x k = false.
Proof.
  unfold key_before.
  destruct (array_index k) as [i|], (array_index k0) as [j|],
    (array_index x) as [m|]; try congruence.
  intros H1 H2. apply N.ltb_lt in H1. apply N.ltb_ge in H2. apply N.ltb_ge. lia.
Qed.

Lemma forallb_replace_value (P : jsstring -> bool) (k : jsstring) (v : json)
    (props : list (jsstring * json)) :
  forallb (fun kv => P (fst kv)) (replace_value k v props)
  = forallb (fun kv => P (fst kv)) props.
Proof.
  induction props as [|[k' v'] rest IH]; cbn [replace_value forallb]; [reflexivity|].
  destruct (str_eqb k' k); cbn [forallb fst]; [reflexivity|]. now rewrite IH.
Qed.

Lemma props_ordered_replace_value (k : jsstring) (v : json)
    (props : list (jsstring * json)) :
  props_ordered (replace_value k v props) = props_ordered props.
Proof.
  induction props as [|[k' v'] rest IH]; cbn [replace_value props_ordered];
    [reflexivity|].
  destruct (str_eqb k' k); cbn [props_ordered]; [reflexivity|].
  now rewrite IH, (forallb_replace_value (may_follow k')).
Qed.

Lemma forallb_insert_key (P : jsstring -> bool) (k : jsstring) (v : json)
    (props : list (jsstring * json)) :
  forallb (fun kv => P (fst kv)) (insert_key k v props)
  = P k && forallb (fun kv => P (fst kv)) props.
Proof.
  induction props as [|[k' v'] rest IH]; cbn [insert_key forallb fst].
  - reflexivity.
  - destruct (key_before k k'); cbn [forallb fst]; [reflexivity|].
    rewrite IH. now destruct (P k), (P k').
Qed.

Lemma props_ordered_insert_key (k : jsstring) (v : json)
    (props : list (jsstring * json)) :
  has_key k props = false -> props_ordered props = true ->
  props_ordered (insert_key k v props) = true.
Proof.
  induction props as [|[k0 v0] rest IH]; cbn [has_key insert_key props_ordered];
    intros Hk Hord.
  - reflexivity.
  - apply orb_false_iff in Hk as [Hk0 Hk].
    apply andb_true_iff in Hord as [Hfollow Hord].
    destruct (key_before k k0) eqn:Hb; cbn [props_ordered forallb fst].
    + rewrite Hfollow, Hord, !andb_true_r.
      apply andb_true_iff. split.
      * unfold may_follow. rewrite str_eqb_sym, Hk0.
        now rewrite (key_before_asym k k0 Hb).
      * clear IH Hord. induction rest as [|[x vx] rest IH]; [reflexivity|].
        cbn [forallb fst has_key] in *.
        apply orb_false_iff in Hk as [Hx Hk].
        apply andb_true_iff in Hfollow as [Hfx Hfollow].
        rewrite IH by assumption. rewrite andb_true_r.
        unfold may_follow in *. apply andb_true_iff in Hfx as [_ Hfx].
        apply negb_true_iff in Hfx.
        rewrite str_eqb_sym, Hx. now rewrite (key_before_blocks k k0 x Hb Hfx).
    + rewrite (forallb_insert_key (may_follow k0)), Hfollow, IH by assumption.
      unfold may_follow. now rewrite Hk0, Hb.
Qed.

(** Creating a property keeps the enumeration order. *)
Lemma props_ordered_obj_set (k : jsstring) (v : json)
    (props : list (jsstring * json)) :
  props_ordered props = true -> props_ordered (obj_set k v props) = true.
Proof.
  intros H. unfold obj_set. destruct (has_key k props) eqn:E.
  - now rewrite props_ordered_replace_value.
  - now apply props_ordered_insert_key.
Qed.

Lemma Forall_obj_set (P : json -> Prop) (k : jsstring) (v : json)
    (props : list (jsstring * json)) :
  P v -> Forall (fun kv => P (snd kv)) props ->
  Forall (fun kv => P (snd kv)) (obj_set k v props).
Proof.
  intros Hv Hp. unfold obj_set. destruct (has_key k props).
  - induction Hp as [|[k' v'] rest Hh Ht IH]; cbn [replace_value]; [constructor|].
    destruct (str_eqb k' k); constructor; auto.
  - induction Hp as [|[k' v'] rest Hh Ht IH]; cbn [insert_key].
    + now repeat constructor.
    + destruct (key_before k k'); repeat constructor; auto.
Qed.

End ParsedObjects.

Section ParsedValues.

Lemma pmap_ok {A B : Type} (f : A -> B) (p : presult A) (b : B) (r : jsstring) :
  pmap f p = POk b r -> exists a, p = POk a r /\ b = f a.
Proof. destruct p; cbn; try discriminate. intros [= <- <-]. eauto. Qed.

Lemma parse_keyword_ok (word : jsstring) (val v : json) (s r : jsstring) :
  parse_keyword word val s = POk v r -> v = val.
Proof. unfold parse_keyword. destruct (startsWith s word); now intros [= <- <-]. Qed.

(** All three readers return well-formed values, whatever the fuel. *)
Lemma parsers_wf (fuel : nat) :
  (forall s v r, parse_value fuel s = POk v r -> json_wf v) /\
  (forall s acc v r,
      props_ordered acc = true -> Forall (fun kv => json_wf (snd kv)) acc ->
      parse_members fuel s acc = POk v r -> json_wf v) /\
  (forall s acc v r,
      Forall json_wf acc -> parse_elements fuel s acc = POk v r -> json_wf v).
Proof.
  induction fuel as [|f (IHv & IHm & IHe)].
  - repeat split; intros; discriminate.
  - repeat split.
    + intros s v r. cbn [parse_value].
      destruct (skip_ws s) as [|c r0]; [discriminate|].
      destruct (N.eqb c LBRACE).
      { destruct (skip_ws r0) as [|c1 r1]; [discriminate|].
        destruct (N.eqb c1 RBRACE).
        - intros [= <- <-]. now constructor.
        - apply IHm; constructor. }
      destruct (N.eqb c LBRACKET).
      { destruct (skip_ws r0) as [|c1 r1]; [discriminate|].
        destruct (N.eqb c1 RBRACKET).
        - intros [= <- <-]. now constructor.
        - apply IHe; constructor. }
      destruct (N.eqb c QUOTE).
      { intros H. apply pmap_ok in H as (a & _ & ->). constructor. }
      destruct (N.eqb c MINUS || is_digit c)%bool.
      { intros H. apply pmap_ok in H as (a & H & ->). constructor.
        now apply parse_number_wf in H. }
      destruct (N.eqb c 116);
        [intros H; apply parse_keyword_ok in H; subst; constructor|].
      destruct (N.eqb c 102);
        [intros H; apply parse_keyword_ok in H; subst; constructor|].
      destruct (N.eqb c 110);
        [intros H; apply parse_keyword_ok in H; subst; constructor|].
      discriminate.
    + intros s acc v r Hord Hacc. cbn [parse_members].
      destruct (skip_ws s) as [|c r0]; [discriminate|].
      destruct (N.eqb c QUOTE); [|discriminate].
      destruct (parse_chars r0) as [k r1| |]; try discriminate.
      destruct (skip_ws r1) as [|c1 r2]; [discriminate|].
      destruct (N.eqb c1 COLON); [|discriminate].
      destruct (parse_value f r2) as [x r3| |] eqn:Ex; try discriminate.
      apply IHv in Ex.
      destruct (skip_ws r3) as [|c3 r4]; [discriminate|].
      destruct (N.eqb c3 COMMA).
      { apply IHm; [now apply props_ordered_obj_set|now apply Forall_obj_set]. }
      destruct (N.eqb c3 RBRACE); [|discriminate].
      intros [= <- <-]. constructor;
        [now apply props_ordered_obj_set|now apply Forall_obj_set].
    + intros s acc v r Hacc. cbn [parse_elements].
      destruct (parse_value f s) as [x r1| |] eqn:Ex; try discriminate.
      apply IHv in Ex.
      assert (Forall json_wf (acc ++ [x])) as Hacc'
        by (apply Forall_app; split; [assumption|now constructor]).
      destruct (skip_ws r1) as [|c r2]; [discriminate|].
      destruct (N.eqb c COMMA); [now apply IHe|].
      destruct (N.eqb c RBRACKET); [|discriminate].
      intros [= <- <-]. now constructor.
Qed.

Lemma JSON_parse_wf (text : jsstring) (v : json) :
  JSON_parse text = inl v -> json_wf v.
Proof.
  unfold JSON_parse.
  destruct (parse_value (S (2 * length text)) text) as [x rest| |] eqn:E;
    try discriminate.
  destruct (skip_ws rest); [|discriminate].
  intros [= <-]. now apply (proj1 (parsers_wf _)) in E.
Qed.

(** The members of an object always come back as an object. *)
Lemma parse_members_object (fuel : nat) :
  forall s acc v r,
    parse_members fuel s acc = POk v r -> exists props, v = JObject props.
Proof.
  induction fuel as [|f IH]; intros s acc v r; [discriminate|].
  cbn [parse_members].
  destruct (skip_ws s) as [|c r0]; [discriminate|].
  destruct (N.eqb c QUOTE); [|discriminate].
  destruct (parse_chars r0) as [k r1| |]; try discriminate.
  destruct (skip_ws r1) as [|c1 r2]; [discriminate|].
  destruct (N.eqb c1 COLON); [|discriminate].
  destruct (parse_value f r2) as [x r3| |]; try discriminate.
  destruct (skip_ws r3) as [|c3 r4]; [discriminate|].
  destruct (N.eqb c3 COMMA); [apply IH|].
  destruct (N.eqb c3 RBRACE); [|discriminate].
  intros [= <- <-]. eauto.
Qed.

(** A text that starts with an opening brace parses to an object, if it
    parses at all. *)
Lemma JSON_parse_object (r : jsstring) (v : json) :
  JSON_parse (LBRACE :: r) = inl v -> exists props, v = JObject props.
Proof.
  unfold JSON_parse.
  destruct (parse_value (S (2 * length (LBRACE :: r))) (LBRACE :: r))
    as [x rest| |] eqn:E; try discriminate.
  destruct (skip_ws rest); [|discriminate].
  intros [= <-]. cbn [parse_value] in E.
  change (skip_ws (LBRACE :: r)) with (LBRACE :: r) in E. cbv beta iota in E.
  replace (N.eqb LBRACE LBRACE) with true in E by reflexivity.
  destruct (skip_ws r) as [|c1 r1]; [discriminate|].
  destruct (N.eqb c1 RBRACE).
  - injection E as <- _. eauto.
  - now apply parse_members_object in E.
Qed.

End ParsedValues.

(** ** C9: re-running the pipeline on a re-serialised record *)

Section Reserialise.

Lemma unsigned_zeros_idempotent (v : json) :
  unsigned_zeros (unsigned_zeros v) = unsigned_zeros v.
Proof.
  induction v as [|b|x|s|items IH|props IH] using json_induction;
    cbn [unsigned_zeros]; try reflexivity.
  - now destruct x.
  - f_equal. rewrite map_map. apply map_ext_Forall. exact IH.
  - f_equal. rewrite map_map. apply map_ext_Forall.
    eapply Forall_impl; [|exact IH]. intros [k x] H. cbn [snd] in H.
    now rewrite H.
Qed.

Lemma get_prop_unsigned (f : jsstring) (props : list (jsstring * json)) :
  get_prop f (map (fun kv : jsstring * json => let (k, x) := kv in (k, unsigned_zeros x))
                props)
  = option_map unsigned_zeros (get_prop f props).
Proof.
  induction props as [|[k x] rest IH]; cbn [map get_prop]; [reflexivity|].
  now destruct (str_eqb k f).
Qed.

Lemma get_field_unsigned (v : json) (f : jsstring) :
  get_field (unsigned_zeros v) f = option_map unsigned_zeros (get_field v f).
Proof. destruct v; try reflexivity. apply get_prop_unsigned. Qed.

Lemma truthy_unsigned (v : jsvalue) :
  truthy (option_map unsigned_zeros v) = truthy v.
Proof. destruct v as [[| |[]| | |]|]; reflexivity. Qed.

Lemma not_nullish_unsigned (v : jsvalue) :
  not_nullish (option_map unsigned_zeros v) = not_nullish v.
Proof. destruct v as [[| | | | |]|]; reflexivity. Qed.

Lemma first_missing_unsigned (present : jsvalue -> bool) (data : json)
    (fields : list jsstring) :
  (forall v, present (option_map unsigned_zeros v) = present v) ->
  first_missing present (unsigned_zeros data) fields
  = first_missing present data fields.
Proof.
  intros Hp. induction fields as [|f fields IH]; cbn [first_missing]; [reflexivity|].
  now rewrite get_field_unsigned, Hp, IH.
Qed.

(** The text of an object is left alone by the cleaning and is its own
    brace-delimited span. *)
Lemma object_text_located (props : list (jsstring * json)) :
  match_json_object (clean_response (stringify (JObject props)))
  = Some (stringify (JObject props)).
Proof.
  rewrite stringify_object. unfold clean_response.
  rewrite trim_guarded by reflexivity.
  unfold strip_fences.
  replace (startsWith (LBRACE :: stringify_members props ++ [RBRACE]) FENCE_JSON)
    with false by reflexivity.
  replace (startsWith (LBRACE :: stringify_members props ++ [RBRACE]) FENCE)
    with false by reflexivity.
  apply (match_json_object_span [] (stringify_members props) []); intros [].
Qed.

(** What the pipeline returned is the well-formed object that [JSON.parse]
    built, and it passed the field test. *)
Lemma parse_response_result (h : Host) (no_json missing : jsstring)
    (present : jsvalue -> bool) (fields : list jsstring) (text : jsstring)
    (R : json) :
  parse_response h no_json missing present fields text = inr R ->
  json_wf R /\ (exists props, R = JObject props) /\
  first_missing present R fields = None.
Proof.
  unfold parse_response.
  destruct (match_json_object (clean_response text)) as [m|] eqn:Em;
    [|discriminate].
  destruct (JSON_parse m) as [data|p] eqn:Ep; [|discriminate].
  destruct (first_missing present data fields) eqn:Ef; [discriminate|].
  intros [= <-]. repeat split.
  - now apply (JSON_parse_wf m).
  - apply match_json_object_some in Em as (pre & mid & post & _ & -> & _).
    now apply (JSON_parse_object _ _ Ep).
  - exact Ef.
Qed.

(** Re-running either copy of the pipeline on the re-serialised result. *)
Lemma parse_response_reserialised (h : Host) (no_json missing : jsstring)
    (present : jsvalue -> bool) (fields : list jsstring) (text : jsstring)
    (R : json) :
  (forall v, present (option_map unsigned_zeros v) = present v) ->
  finite_numbers R = true ->
  parse_response h no_json missing present fields text = inr R ->
  parse_response h no_json missing present fields (stringify R)
  = inr (unsigned_zeros R).
Proof.
  intros Hp Hfin Hrun.
  destruct (parse_response_result h _ _ _ _ _ _ Hrun) as (Hwf & [props ->] & Hok).
  unfold parse_response.
  rewrite object_text_located, (JSON_parse_stringify _ Hwf Hfin).
  now rewrite (first_missing_unsigned present _ fields Hp), Hok.
Qed.

End Reserialise.

(** C9 (as amended). Let either pipeline succeed on a raw input with record
    [R], and let [R] hold no number that is [Infinity] or [-Infinity]. Then
    the same pipeline run on [JSON.stringify(R)] succeeds, and its record is
    equivalent to [R]: the same keys in the same order with the same values,
    a zero possibly losing its sign. *)
Theorem reserialised_record_reparses (h : Host) (text : jsstring) (R : json) :
  finite_numbers R = true ->
  (parse_idea h text = inr R ->
   parse_idea h (stringify R) = inr (unsigned_zeros R)) /\
  (parse_evaluation h text = inr R ->
   parse_evaluation h (stringify R) = inr (unsigned_zeros R)) /\
  json_equiv R (unsigned_zeros R).
Proof.
  intros Hfin. repeat split.
  - apply parse_response_reserialised; [apply truthy_unsigned|assumption].
  - apply parse_response_reserialised; [apply not_nullish_unsigned|assumption].
  - unfold json_equiv. symmetry. apply unsigned_zeros_idempotent.
Qed.

(** An evaluation whose [marketSize] is [-0]: the record is re-serialised
    with [0] and the pipeline returns it again. *)
Lemma reserialised_record_reparses_witness :
  parse_evaluation (replying_host []) (evaluation_text (lit "-0"))
  = inr (parsed (evaluation_text (lit "-0"))) /\
  get_field (parsed (evaluation_text (lit "-0"))) (lit "marketSize")
  = Some (JNumber (NZero true)) /\
  parse_evaluation (replying_host []) (stringify (parsed (evaluation_text (lit "-0"))))
  = inr (unsigned_zeros (parsed (evaluation_text (lit "-0")))).
Proof.
  assert (parse_evaluation (replying_host []) (evaluation_text (lit "-0"))
          = inr (parsed (evaluation_text (lit "-0")))) as Hrun
    by (vm_compute; reflexivity).
  split; [exact Hrun|]. split; [vm_compute; reflexivity|].
  exact (proj1 (proj2 (reserialised_record_reparses (replying_host [])
                         (evaluation_text (lit "-0"))
                         (parsed (evaluation_text (lit "-0")))
                         ltac:(vm_compute; reflexivity))) Hrun).
Defined.

(** C9 fails as stated: a number literal beyond the binary64 range reads as
    [Infinity], which passes the field test and which [JSON.stringify]
    writes as [null]; the pipeline then rejects its own re-serialised
    output. *)
Lemma infinite_score_breaks_reparse :
  exists R,
    parse_evaluation (replying_host []) (evaluation_text (lit "1e999")) = inr R /\
    get_field R (lit "marketSize") = Some (JNumber (NInfinity false)) /\
    startsWith (stringify R) (LBRACE :: member "marketSize" (lit "null")) = true /\
    parse_evaluation (replying_host []) (stringify R)
    = inl (new_Error (lit "Missing required evaluation field: marketSize")).
Proof.
  exists (parsed (evaluation_text (lit "1e999"))).
  repeat split; vm_compute; reflexivity.
Qed.

(** ** The fuel of [JSON_parse] never runs out *)

Section Fuel.

Lemma skip_ws_length (s : jsstring) : length (skip_ws s) <= length s.
Proof.
  induction s as [|c s IH]; cbn [skip_ws length]; [lia|].
  destruct (is_json_ws c); cbn [length]; lia.
Qed.

Lemma progresses_pmap {A B : Type} (f : A -> B) (p : presult A) (s : jsstring) :
  progresses p s -> progresses (pmap f p) s.
Proof.
  intros [H1 H2]. split.
  - destruct p; cbn; congruence.
  - intros v r H. apply pmap_ok in H as (a & -> & _). now apply (H2 a).
Qed.

Lemma progresses_longer {A : Type} (p : presult A) (s s' : jsstring) :
  length s <= length s' -> progresses p s -> progresses p s'.
Proof.
  intros Hlen [H1 H2]. split; [assumption|].
  intros v r H. specialize (H2 v r H). lia.
Qed.

Lemma progresses_fail {A : Type} (l s : jsstring) : progresses (@PFail A l) s.
Proof. split; [discriminate|]. intros; discriminate. Qed.

Lemma parse_chars_progresses_bounded (n : nat) :
  forall s, length s <= n -> progresses (parse_chars s) (QUOTE :: s).
Proof.
  induction n as [|n IH]; intros s Hn.
  - destruct s; [apply progresses_fail|cbn [length] in Hn; lia].
  - destruct s as [|c r]; [apply progresses_fail|].
    cbn [length] in Hn. cbn [parse_chars].
    destruct (N.eqb c QUOTE).
    { split; [discriminate|]. intros v r' [= <- <-]. cbn [length]. lia. }
    destruct (N.eqb c BACKSLASH).
    { destruct r as [|e r1]; [apply progresses_fail|].
      destruct (N.eqb e 117).
      - destruct r1 as [|h1 [|h2 [|h3 [|h4 r2]]]]; try apply progresses_fail.
        destruct (hex4_value h1 h2 h3 h4); [|apply progresses_fail].
        apply progresses_pmap.
        apply progresses_longer with (s := QUOTE :: r2); [cbn [length]; lia|].
        apply IH. cbn [length] in Hn. lia.
      - destruct (simple_escape e); [|apply progresses_fail].
        apply progresses_pmap.
        apply progresses_longer with (s := QUOTE :: r1); [cbn [length]; lia|].
        apply IH. cbn [length] in Hn. lia. }
    destruct (N.ltb c 32); [apply progresses_fail|].
    apply progresses_pmap.
    apply progresses_longer with (s := QUOTE :: r); [cbn [length]; lia|].
    apply IH. lia.
Qed.

Lemma parse_chars_progresses (s : jsstring) :
  progresses (parse_chars s) (QUOTE :: s).
Proof. now apply (parse_chars_progresses_bounded (length s)). Qed.

Lemma parse_frac_length (s r : jsstring) (ds : list N) :
  parse_frac s = POk ds r -> length r <= length s.
Proof.
  destruct s as [|c s]; cbn [parse_frac].
  - now intros [= <- <-].
  - destruct (N.eqb c DOT).
    + pose proof (take_digits_length s) as H.
      destruct (take_digits s) as [[|d l] rest]; [discriminate|].
      intros [= <- <-]. cbn [fst snd length] in *. lia.
    + now intros [= <- <-].
Qed.

Lemma parse_exp_digits_length (neg : bool) (s r : jsstring) (e : Z) :
  parse_exp_digits neg s = POk e r -> length r <= length s.
Proof.
  unfold parse_exp_digits. pose proof (take_digits_length s) as H.
  destruct (take_digits s) as [[|d l] rest]; [discriminate|].
  intros [= <- <-]. cbn [fst snd length] in *. lia.
Qed.

Lemma parse_exp_digits_fuel (neg : bool) (s : jsstring) :
  parse_exp_digits neg s <> PFuel.
Proof.
  unfold parse_exp_digits.
  destruct (take_digits s) as [[|d l] rest]; discriminate.
Qed.

Lemma parse_exp_length (s r : jsstring) (e : Z) :
  parse_exp s = POk e r -> length r <= length s.
Proof.
  destruct s as [|c s]; cbn [parse_exp].
  - now intros [= <- <-].
  - destruct (N.eqb c 101 || N.eqb c 69)%bool; [|now intros [= <- <-]].
    destruct s as [|sg r'].
    + intros H. apply parse_exp_digits_length in H. cbn [length] in *. lia.
    + destruct (N.eqb sg MINUS);
        [intros H; apply parse_exp_digits_length in H; cbn [length] in *; lia|].
      destruct (N.eqb sg PLUS);
        intros H; apply parse_exp_digits_length in H; cbn [length] in *; lia.
Qed.

Lemma parse_exp_fuel (s : jsstring) : parse_exp s <> PFuel.
Proof.
  destruct s as [|c s]; cbn [parse_exp]; [discriminate|].
  destruct (N.eqb c 101 || N.eqb c 69)%bool; [|discriminate].
  destruct s as [|sg r']; [apply parse_exp_digits_fuel|].
  destruct (N.eqb sg MINUS); [apply parse_exp_digits_fuel|].
  destruct (N.eqb sg PLUS); apply parse_exp_digits_fuel.
Qed.

Lemma parse_frac_fuel (s : jsstring) : parse_frac s <> PFuel.
Proof.
  destruct s as [|c s]; cbn [parse_frac]; [discriminate|].
  destruct (N.eqb c DOT); [|discriminate].
  destruct (take_digits s) as [[|d l] rest]; discriminate.
Qed.

Lemma parse_fraction_exponent_length (neg : bool) (int : list N) (s r : jsstring)
    (x : number) :
  parse_fraction_exponent neg int s = POk x r -> length r <= length s.
Proof.
  unfold parse_fraction_exponent.
  destruct (parse_frac s) as [frac s3| |] eqn:Ef; try discriminate.
  destruct (parse_exp s3) as [e s4| |] eqn:Ee; try discriminate.
  intros [= <- <-]. apply parse_frac_length in Ef. apply parse_exp_length in Ee. lia.
Qed.

Lemma parse_fraction_exponent_fuel (neg : bool) (int : list N) (s : jsstring) :
  parse_fraction_exponent neg int s <> PFuel.
Proof.
  unfold parse_fraction_exponent.
  pose proof (parse_frac_fuel s) as Hf.
  destruct (parse_frac s) as [frac s3| |]; try discriminate; [|contradiction].
  pose proof (parse_exp_fuel s3) as He.
  destruct (parse_exp s3) as [e s4| |]; try discriminate. contradiction.
Qed.

Lemma parse_magnitude_progresses (neg : bool) (s : jsstring) :
  progresses (parse_magnitude neg s) s.
Proof.
  destruct s as [|c s]; cbn [parse_magnitude]; [apply progresses_fail|].
  destruct (is_digit c) eqn:Hc; [|apply progresses_fail].
  destruct (N.eqb c ZERO).
  - split; [apply parse_fraction_exponent_fuel|].
    intros v r H. apply parse_fraction_exponent_length in H. cbn [length]. lia.
  - pose proof (take_digits_length (c :: s)) as Hlen.
    cbn [take_digits] in *. rewrite Hc in *.
    destruct (take_digits s) as [ds rest]. cbn [fst snd length] in Hlen.
    split; [apply parse_fraction_exponent_fuel|].
    intros v r H. apply parse_fraction_exponent_length in H. cbn [length]. lia.
Qed.

Lemma parse_number_progresses (s : jsstring) : progresses (parse_number s) s.
Proof.
  destruct s as [|c s]; cbn [parse_number]; [apply progresses_fail|].
  destruct (N.eqb c MINUS); [|apply parse_magnitude_progresses].
  apply progresses_longer with (s := s); [cbn [length]; lia|].
  apply parse_magnitude_progresses.
Qed.

Lemma parse_keyword_progresses (word : jsstring) (val : json) (s : jsstring) :
  word <> [] -> progresses (parse_keyword word val s) s.
Proof.
  intros Hw. unfold parse_keyword.
  destruct (startsWith s word) eqn:E; [|apply progresses_fail].
  apply startsWith_prefix in E as [r ->].
  split; [discriminate|]. intros v r' [= <- <-].
  rewrite skipn_prefix, length_app. destruct word; [contradiction|].
  cbn [length]. lia.
Qed.

(** With fuel beyond twice the length of the input, every reader makes
    progress. *)
Lemma parsers_progress (fuel : nat) :
  (forall s, 2 * length s < fuel -> progresses (parse_value fuel s) s) /\
  (forall s acc, 2 * length s + 1 < fuel ->
                 progresses (parse_members fuel s acc) s) /\
  (forall s acc, 2 * length s + 1 < fuel ->
                 progresses (parse_elements fuel s acc) s).
Proof.
  induction fuel as [|f (IHv & IHm & IHe)].
  - split; [|split]; intros; lia.
  - split; [|split].
    + intros s Hf. cbn [parse_value].
      pose proof (skip_ws_length s) as Hs.
      destruct (skip_ws s) as [|c r0]; [apply progresses_fail|].
      cbn [length] in Hs.
      apply progresses_longer with (s := c :: r0); [cbn [length]; lia|].
      destruct (N.eqb c LBRACE).
      { pose proof (skip_ws_length r0) as Hr.
        destruct (skip_ws r0) as [|c1 r1]; [apply progresses_fail|].
        cbn [length] in Hr.
        destruct (N.eqb c1 RBRACE).
        - split; [discriminate|]. intros v r [= <- <-]. cbn [length]. lia.
        - apply progresses_longer with (s := c1 :: r1); [cbn [length]; lia|].
          apply IHm. cbn [length]. lia. }
      destruct (N.eqb c LBRACKET).
      { pose proof (skip_ws_length r0) as Hr.
        destruct (skip_ws r0) as [|c1 r1]; [apply progresses_fail|].
        cbn [length] in Hr.
        destruct (N.eqb c1 RBRACKET).
        - split; [discriminate|]. intros v r [= <- <-]. cbn [length]. lia.
        - apply progresses_longer with (s := c1 :: r1); [cbn [length]; lia|].
          apply IHe. cbn [length]. lia. }
      destruct (N.eqb c QUOTE).
      { apply progresses_pmap.
        apply progresses_longer with (s := QUOTE :: r0); [cbn [length]; lia|].
        apply parse_chars_progresses. }
      destruct (N.eqb c MINUS || is_digit c)%bool.
      { apply progresses_pmap, parse_number_progresses. }
      destruct (N.eqb c 116); [now apply parse_keyword_progresses|].
      destruct (N.eqb c 102); [now apply parse_keyword_progresses|].
      destruct (N.eqb c 110); [now apply parse_keyword_progresses|].
      apply progresses_fail.
    + intros s acc Hf. cbn [parse_members].
      pose proof (skip_ws_length s) as Hs.
      destruct (skip_ws s) as [|c r0]; [apply progresses_fail|].
      cbn [length] in Hs.
      destruct (N.eqb c QUOTE); [|apply progresses_fail].
      destruct (parse_chars_progresses r0) as [Hk1 Hk2].
      destruct (parse_chars r0) as [k r1| |] eqn:Ek;
        [|apply progresses_fail|contradiction].
      specialize (Hk2 k r1 eq_refl). cbn [length] in Hk2.
      pose proof (skip_ws_length r1) as Hr1.
      destruct (skip_ws r1) as [|c1 r2]; [apply progresses_fail|].
      cbn [length] in Hr1.
      destruct (N.eqb c1 COLON); [|apply progresses_fail].
      destruct (IHv r2 ltac:(lia)) as [Hv1 Hv2].
      destruct (parse_value f r2) as [x r3| |] eqn:Ex;
        [|apply progresses_fail|contradiction].
      specialize (Hv2 x r3 eq_refl).
      pose proof (skip_ws_length r3) as Hr3.
      destruct (skip_ws r3) as [|c3 r4]; [apply progresses_fail|].
      cbn [length] in Hr3.
      destruct (N.eqb c3 COMMA).
      { apply progresses_longer with (s := r4); [lia|]. apply IHm. lia. }
      destruct (N.eqb c3 RBRACE); [|apply progresses_fail].
      split; [discriminate|]. intros v r [= <- <-]. lia.
    + intros s acc Hf. cbn [parse_elements].
      destruct (IHv s ltac:(lia)) as [Hv1 Hv2].
      destruct (parse_value f s) as [x r1| |] eqn:Ex;
        [|apply progresses_fail|contradiction].
      specialize (Hv2 x r1 eq_refl).
      pose proof (skip_ws_length r1) as Hr1.
      destruct (skip_ws r1) as [|c r2]; [apply progresses_fail|].
      cbn [length] in Hr1.
      destruct (N.eqb c COMMA).
      { apply progresses_longer with (s := r2); [lia|]. apply IHe. lia. }
      destruct (N.eqb c RBRACKET); [|apply progresses_fail].
      split; [discriminate|]. intros v r [= <- <-]. lia.
Qed.

(** [JSON_parse] never fails for lack of fuel: a failure is a syntax error. *)
Lemma JSON_parse_fuel (text : jsstring) :
  parse_value (S (2 * length text)) text <> PFuel.
Proof. apply (proj1 (parsers_progress _)). lia. Qed.

End Fuel.

(** * The page *)

(** ** The handlers between their awaits and the handlers run at once *)

Ltac unfold_resume :=
  unfold resume, after_test, after_idea, after_evaluation, connection_result,
    request_of in *.

(** X1. When nothing else happens in between, a click followed by the
    settling of its requests leaves the state and the list of requests that
    the handler run in one go leaves, and nothing stays suspended. *)
Theorem click_then_settle_is_handler (ce : JsError) (h : Host) (w : World) (stored : option jsstring) :
  world (run ce (idle_page w stored) [ClickGenerate; Settle 0 h; Settle 0 h])
  = click_generate h w /\
  inflight (run ce (idle_page w stored) [ClickGenerate; Settle 0 h; Settle 0 h]) = [] /\
  world (run ce (idle_page w stored) [ClickEvaluate; Settle 0 h])
  = press_evaluate ce h w /\
  inflight (run ce (idle_page w stored) [ClickEvaluate; Settle 0 h]) = [].
Proof.
  destruct w as [st out].
  assert (Hg : run ce (idle_page (mkWorld st out) stored) [ClickGenerate; Settle 0 h; Settle 0 h]
               = mkPage (click_generate h (mkWorld st out)) stored []).
  { unfold run, idle_page, click_generate, generateAIIdea.
    cbn [fold_left step world ui sent inflight saved].
    destruct (isGenerating st); [reflexivity|].
    unfold start_generate. cbn [world ui sent inflight saved].
    destruct (is_empty (trim (apiKey st))); [reflexivity|].
    cbn [step world ui sent inflight saved app nth_error remove_nth].
    unfold_resume. unfold_run. cbn.
    destruct (gateway h (TestRequest (trim (apiKey st)))) as [e|t]; cbn; [reflexivity|].
    destruct (gateway h (IdeaRequest (trim (apiKey st)) (selectedCategory st)))
      as [e|text]; cbn; [rewrite <- app_assoc; reflexivity|].
    destruct (parse_idea h text) as [e|data]; cbn; rewrite <- app_assoc; reflexivity. }
  assert (He : run ce (idle_page (mkWorld st out) stored) [ClickEvaluate; Settle 0 h]
               = mkPage (press_evaluate ce h (mkWorld st out)) stored []).
  { unfold run, idle_page, press_evaluate, evaluate_handler, evaluateAIIdea.
    cbn [fold_left step world ui sent inflight saved].
    destruct (currentIdea st) as [idea|] eqn:Hidea; [|reflexivity].
    destruct (isEvaluating st); [reflexivity|].
    unfold start_evaluate. cbn [world ui sent inflight saved]. rewrite Hidea.
    destruct (is_empty (trim (apiKey st))); [reflexivity|].
    destruct (printable_idea idea); [|reflexivity].
    cbn [step world ui sent inflight saved app nth_error remove_nth].
    unfold_resume. unfold_run. cbn.
    destruct (gateway h (EvaluationRequest (trim (apiKey st)) idea)) as [e|text];
      cbn; [reflexivity|].
    destruct (parse_evaluation h text) as [e|data]; cbn; reflexivity. }
  rewrite Hg, He. repeat split.
Qed.

(** ** Trimming twice *)

Section TrimTwice.

Lemma trimStart_idempotent (s : jsstring) : trimStart (trimStart s) = trimStart s.
Proof.
  induction s as [|c s IH]; [reflexivity|].
  cbn [trimStart]. destruct (is_js_whitespace c) eqn:E; [exact IH|].
  cbn [trimStart]. now rewrite E.
Qed.

Lemma trimStart_head (s : jsstring) :
  match trimStart s with
  | [] => True
  | c :: _ => is_js_whitespace c = false
  end.
Proof.
  induction s as [|c s IH]; [exact I|].
  cbn [trimStart]. destruct (is_js_whitespace c) eqn:E; [exact IH|exact E].
Qed.

Lemma trimStart_fixed (c : N) (r : jsstring) :
  is_js_whitespace c = false -> trimStart (c :: r) = c :: r.
Proof. intros H. cbn [trimStart]. now rewrite H. Qed.

Lemma trimStart_snoc (s : jsstring) (c : N) :
  is_js_whitespace c = false -> trimStart (s ++ [c]) = trimStart s ++ [c].
Proof.
  intros H. induction s as [|d s IH]; cbn [trimStart app].
  - now rewrite H.
  - destruct (is_js_whitespace d); [exact IH|reflexivity].
Qed.

Lemma trimEnd_idempotent (s : jsstring) : trimEnd (trimEnd s) = trimEnd s.
Proof.
  unfold trimEnd. now rewrite rev_involutive, trimStart_idempotent.
Qed.

(** Trimming the end keeps a head that is not white space. *)
Lemma trimEnd_head (c : N) (r : jsstring) :
  is_js_whitespace c = false ->
  exists r', trimEnd (c :: r) = c :: r'.
Proof.
  intros H. unfold trimEnd. cbn [rev].
  induction (rev r) as [|d l IH]; cbn [app trimStart].
  - rewrite H. now exists [].
  - destruct (is_js_whitespace d).
    + exact IH.
    + cbn [rev]. rewrite rev_app_distr. cbn [rev app]. now eexists.
Qed.

Lemma trim_idempotent (s : jsstring) : trim (trim s) = trim s.
Proof.
  unfold trim.
  pose proof (trimStart_head s) as Hh.
  destruct (trimStart s) as [|c r] eqn:E.
  - reflexivity.
  - destruct (trimEnd_head c r Hh) as [r' Hr]. rewrite Hr.
    rewrite (trimStart_fixed c r' Hh), <- Hr. apply trimEnd_idempotent.
Qed.

End TrimTwice.

(** ** The invariant of the page *)

Section Invariant.

Lemma filter_snoc_length {A : Type} (f : A -> bool) (l : list A) (x : A) :
  length (filter f (l ++ [x])) = length (filter f l) + flag_count (f x).
Proof.
  rewrite filter_app, length_app. cbn [filter]. now destruct (f x).
Qed.

Lemma filter_remove_nth_length {A : Type} (f : A -> bool) (n : nat) :
  forall (l : list A) (x : A),
    nth_error l n = Some x ->
    length (filter f l) = flag_count (f x) + length (filter f (remove_nth n l)).
Proof.
  induction n as [|n IH]; intros [|y l] x H; try discriminate.
  - injection H as ->. cbn [remove_nth filter]. now destruct (f x).
  - cbn [nth_error] in H. cbn [remove_nth filter].
    destruct (f y); cbn [length]; rewrite (IH l x H); lia.
Qed.

Lemma Forall_remove_nth {A : Type} (P : A -> Prop) (n : nat) :
  forall l : list A, Forall P l -> Forall P (remove_nth n l).
Proof.
  induction n as [|n IH]; intros [|y l] H; cbn [remove_nth]; auto.
  - now inversion H.
  - inversion H; subst. constructor; auto.
Qed.

Lemma Forall_nth_error {A : Type} (P : A -> Prop) (l : list A) (n : nat) (x : A) :
  Forall P l -> nth_error l n = Some x -> P x.
Proof.
  intros H E. rewrite Forall_forall in H. apply H. eapply nth_error_In, E.
Qed.

Lemma Forall_snoc {A : Type} (P : A -> Prop) (l : list A) (x : A) :
  Forall P l -> P x -> Forall P (l ++ [x]).
Proof. intros H Hx. apply Forall_app. split; [assumption|]. now constructor. Qed.

Lemma trimmed_key_in_order (key : jsstring) (r : Request) :
  is_empty (trim key) = false -> request_key r = trim key -> key_in_order r.
Proof.
  intros H E. unfold key_in_order. rewrite E. split; [assumption|].
  apply trim_idempotent.
Qed.

Lemma boot_invariant (stored : option jsstring) : page_invariant (boot stored).
Proof.
  unfold boot, load_saved_key.
  destruct stored as [[|c key]|]; constructor; cbn;
    first [ reflexivity | discriminate | congruence | now constructor | now left ].
Qed.

Ltac page_fields :=
  unfold suspended, saved_key in *;
  cbn [world ui sent inflight saved currentIdea evaluation showEvaluation apiKey
       tempApiKey showApiKeyInput isGenerating isEvaluating error selectedCategory
       debugInfo] in *.

Lemma step_invariant (ce : JsError) (p : Page) (e : Event) :
  page_invariant p -> page_invariant (step ce p e).
Proof.
  destruct p as [[st out] stored tasks].
  destruct st as [idea ev shown key temp dialog gen evl err cat dbg].
  intros [Hg He Hp Hv Hi Hk Hs Ha Hc]. page_fields.
  destruct e as [| | value | | | | value | | | n h];
    cbn [step world ui sent inflight saved showApiKeyInput tempApiKey apiKey
         isGenerating isEvaluating currentIdea].
  - (* Reload *)
    unfold load_saved_key.
    destruct stored as [[|c k]|]; constructor; page_fields; cbn;
      first [ reflexivity | discriminate | congruence | assumption
            | now constructor | now left ].
  - (* ClickConfigure *)
    constructor; page_fields; cbn; assumption.
  - (* TypeKey *)
    destruct dialog; constructor; page_fields; cbn; assumption.
  - (* ClickSave *)
    destruct dialog; cbn [andb]; [|constructor; page_fields; cbn; assumption].
    unfold saveApiKey, saveApiKey_storage. cbn [tempApiKey].
    destruct (is_empty (trim temp)); cbn [negb];
      constructor; page_fields; cbn; first [ assumption | reflexivity ].
  - (* ClickCancel *)
    destruct dialog; constructor; page_fields; cbn; assumption.
  - (* ClickClear *)
    destruct dialog; cbn [andb]; [|constructor; page_fields; cbn; assumption].
    destruct (is_empty key); cbn [negb];
      constructor; page_fields; cbn; first [ assumption | reflexivity ].
  - (* SelectCategory *)
    destruct (existsb (str_eqb value) category_options) eqn:E;
      constructor; page_fields; cbn; try assumption.
    apply existsb_exists in E as (c & Hin & Heq).
    apply str_eqb_eq in Heq. now subst.
  - (* ClickGenerate *)
    destruct gen; [constructor; page_fields; cbn; assumption|].
    unfold start_generate. page_fields.
    destruct (is_empty (trim key)) eqn:Hkey;
      constructor; page_fields; cbn; try assumption.
    + rewrite filter_snoc_length, Hg. reflexivity.
    + rewrite filter_snoc_length, He. cbn. lia.
    + apply Forall_snoc; assumption.
    + apply Forall_snoc; [assumption|].
      now apply (trimmed_key_in_order key).
  - (* ClickEvaluate *)
    destruct idea as [idea|]; [|constructor; page_fields; cbn; assumption].
    destruct evl; [constructor; page_fields; cbn; assumption|].
    unfold start_evaluate. page_fields.
    destruct (is_empty (trim key)) eqn:Hkey;
      [constructor; page_fields; cbn; assumption|].
    destruct (printable_idea idea);
      constructor; page_fields; cbn; try assumption; try discriminate.
    + rewrite filter_snoc_length, Hg. cbn. lia.
    + rewrite filter_snoc_length, He. reflexivity.
    + apply Forall_snoc; assumption.
    + apply Forall_snoc; [assumption|].
      now apply (trimmed_key_in_order key).
  - (* Settle *)
    destruct (nth_error tasks n) as [t|] eqn:Ht;
      [|constructor; page_fields; cbn; assumption].
    pose proof (filter_remove_nth_length is_generation n tasks t Ht) as Cg.
    pose proof (filter_remove_nth_length is_evaluation n tasks t Ht) as Ce.
    pose proof (Forall_remove_nth _ n tasks Hk) as Hk'.
    pose proof (Forall_nth_error _ tasks n t Hk Ht) as Hkt.
    rewrite Hg in Cg. rewrite He in Ce.
    destruct t as [k c|k c|k i];
      cbn [flag_count is_generation is_evaluation negb Nat.add task_key] in Cg, Ce, Hkt.
    + (* the connection test settles *)
      unfold_resume. unfold_run. cbn.
      destruct (gateway h (TestRequest (trim k))) as [e|t]; cbn;
        constructor; page_fields; cbn; try assumption.
      * destruct gen; cbn in Cg; lia.
      * lia.
      * rewrite filter_snoc_length. cbn. lia.
      * rewrite filter_snoc_length. cbn. lia.
      * apply Forall_snoc; assumption.
      * apply Forall_snoc; [assumption|].
        now apply (trimmed_key_in_order k).
    + (* the generation request settles *)
      unfold_resume. unfold_run. cbn.
      destruct (gateway h (IdeaRequest (trim k) c)) as [e|text]; cbn.
      * constructor; page_fields; cbn; try assumption.
        -- destruct gen; cbn in Cg; lia.
        -- lia.
      * destruct (parse_idea h text) as [e|data]; cbn;
          constructor; page_fields; cbn; try assumption;
          try (destruct gen; cbn in Cg; lia); try lia;
          try discriminate; try congruence.
    + (* the evaluation request settles *)
      assert (evl = true) as -> by (destruct evl; cbn in Ce; [reflexivity|lia]).
      specialize (Hi eq_refl). cbn [flag_count] in Ce.
      unfold_resume. unfold_run. cbn.
      destruct (gateway h (EvaluationRequest (trim k) i)) as [e|text]; cbn.
      * constructor; page_fields; cbn; try assumption; try lia; try discriminate.
      * destruct (parse_evaluation h text) as [e|data]; cbn;
          constructor; page_fields; cbn; try assumption; try lia;
          try discriminate; try (intros; assumption).
Qed.

Lemma run_invariant (ce : JsError) (events : list Event) :
  forall p, page_invariant p -> page_invariant (run ce p events).
Proof.
  unfold run. induction events as [|e events IH]; intros p H; cbn [fold_left].
  - exact H.
  - apply IH. now apply step_invariant.
Qed.

Lemma reachable_invariant (ce : JsError) (stored : option jsstring) (events : list Event) :
  page_invariant (run ce (boot stored) events).
Proof. apply run_invariant, boot_invariant. Qed.

End Invariant.

(** ** What holds on every page that can be reached *)

(** X2. On every page reached from a first load by any events, in any
    order, the generating flag is up exactly while one generation is
    suspended at an [await] and the evaluating flag exactly while one
    evaluation is: no two round trips of the same kind are ever in flight
    together. *)
Theorem one_round_trip_of_a_kind (ce : JsError) (stored : option jsstring) (events : list Event) :
  suspended is_generation (run ce (boot stored) events)
  = flag_count (isGenerating (ui (world (run ce (boot stored) events)))) /\
  suspended is_evaluation (run ce (boot stored) events)
  = flag_count (isEvaluating (ui (world (run ce (boot stored) events)))) /\
  suspended is_generation (run ce (boot stored) events) <= 1 /\
  suspended is_evaluation (run ce (boot stored) events) <= 1.
Proof.
  destruct (reachable_invariant ce stored events) as [Hg He _ _ _ _ _ _ _].
  rewrite Hg, He. repeat split.
  - destruct (isGenerating _); cbn; lia.
  - destruct (isEvaluating _); cbn; lia.
Qed.

(** X3. On every reachable page the evaluation panel is shown only when an
    evaluation is stored, and an evaluation is stored only when an idea is:
    no interleaving of the two round trips shows an evaluation without an
    idea. *)
Theorem evaluation_never_without_idea (ce : JsError) (stored : option jsstring) (events : list Event) :
  (showEvaluation (ui (world (run ce (boot stored) events))) = true ->
   evaluation (ui (world (run ce (boot stored) events))) <> None) /\
  (evaluation (ui (world (run ce (boot stored) events))) <> None ->
   currentIdea (ui (world (run ce (boot stored) events))) <> None).
Proof.
  destruct (reachable_invariant ce stored events) as [_ _ Hp Hv _ _ _ _ _].
  split; assumption.
Qed.

(** X4. Every request the page ever sends carries a key that is trimmed and
    not empty, and so does every handler that is still suspended, whatever
    was typed, saved or cleared in between. *)
Theorem requests_carry_a_key (ce : JsError) (stored : option jsstring) (events : list Event) :
  Forall key_in_order (sent (world (run ce (boot stored) events))) /\
  Forall (fun t => key_in_order (request_of t)) (inflight (run ce (boot stored) events)).
Proof.
  destruct (reachable_invariant ce stored events) as [_ _ _ _ _ Hk Hs _ _].
  split; [assumption|].
  eapply Forall_impl; [|exact Hk].
  intros t Ht. apply (trimmed_key_in_order (task_key t)); [assumption|].
  now destruct t.
Qed.

(** X5. On every reachable page the [apiKey] slot holds what the storage
    entry holds, the empty string when there is none; the header reads
    [API Key Required] exactly when the storage holds no key or an empty
    one. The selected category is one of the options of the select. *)
Theorem key_slot_mirrors_storage (ce : JsError) (stored : option jsstring) (events : list Event) :
  apiKey (ui (world (run ce (boot stored) events))) = saved_key (run ce (boot stored) events) /\
  key_required_badge (ui (world (run ce (boot stored) events)))
  = is_empty (saved_key (run ce (boot stored) events)) /\
  In (selectedCategory (ui (world (run ce (boot stored) events)))) category_options.
Proof.
  destruct (reachable_invariant ce stored events) as [_ _ _ _ _ _ _ Ha Hc].
  unfold key_required_badge. rewrite Ha. repeat split. assumption.
Qed.

(** ** An evaluation that is overtaken by a new idea *)

Ltac page_cbn :=
  cbn [fold_left step world ui sent inflight saved app nth_error remove_nth
       generate_started evaluate_started with_state
       setCurrentIdea setEvaluation setShowEvaluation setApiKey setTempApiKey
       setShowApiKeyInput setIsGenerating setIsEvaluating setError
       setSelectedCategory setDebugInfo
       currentIdea evaluation showEvaluation apiKey tempApiKey showApiKeyInput
       isGenerating isEvaluating error selectedCategory debugInfo
       success message details negb andb fst snd].

(** What React accepts as a child converts to a string. *)
Lemma renderable_printable (v : json) : renderable v = true -> printable v = true.
Proof.
  induction v as [| | | |items IH|props IH] using json_induction;
    cbn [renderable printable]; try reflexivity; try discriminate.
  rewrite !forallb_forall. rewrite Forall_forall in IH.
  intros H x Hx. apply IH; [assumption|]. now apply H.
Qed.

Lemma rendered_idea_printable (s : State) (idea : Idea) :
  currentIdea s = Some idea -> render_throws s = false ->
  printable_idea idea = true.
Proof.
  unfold render_throws. intros ->. intros H.
  apply negb_false_iff, andb_prop in H as [H _].
  unfold idea_renders in H. unfold printable_idea.
  repeat (apply andb_prop in H as [H ?]).
  assert (forall v, renderable_value v = true -> printable_value v = true) as X
    by (intros [v|]; [apply renderable_printable|reflexivity]).
  repeat (apply andb_true_intro; split); now apply X.
Qed.

Ltac state_cbn :=
  cbn [world ui sent inflight saved app remove_nth
       generate_started evaluate_started
       setCurrentIdea setEvaluation setShowEvaluation setApiKey setTempApiKey
       setShowApiKeyInput setIsGenerating setIsEvaluating setError
       setSelectedCategory setDebugInfo
       currentIdea evaluation showEvaluation apiKey tempApiKey showApiKeyInput
       isGenerating isEvaluating error selectedCategory debugInfo].

(** *** One event at a time *)

Lemma click_evaluate_starts (ce : JsError) (w : World) (stored : option jsstring)
    (tasks : list Task) (idea : Idea) :
  currentIdea (ui w) = Some idea ->
  isEvaluating (ui w) = false ->
  is_empty (trim (apiKey (ui w))) = false ->
  printable_idea idea = true ->
  step ce (mkPage w stored tasks) ClickEvaluate
  = mkPage
      (mkWorld
         (setDebugInfo (DebugText (lit "Sending evaluation request to Gemini..."))
            (ui (evaluate_started w)))
         (sent w ++ [EvaluationRequest (trim (apiKey (ui w))) idea]))
      stored (tasks ++ [AwaitingEvaluation (apiKey (ui w)) idea]).
Proof.
  intros Hi He Hk Hp. cbn [step world]. rewrite Hi, He.
  unfold start_evaluate. cbn [world saved inflight]. now rewrite Hi, Hk, Hp.
Qed.

Lemma click_generate_starts (ce : JsError) (w : World) (stored : option jsstring)
    (tasks : list Task) :
  isGenerating (ui w) = false ->
  is_empty (trim (apiKey (ui w))) = false ->
  step ce (mkPage w stored tasks) ClickGenerate
  = mkPage
      (mkWorld
         (setDebugInfo (DebugText (lit "Testing API connection..."))
            (ui (generate_started w)))
         (sent w ++ [TestRequest (trim (apiKey (ui w)))]))
      stored (tasks ++ [AwaitingTest (apiKey (ui w)) (selectedCategory (ui w))]).
Proof.
  intros Hg Hk. cbn [step world]. rewrite Hg.
  unfold start_generate. cbn [world saved inflight]. now rewrite Hk.
Qed.

Lemma settle_test_succeeds (ce : JsError) (h : Host) (w : World)
    (stored : option jsstring) (tasks : list Task) (n : nat)
    (key selected ok : jsstring) :
  nth_error tasks n = Some (AwaitingTest key selected) ->
  gateway h (TestRequest (trim key)) = inr ok ->
  step ce (mkPage w stored tasks) (Settle n h)
  = mkPage
      (mkWorld
         (setDebugInfo (DebugText (lit "Sending request to Gemini..."))
            (setDebugInfo
               (DebugText (lit "API connection successful, generating idea..."))
               (ui w)))
         (sent w ++ [IdeaRequest (trim key) selected]))
      stored (remove_nth n tasks ++ [AwaitingIdea key selected]).
Proof.
  intros Ht Hg. cbn [step inflight world saved]. rewrite Ht.
  unfold_resume. rewrite Hg. unfold_run. reflexivity.
Qed.

Lemma settle_idea_succeeds (ce : JsError) (h : Host) (w : World)
    (stored : option jsstring) (tasks : list Task) (n : nat)
    (key selected text : jsstring) (data : json) :
  nth_error tasks n = Some (AwaitingIdea key selected) ->
  gateway h (IdeaRequest (trim key) selected) = inr text ->
  parse_idea h text = inr data ->
  step ce (mkPage w stored tasks) (Settle n h)
  = mkPage
      (mkWorld
         (setIsGenerating false
            (setDebugInfo (DebugText (lit "Idea generated successfully!"))
               (setEvaluation None
                  (setShowEvaluation false
                     (setCurrentIdea (Some (idea_of h data))
                        (setDebugInfo
                           (DebugText (lit "Received response: "
                                         ++ substring0 100 text ++ lit "..."))
                           (ui w)))))))
         (sent w))
      stored (remove_nth n tasks).
Proof.
  intros Ht Hg Hp. cbn [step inflight world saved]. rewrite Ht.
  unfold_resume. rewrite Hg. unfold_run. cbn [fst snd]. rewrite Hp. reflexivity.
Qed.

Lemma settle_evaluation_succeeds (ce : JsError) (h : Host) (w : World)
    (stored : option jsstring) (tasks : list Task) (n : nat)
    (key text : jsstring) (idea : Idea) (data : json) :
  nth_error tasks n = Some (AwaitingEvaluation key idea) ->
  gateway h (EvaluationRequest (trim key) idea) = inr text ->
  parse_evaluation h text = inr data ->
  step ce (mkPage w stored tasks) (Settle n h)
  = mkPage
      (mkWorld
         (setIsEvaluating false
            (setDebugInfo (DebugText (lit "AI evaluation completed successfully!"))
               (setShowEvaluation true
                  (setEvaluation (Some (evaluation_of data))
                     (setDebugInfo
                        (DebugText (lit "Received evaluation response: "
                                      ++ substring0 100 text ++ lit "..."))
                        (ui w))))))
         (sent w))
      stored (remove_nth n tasks).
Proof.
  intros Ht Hg Hp. cbn [step inflight world saved]. rewrite Ht.
  unfold_resume. rewrite Hg. unfold_run. cbn [fst snd]. rewrite Hp. reflexivity.
Qed.

(** X6. An evaluation in flight is not cancelled by a new generation. When
    the evaluate button is clicked for idea [A], the generate button is
    clicked before the reply arrives, the generation completes and the
    evaluation reply arrives last, the page ends with the new idea in the
    idea slot and, shown beside it, the evaluation that was requested for
    [A]. The page is one that renders, so that its buttons can be clicked. *)
Theorem overtaken_evaluation_is_shown (ce : JsError) (h1 h2 : Host) (w : World)
    (stored : option jsstring) (A : Idea) (ok text reply : jsstring)
    (data evaluationData : json) :
  currentIdea (ui w) = Some A ->
  render_throws (ui w) = false ->
  is_empty (trim (apiKey (ui w))) = false ->
  isGenerating (ui w) = false ->
  isEvaluating (ui w) = false ->
  gateway h1 (TestRequest (trim (apiKey (ui w)))) = inr ok ->
  gateway h1 (IdeaRequest (trim (apiKey (ui w))) (selectedCategory (ui w))) = inr text ->
  parse_idea h1 text = inr data ->
  gateway h2 (EvaluationRequest (trim (apiKey (ui w))) A) = inr reply ->
  parse_evaluation h2 reply = inr evaluationData ->
  let p := run ce (idle_page w stored)
             [ClickEvaluate; ClickGenerate; Settle 1 h1; Settle 1 h1; Settle 0 h2] in
  currentIdea (ui (world p)) = Some (idea_of h1 data) /\
  evaluation (ui (world p)) = Some (evaluation_of evaluationData) /\
  showEvaluation (ui (world p)) = true /\
  sent (world p)
  = sent w ++ [EvaluationRequest (trim (apiKey (ui w))) A;
               TestRequest (trim (apiKey (ui w)));
               IdeaRequest (trim (apiKey (ui w))) (selectedCategory (ui w))] /\
  inflight p = [].
Proof.
  intros HiA Hrender.
  pose proof (rendered_idea_printable (ui w) A HiA Hrender) as HA.
  revert HiA. clear Hrender.
  destruct w as [st out].
  destruct st as [idea ev shown key temp dialog gen evl err cat dbg].
  cbn [ui currentIdea apiKey isGenerating isEvaluating selectedCategory sent].
  intros -> Hkey -> -> Ht Hi Hp He Hq.
  unfold run, idle_page. cbn [fold_left].
  rewrite click_evaluate_starts with (idea := A)
    by first [reflexivity | assumption].
  state_cbn.
  rewrite click_generate_starts by first [reflexivity | assumption].
  state_cbn.
  rewrite settle_test_succeeds with (key := key) (selected := cat) (ok := ok)
    by first [reflexivity | assumption].
  state_cbn.
  rewrite settle_idea_succeeds
    with (key := key) (selected := cat) (text := text) (data := data)
    by first [reflexivity | assumption].
  state_cbn.
  rewrite settle_evaluation_succeeds
    with (key := key) (idea := A) (text := reply) (data := evaluationData)
    by first [reflexivity | assumption].
  state_cbn.
  rewrite <- !app_assoc. repeat split.
Qed.

(** The evaluation of the first idea is overtaken by a second generation and
    ends up beside the second idea. *)
Lemma overtaken_evaluation_is_shown_witness :
  currentIdea evaluated_state = Some sample_idea /\
  currentIdea
    (ui (world (run v8_conversion_error (idle_page (mkWorld evaluated_state []) None)
                  [ClickEvaluate; ClickGenerate;
                   Settle 1 (replying_host sample_idea_text);
                   Settle 1 (replying_host sample_idea_text);
                   Settle 0 (replying_host (evaluation_text (lit "4")))])))
  = Some (idea_of (replying_host sample_idea_text) (parsed sample_idea_text)) /\
  evaluation
    (ui (world (run v8_conversion_error (idle_page (mkWorld evaluated_state []) None)
                  [ClickEvaluate; ClickGenerate;
                   Settle 1 (replying_host sample_idea_text);
                   Settle 1 (replying_host sample_idea_text);
                   Settle 0 (replying_host (evaluation_text (lit "4")))])))
  = Some (evaluation_of (parsed (evaluation_text (lit "4")))).
Proof.
  split; [reflexivity|].
  destruct (overtaken_evaluation_is_shown v8_conversion_error
              (replying_host sample_idea_text)
              (replying_host (evaluation_text (lit "4")))
              (mkWorld evaluated_state []) None sample_idea
              (lit "API connection successful") sample_idea_text
              (evaluation_text (lit "4"))
              (parsed sample_idea_text) (parsed (evaluation_text (lit "4")))
              eq_refl eq_refl eq_refl eq_refl eq_refl eq_refl eq_refl
              ltac:(vm_compute; reflexivity) eq_refl
              ltac:(vm_compute; reflexivity))
    as (Hi & He & _).
  split; [exact Hi | exact He].
Defined.

(** ** The saved key *)

(** X7. A key typed into the dialog and saved is stored trimmed, whether or
    not it starts with [AIza]; after a reload it is the key in use again and
    passes the guard of both handlers, while the idea, the evaluation and
    whatever was in flight are gone. The page is one that renders, with the
    dialog open. *)
Theorem saved_key_survives_reload (ce : JsError) (p : Page) (value : jsstring) :
  render_throws (ui (world p)) = false ->
  showApiKeyInput (ui (world p)) = true ->
  is_empty (trim value) = false ->
  saved (run ce p [TypeKey value; ClickSave]) = Some (trim value) /\
  apiKey (ui (world (run ce p [TypeKey value; ClickSave]))) = trim value /\
  showApiKeyInput (ui (world (run ce p [TypeKey value; ClickSave]))) = false /\
  ui (world (run ce p [TypeKey value; ClickSave; Reload]))
  = setApiKey (trim value) initial_state /\
  is_empty (trim (apiKey (ui (world (run ce p [TypeKey value; ClickSave; Reload])))))
  = false /\
  inflight (run ce p [TypeKey value; ClickSave; Reload]) = [].
Proof.
  destruct p as [[st out] stored tasks].
  destruct st as [idea ev shown key temp dialog gen evl err cat dbg].
  cbn [world ui showApiKeyInput]. intros _ -> Hv.
  unfold run. page_cbn.
  unfold saveApiKey, saveApiKey_storage. page_cbn. rewrite Hv. page_cbn.
  unfold load_saved_key. rewrite Hv. page_cbn.
  rewrite trim_idempotent, Hv. repeat split.
Qed.

(** A key that does not start with [AIza], typed with blanks around it. *)
Lemma saved_key_survives_reload_witness :
  prefix_advisory (setTempApiKey (lit " my-key ") initial_state) = true /\
  apiKey (ui (world (run v8_conversion_error (with_state openConfigure (boot None))
                       [TypeKey (lit " my-key "); ClickSave; Reload])))
  = lit "my-key".
Proof.
  split; [reflexivity|].
  destruct (saved_key_survives_reload v8_conversion_error (with_state openConfigure (boot None))
              (lit " my-key ") eq_refl eq_refl eq_refl) as (_ & _ & _ & H & _).
  rewrite H. reflexivity.
Defined.

(** ** Prose and fences around the object *)

Section Prose.

Lemma trimStart_incl (s : jsstring) : incl (trimStart s) s.
Proof.
  induction s as [|c s IH]; cbn [trimStart]; [apply incl_refl|].
  destruct (is_js_whitespace c); [now apply incl_tl|apply incl_refl].
Qed.

Lemma trimEnd_incl (s : jsstring) : incl (trimEnd s) s.
Proof.
  unfold trimEnd. intros x Hx. apply in_rev in Hx.
  apply trimStart_incl in Hx. now apply in_rev.
Qed.

Lemma trimStart_before (pre : jsstring) (c : N) (r : jsstring) :
  is_js_whitespace c = false ->
  trimStart (pre ++ c :: r) = trimStart pre ++ c :: r.
Proof.
  intros H. induction pre as [|d pre IH]; cbn [trimStart app].
  - now rewrite H.
  - destruct (is_js_whitespace d); [exact IH|reflexivity].
Qed.

Lemma trimEnd_after (x : jsstring) (c : N) (post : jsstring) :
  is_js_whitespace c = false ->
  trimEnd (x ++ c :: post) = x ++ c :: trimEnd post.
Proof.
  intros H. unfold trimEnd.
  rewrite rev_app_distr. cbn [rev]. rewrite <- app_assoc. cbn [app].
  rewrite (trimStart_before _ _ _ H), rev_app_distr. cbn [rev].
  rewrite rev_involutive, <- app_assoc. reflexivity.
Qed.

Lemma startsWith_within (pat a : jsstring) (c : N) (r : jsstring) :
  ~ In c pat -> startsWith (a ++ c :: r) pat = true -> exists a', a = pat ++ a'.
Proof.
  revert a. induction pat as [|p pat IH]; intros a Hc H.
  - now exists a.
  - destruct a as [|x a]; cbn [app startsWith] in H;
      apply andb_prop in H as [Hx H]; apply N.eqb_eq in Hx.
    + exfalso. apply Hc. left. now symmetry.
    + subst x. destruct (IH a) as [a' ->]; [|assumption|now exists a'].
      intros Hin. apply Hc. now right.
Qed.

Lemma drop_newline_before (a : jsstring) (c : N) (r : jsstring) :
  c <> LF -> drop_newline (a ++ c :: r) = drop_newline a ++ c :: r.
Proof.
  intros H. destruct a as [|d a]; cbn [app drop_newline].
  - destruct (N.eqb_spec c LF); [contradiction|reflexivity].
  - now destruct (N.eqb d LF).
Qed.

Lemma drop_newline_incl (a : jsstring) : incl (drop_newline a) a.
Proof.
  destruct a as [|d a]; cbn [drop_newline]; [apply incl_refl|].
  destruct (N.eqb d LF); [apply incl_tl|]; apply incl_refl.
Qed.

Lemma close_fence_here_brace (a post : jsstring) :
  close_fence_here (a ++ RBRACE :: post) = false.
Proof.
  unfold close_fence_here. apply orb_false_intro.
  - apply str_eqb_neq. intros E.
    assert (In RBRACE (LF :: FENCE)) as X
      by (rewrite <- E; apply in_elt).
    vm_compute in X. intuition discriminate.
  - apply str_eqb_neq. intros E.
    assert (In RBRACE FENCE) as X by (rewrite <- E; apply in_elt).
    vm_compute in X. intuition discriminate.
Qed.

Lemma replace_close_fence_after (a post : jsstring) :
  replace_close_fence (a ++ RBRACE :: post)
  = a ++ RBRACE :: replace_close_fence post.
Proof.
  induction a as [|c a IH].
  - pose proof (close_fence_here_brace [] post) as H. cbn [app] in *.
    cbn [replace_close_fence]. now rewrite H.
  - pose proof (close_fence_here_brace (c :: a) post) as H. cbn [app] in *.
    cbn [replace_close_fence]. now rewrite H, IH.
Qed.

Lemma replace_close_fence_incl (s : jsstring) : incl (replace_close_fence s) s.
Proof.
  induction s as [|c s IH]; cbn [replace_close_fence].
  - destruct (close_fence_here []); apply incl_refl.
  - destruct (close_fence_here (c :: s)); [apply incl_nil_l|].
    intros x [<-|Hx]; [now left|right; now apply IH].
Qed.

(** Removing a marker at the start and a fence at the end leaves the object
    in place, between what is left of the text before and after it. *)
Lemma fence_removed_around (marker pre mid post : jsstring) :
  ~ In LBRACE marker ->
  startsWith (pre ++ LBRACE :: mid ++ RBRACE :: post) marker = true ->
  exists pre' post',
    replace_close_fence
      (replace_open_fence marker (pre ++ LBRACE :: mid ++ RBRACE :: post))
    = pre' ++ LBRACE :: mid ++ RBRACE :: post' /\
    incl pre' pre /\ incl post' post.
Proof.
  intros Hm Hs.
  rewrite (replace_open_fence_at_start _ _ Hs). unfold without_opening_fence.
  destruct (startsWith_within marker pre LBRACE _ Hm Hs) as [pre2 ->].
  rewrite <- app_assoc, skipn_prefix.
  rewrite drop_newline_before by discriminate.
  exists (drop_newline pre2), (replace_close_fence post).
  split; [|split].
  - change (drop_newline pre2 ++ LBRACE :: mid ++ RBRACE :: post)
      with (drop_newline pre2 ++ (LBRACE :: mid) ++ RBRACE :: post).
    rewrite app_assoc, replace_close_fence_after, <- app_assoc. reflexivity.
  - apply incl_appr, drop_newline_incl.
  - apply replace_close_fence_incl.
Qed.

Lemma cleaned_around (pre mid post : jsstring) :
  exists pre' post',
    clean_response (pre ++ LBRACE :: mid ++ RBRACE :: post)
    = pre' ++ LBRACE :: mid ++ RBRACE :: post' /\
    incl pre' pre /\ incl post' post.
Proof.
  unfold clean_response, trim.
  rewrite trimStart_before by reflexivity.
  change (trimStart pre ++ LBRACE :: mid ++ RBRACE :: post)
    with (trimStart pre ++ (LBRACE :: mid) ++ RBRACE :: post).
  rewrite app_assoc, trimEnd_after by reflexivity.
  rewrite <- app_assoc. cbn [app].
  unfold strip_fences.
  destruct (startsWith _ FENCE_JSON) eqn:E1.
  - destruct (fence_removed_around FENCE_JSON (trimStart pre) mid (trimEnd post))
      as (pre' & post' & -> & Hpre & Hpost);
      [vm_compute; intuition discriminate|assumption|].
    exists pre', post'. split; [reflexivity|]. split.
    + eapply incl_tran; [exact Hpre|apply trimStart_incl].
    + eapply incl_tran; [exact Hpost|apply trimEnd_incl].
  - destruct (startsWith _ FENCE) eqn:E2.
    + destruct (fence_removed_around FENCE (trimStart pre) mid (trimEnd post))
        as (pre' & post' & -> & Hpre & Hpost);
        [vm_compute; intuition discriminate|assumption|].
      exists pre', post'. split; [reflexivity|]. split.
      * eapply incl_tran; [exact Hpre|apply trimStart_incl].
      * eapply incl_tran; [exact Hpost|apply trimEnd_incl].
    + exists (trimStart pre), (trimEnd post).
      split; [reflexivity|]. split; [apply trimStart_incl|apply trimEnd_incl].
Qed.

Lemma object_located_in_prose (pre mid post : jsstring) :
  ~ In LBRACE pre -> ~ In RBRACE post ->
  match_json_object (clean_response (pre ++ LBRACE :: mid ++ RBRACE :: post))
  = Some (LBRACE :: mid ++ [RBRACE]).
Proof.
  intros Hpre Hpost.
  destruct (cleaned_around pre mid post) as (pre' & post' & -> & Ha & Hb).
  apply match_json_object_span.
  - intros H. apply Hpre, Ha, H.
  - intros H. apply Hpost, Hb, H.
Qed.

End Prose.

(** X9. Text around the object does not change the outcome of either
    pipeline: when what precedes the object holds no opening brace and what
    follows it holds no closing brace (prose, white space, a fence of either
    kind), the pipeline returns what it returns for the object alone, be it
    the record or an error. *)
Theorem prose_around_object_ignored (h : Host) (pre mid post : jsstring) :
  ~ In LBRACE pre -> ~ In RBRACE post ->
  match_json_object (clean_response (pre ++ LBRACE :: mid ++ RBRACE :: post))
  = Some (LBRACE :: mid ++ [RBRACE]) /\
  parse_idea h (pre ++ LBRACE :: mid ++ RBRACE :: post)
  = parse_idea h (LBRACE :: mid ++ [RBRACE]) /\
  parse_evaluation h (pre ++ LBRACE :: mid ++ RBRACE :: post)
  = parse_evaluation h (LBRACE :: mid ++ [RBRACE]).
Proof.
  intros Hpre Hpost.
  pose proof (object_located_in_prose pre mid post Hpre Hpost) as H1.
  pose proof (object_located_in_prose [] mid [] (fun x => x) (fun x => x)) as H2.
  cbn [app] in H2.
  split; [exact H1|].
  unfold parse_idea, parse_evaluation, parse_response.
  now rewrite H1, H2.
Qed.

(** A fenced reply with a closing remark gives the idea of the object alone. *)
Lemma prose_around_object_ignored_witness :
  parse_idea (replying_host [])
    ((FENCE_JSON ++ [LF]) ++ sample_idea_text ++ LF :: FENCE ++ lit " Good luck!")
  = inr (parsed sample_idea_text).
Proof.
  assert (~ In LBRACE (FENCE_JSON ++ [LF])) as Hpre
    by (vm_compute; intuition discriminate).
  assert (~ In RBRACE (LF :: FENCE ++ lit " Good luck!")) as Hpost
    by (vm_compute; intuition discriminate).
  destruct (prose_around_object_ignored (replying_host [])
              (FENCE_JSON ++ [LF])
              (join_commas
                 [member "title" (str "PayLeaf");
                  member "description" (str "Carbon-aware payments");
                  member "category" (str "FinTech");
                  member "targetMarket" (str "Small shops");
                  member "problem" (str "Opaque footprint");
                  member "solution" (str "Per-transaction offsets")])
              (LF :: FENCE ++ lit " Good luck!") Hpre Hpost) as (_ & H & _).
  unfold sample_idea_text, object_text.
  cbn [app] in H |- *. rewrite <- app_assoc. cbn [app].
  etransitivity; [exact H|]. vm_compute. reflexivity.
Defined.

(** ** A successful evaluation *)

(** X10. From any state with a key and an idea whose fields convert to
    strings, an evaluation round trip that succeeds stores the record built
    from the twelve required fields of the validated reply, none of them
    [null] or missing, shows the panel, lowers the flag and leaves the error
    slot empty and the idea in place. *)
Theorem evaluation_success_stores_record (ce : JsError) (h : Host) (w w' : World)
    (idea : Idea) :
  currentIdea (ui w) = Some idea ->
  printable_idea idea = true ->
  is_empty (trim (apiKey (ui w))) = false ->
  evaluate_try h (apiKey (ui w)) idea (evaluate_started w) = (inr tt, w') ->
  exists text data,
    gateway h (EvaluationRequest (trim (apiKey (ui w))) idea) = inr text /\
    parse_evaluation h text = inr data /\
    (forall f, In f evaluation_requiredFields ->
               not_nullish (get_field data f) = true) /\
    evaluation (ui (evaluate_handler ce h w)) = Some (evaluation_of data) /\
    showEvaluation (ui (evaluate_handler ce h w)) = true /\
    isEvaluating (ui (evaluate_handler ce h w)) = false /\
    error (ui (evaluate_handler ce h w)) = [] /\
    currentIdea (ui (evaluate_handler ce h w)) = Some idea.
Proof.
  intros Hi Hprint Hkey Hrun.
  unfold evaluate_handler. rewrite Hi, Hkey, Hprint.
  rewrite (evaluateAIIdea_unguarded h w idea Hi Hkey).
  unfold try_catch_finally. rewrite Hrun. revert Hrun.
  unfold_run. cbn.
  destruct (gateway h (EvaluationRequest (trim (apiKey (ui w))) idea))
    as [e|text]; cbn; [discriminate|].
  destruct (parse_evaluation h text) as [e|data] eqn:Hp; cbn; [discriminate|].
  intros [= <-]. exists text, data. cbn.
  repeat split; try assumption.
  revert Hp. unfold parse_evaluation, parse_response.
  destruct (match_json_object (clean_response text)) as [m|]; [|discriminate].
  destruct (JSON_parse m) as [d|p]; [|discriminate].
  destruct (first_missing not_nullish d evaluation_requiredFields) eqn:E;
    [discriminate|].
  intros [= <-].
  exact (first_missing_none_inv not_nullish d evaluation_requiredFields E).
Qed.

(** An evaluation of the sample idea. *)
Lemma evaluation_success_stores_record_witness :
  evaluation
    (ui (evaluate_handler v8_conversion_error
           (replying_host (evaluation_text (lit "4")))
           (mkWorld (setEvaluation None evaluated_state) [])))
  = Some (evaluation_of (parsed (evaluation_text (lit "4")))) /\
  showEvaluation
    (ui (evaluate_handler v8_conversion_error
           (replying_host (evaluation_text (lit "4")))
           (mkWorld (setEvaluation None evaluated_state) [])))
  = true.
Proof.
  destruct (evaluation_success_stores_record v8_conversion_error
              (replying_host (evaluation_text (lit "4")))
              (mkWorld (setEvaluation None evaluated_state) [])
              (snd (evaluate_try (replying_host (evaluation_text (lit "4")))
                      (apiKey evaluated_state) sample_idea
                      (evaluate_started
                         (mkWorld (setEvaluation None evaluated_state) []))))
              sample_idea eq_refl eq_refl eq_refl ltac:(vm_compute; reflexivity))
    as (text & data & Hg & Hp & _ & He & Hs & _).
  assert (data = parsed (evaluation_text (lit "4"))) as ->.
  { assert (text = evaluation_text (lit "4")) as -> by (now injection Hg).
    assert (parse_evaluation (replying_host (evaluation_text (lit "4")))
              (evaluation_text (lit "4"))
            = inr (parsed (evaluation_text (lit "4")))) as X
      by (vm_compute; reflexivity).
    rewrite X in Hp. now injection Hp. }
  split; [exact He | exact Hs].
Defined.

(** ** The requests of a round trip *)

(** X11. A generation sends the connection test and, only when the test
    succeeded, one generation request; an evaluation sends one request,
    unless the idea cannot be put into the prompt. A blocked handler sends
    nothing, and no failure, of the gateway or of the parsing, makes a
    handler send a request again. All requests carry the trimmed key. *)
Theorem requests_of_a_round_trip (ce : JsError) (h : Host) (w : World) :
  sent (generateAIIdea h w)
  = sent w ++
    (if is_empty (trim (apiKey (ui w))) then []
     else TestRequest (trim (apiKey (ui w))) ::
          match gateway h (TestRequest (trim (apiKey (ui w)))) with
          | inl _ => []
          | inr _ => [IdeaRequest (trim (apiKey (ui w))) (selectedCategory (ui w))]
          end) /\
  sent (evaluate_handler ce h w)
  = sent w ++
    match currentIdea (ui w) with
    | None => []
    | Some idea =>
        if is_empty (trim (apiKey (ui w))) then []
        else if printable_idea idea then
          [EvaluationRequest (trim (apiKey (ui w))) idea]
        else []
    end.
Proof.
  split.
  - unfold generateAIIdea.
    destruct (is_empty (trim (apiKey (ui w)))); cbn [sent];
      [now rewrite app_nil_r|].
    unfold_run. cbn.
    destruct (gateway h (TestRequest (trim (apiKey (ui w))))) as [e|t]; cbn;
      [reflexivity|].
    destruct (gateway h (IdeaRequest (trim (apiKey (ui w))) (selectedCategory (ui w))))
      as [e|text]; cbn; [now rewrite <- app_assoc|].
    destruct (parse_idea h text) as [e|data]; cbn; now rewrite <- app_assoc.
  - unfold evaluate_handler, evaluateAIIdea.
    destruct (currentIdea (ui w)) as [idea|]; [|now rewrite app_nil_r].
    destruct (is_empty (trim (apiKey (ui w)))); [now rewrite app_nil_r|].
    destruct (printable_idea idea); [|cbn [sent]; now rewrite app_nil_r].
    unfold_run. cbn.
    destruct (gateway h (EvaluationRequest (trim (apiKey (ui w))) idea))
      as [e|text]; cbn; [reflexivity|].
    destruct (parse_evaluation h text) as [e|data]; cbn; reflexivity.
Qed.

(** ** A failed connection test *)

Section Markers.

Lemma startsWith_app_or (pat a m : jsstring) :
  startsWith (a ++ m) pat = true ->
  startsWith a pat = true \/ startsWith pat a = true.
Proof.
  revert a. induction pat as [|p pat IH]; intros a H.
  - now left.
  - destruct a as [|x a].
    + now right.
    + cbn [app startsWith] in *. apply andb_prop in H as [Hx H].
      rewrite Hx. apply N.eqb_eq in Hx. subst x. rewrite N.eqb_refl.
      cbn [andb]. now apply IH.
Qed.

Lemma includes_after_clear (pat a m : jsstring) :
  clear_of pat a = true -> includes (a ++ m) pat = includes m pat.
Proof.
  induction a as [|c a IH]; intros H; [reflexivity|].
  cbn [clear_of] in H.
  apply andb_prop in H as [H Hr]. apply andb_prop in H as [H1 H2].
  apply negb_true_iff in H1, H2.
  cbn [app includes]. rewrite (IH Hr).
  destruct (startsWith (c :: a ++ m) pat) eqn:E; [|reflexivity].
  destruct (startsWith_app_or pat (c :: a) m E); congruence.
Qed.

Lemma includes_startsWith (s pat : jsstring) :
  startsWith s pat = true -> includes s pat = true.
Proof. intros H. destruct s; cbn [includes]; now rewrite H. Qed.

Lemma includes_app_right (a m pat : jsstring) :
  includes m pat = true -> includes (a ++ m) pat = true.
Proof.
  intros H. induction a as [|c a IH]; [exact H|].
  cbn [app includes]. rewrite IH. apply orb_true_r.
Qed.

Lemma remove_first_prefix (pat m : jsstring) : remove_first pat (pat ++ m) = m.
Proof.
  destruct (pat ++ m) as [|c s] eqn:E.
  - apply app_eq_nil in E as [-> ->]. reflexivity.
  - cbn [remove_first]. rewrite <- E, startsWith_app. apply skipn_prefix.
Qed.

End Markers.

(** X12. When the connection test fails, no generation request is made, the
    idea and the evaluation stay, and the error slot names the reason: the
    message of the gateway, word for word, behind [Failed to generate idea.]
    when it holds none of the four markers, and the invalid-key text when it
    holds [API_KEY_INVALID]. An error without a message reads
    [Unknown error]. *)
Theorem failed_connection_test_reported (h : Host) (w : World) (err : JsError) :
  is_empty (trim (apiKey (ui w))) = false ->
  gateway h (TestRequest (trim (apiKey (ui w)))) = inl err ->
  sent (generateAIIdea h w) = sent w ++ [TestRequest (trim (apiKey (ui w)))] /\
  currentIdea (ui (generateAIIdea h w)) = currentIdea (ui w) /\
  evaluation (ui (generateAIIdea h w)) = evaluation (ui w) /\
  isGenerating (ui (generateAIIdea h w)) = false /\
  (Forall (fun marker => includes (message_or err (lit "Unknown error")) marker = false)
     error_markers ->
   error (ui (generateAIIdea h w))
   = lit "Failed to generate idea. " ++ message_or err (lit "Unknown error")) /\
  (includes (message_or err (lit "Unknown error")) (lit "API_KEY_INVALID") = true ->
   error (ui (generateAIIdea h w))
   = lit "Failed to generate idea. " ++ INVALID_KEY_TEXT).
Proof.
  intros Hkey Hg.
  unfold generateAIIdea. rewrite Hkey.
  unfold_run. cbn. rewrite Hg. cbn.
  repeat split.
  - intros Hm. unfold error_markers in Hm.
    inversion_clear Hm as [|? ? M1 Hm1]. inversion_clear Hm1 as [|? ? M2 Hm2].
    inversion_clear Hm2 as [|? ? M3 Hm3]. inversion_clear Hm3 as [|? ? M4 _].
    unfold generate_errorMessage, message_includes, new_Error. cbn [err_message].
    rewrite !includes_after_clear by (vm_compute; reflexivity).
    rewrite M1, M2, M3, M4.
    rewrite (includes_startsWith _ (lit "API Connection Failed"))
      by (change (lit "API Connection Failed: ")
            with (lit "API Connection Failed" ++ lit ": ");
          rewrite <- app_assoc; apply startsWith_app).
    now rewrite remove_first_prefix.
  - intros Hm.
    unfold generate_errorMessage, message_includes, new_Error. cbn [err_message].
    now rewrite (includes_app_right _ _ _ Hm).
Qed.

(** A gateway that does not know the model. *)
Lemma failed_connection_test_reported_witness :
  error (ui (generateAIIdea
               (sample_host (inl (new_Error (lit "model not found"))) (inr []))
               (mkWorld evaluated_state [])))
  = lit "Failed to generate idea. model not found".
Proof.
  destruct (failed_connection_test_reported
              (sample_host (inl (new_Error (lit "model not found"))) (inr []))
              (mkWorld evaluated_state [])
              (new_Error (lit "model not found")) eq_refl eq_refl)
    as (_ & _ & _ & _ & H & _).
  rewrite H; [reflexivity|].
  repeat (constructor; [vm_compute; reflexivity|]). constructor.
Defined.

(** ** Clearing the key while a generation is in flight *)

(** X8. Clearing the key empties the slot and the storage entry but does not
    reach a generation that is suspended at its connection test: when the
    test then succeeds, the generation request is sent with the key the
    handler was started with. The page is one that renders, with the dialog
    open and a key to clear. *)
Theorem cleared_key_used_in_flight (ce : JsError) (h : Host) (p : Page) (n : nat)
    (key selected ok : jsstring) :
  render_throws (ui (world p)) = false ->
  showApiKeyInput (ui (world p)) = true ->
  is_empty (apiKey (ui (world p))) = false ->
  nth_error (inflight p) n = Some (AwaitingTest key selected) ->
  gateway h (TestRequest (trim key)) = inr ok ->
  saved (run ce p [ClickClear; Settle n h]) = None /\
  apiKey (ui (world (run ce p [ClickClear; Settle n h]))) = [] /\
  sent (world (run ce p [ClickClear; Settle n h]))
  = sent (world p) ++ [IdeaRequest (trim key) selected] /\
  inflight (run ce p [ClickClear; Settle n h])
  = remove_nth n (inflight p) ++ [AwaitingIdea key selected].
Proof.
  destruct p as [[st out] stored tasks].
  destruct st as [idea ev shown k temp dialog gen evl err cat dbg].
  cbn [world ui showApiKeyInput apiKey inflight sent].
  intros _ -> Hk Ht Hg.
  unfold run. page_cbn. rewrite Hk. page_cbn. rewrite Ht.
  unfold_resume. rewrite Hg. unfold_run. unfold clearApiKey. page_cbn.
  repeat split.
Qed.

(** A generation is started, the dialog is opened and the key cleared; the
    generation request still goes out with the key. *)
Lemma cleared_key_used_in_flight_witness :
  apiKey (ui (world (run v8_conversion_error
                       (run v8_conversion_error (boot (Some (lit "AIzaSyExampleKey")))
                          [ClickGenerate; ClickConfigure])
                       [ClickClear; Settle 0 (replying_host sample_idea_text)])))
  = [] /\
  sent (world (run v8_conversion_error
                 (run v8_conversion_error (boot (Some (lit "AIzaSyExampleKey")))
                    [ClickGenerate; ClickConfigure])
                 [ClickClear; Settle 0 (replying_host sample_idea_text)]))
  = sent (world (run v8_conversion_error (boot (Some (lit "AIzaSyExampleKey")))
                   [ClickGenerate; ClickConfigure]))
    ++ [IdeaRequest (trim (lit "AIzaSyExampleKey")) []].
Proof.
  destruct (cleared_key_used_in_flight v8_conversion_error
              (replying_host sample_idea_text)
              (run v8_conversion_error (boot (Some (lit "AIzaSyExampleKey")))
                 [ClickGenerate; ClickConfigure])
              0 (lit "AIzaSyExampleKey") [] (lit "API connection successful")
              ltac:(vm_compute; reflexivity) ltac:(vm_compute; reflexivity)
              ltac:(vm_compute; reflexivity) ltac:(vm_compute; reflexivity)
              ltac:(vm_compute; reflexivity)) as (_ & Hk & Hs & _).
  split; [exact Hk | exact Hs].
Defined.

(** ** The colours and labels of the scores *)

Section Scores.

Import PrimFloat.

Lemma SFleb_trans (x y z : SpecFloat.spec_float) :
  SpecFloat.SFleb x y = true -> SpecFloat.SFleb y z = true ->
  SpecFloat.SFleb x z = true.
Proof.
  unfold SpecFloat.SFleb.
  destruct x as [sx|sx| |sx mx ex], y as [sy|sy| |sy my ey], z as [sz|sz| |sz mz ez];
    cbn [SpecFloat.SFcompare]; try discriminate; try reflexivity;
    try (destruct sx, sy, sz; cbn; congruence);
    try (destruct sx, sy; cbn; congruence);
    try (destruct sy, sz; cbn; congruence);
    try (destruct sx, sz; cbn; congruence).
  all: destruct sx, sy, sz; try discriminate; try reflexivity.
  all: change (Pos.compare_cont Eq) with Pos.compare.
  all: destruct (Z.compare_spec ex ey), (Z.compare_spec ey ez), (Z.compare_spec ex ez);
       try discriminate; try reflexivity; try lia; subst.
  all: destruct (Pos.compare_spec mx my), (Pos.compare_spec my mz),
         (Pos.compare_spec mx mz);
       cbn; try discriminate; try reflexivity; try lia.
Qed.

Lemma at_least_trans (value bound lower : float) :
  at_least bound lower = true -> at_least value bound = true ->
  at_least value lower = true.
Proof.
  unfold at_least. rewrite !FloatAxioms.leb_spec. apply SFleb_trans.
Qed.

(** A larger score is at least what a smaller score is at least. *)
Lemma at_least_mono (a b bound : float) :
  leb a b = true -> at_least a bound = true -> at_least b bound = true.
Proof.
  unfold at_least. rewrite !FloatAxioms.leb_spec.
  intros Hab Ha. exact (SFleb_trans _ _ _ Ha Hab).
Qed.

Lemma SFcompare_refl (x : SpecFloat.spec_float) :
  x <> SpecFloat.S754_nan -> SpecFloat.SFcompare x x = Some Eq.
Proof.
  destruct x as [s|s| |s m e]; cbn [SpecFloat.SFcompare]; intros H.
  - reflexivity.
  - now destruct s.
  - contradiction.
  - rewrite Z.compare_refl. change (Pos.compare_cont Eq m m) with (Pos.compare m m).
    rewrite Pos.compare_refl. now destruct s.
Qed.

Lemma NaN_at_least_nothing (x bound : float) :
  is_NaN x = true -> at_least x bound = false.
Proof.
  unfold is_NaN, at_least.
  rewrite FloatAxioms.eqb_spec, FloatAxioms.leb_spec.
  unfold SpecFloat.SFeqb, SpecFloat.SFleb.
  destruct (FloatOps.Prim2SF x) as [s|s| |s m e] eqn:E; intros H.
  - rewrite SFcompare_refl in H by discriminate. discriminate.
  - rewrite SFcompare_refl in H by discriminate. discriminate.
  - now destruct (FloatOps.Prim2SF bound).
  - rewrite SFcompare_refl in H by discriminate. discriminate.
Qed.

(** X13. The label and the colour of the overall score follow the order of
    the scores: a score that is at least another never gets a worse label
    or colour. They agree with each other: green goes with [Excellent],
    yellow with [Good], red with [Fair] and [Needs Work]. A score that is
    not a number is shown with [Needs Work] in red. *)
Theorem score_label_follows_score :
  (forall a b,
     PrimFloat.leb a b = true ->
     label_rank (getScoreLabel a) <= label_rank (getScoreLabel b) /\
     colour_rank (getScoreColor a) <= colour_rank (getScoreColor b)) /\
  (forall s,
     (getScoreColor s = lit "text-green-600" <-> getScoreLabel s = lit "Excellent") /\
     (getScoreColor s = lit "text-yellow-600" <-> getScoreLabel s = lit "Good") /\
     (getScoreColor s = lit "text-red-600" <->
      getScoreLabel s = lit "Fair" \/ getScoreLabel s = lit "Needs Work")) /\
  (forall s,
     is_NaN s = true ->
     getScoreLabel s = lit "Needs Work" /\ getScoreColor s = lit "text-red-600").
Proof.
  split; [|split].
  - intros a b H.
    pose proof (at_least_mono a b 80%float H) as H80.
    pose proof (at_least_mono a b 60%float H) as H60.
    pose proof (at_least_mono a b 40%float H) as H40.
    unfold getScoreLabel, getScoreColor.
    destruct (at_least a 80%float), (at_least a 60%float), (at_least a 40%float);
      try rewrite (H80 eq_refl); try rewrite (H60 eq_refl);
      try rewrite (H40 eq_refl);
      destruct (at_least b 80%float), (at_least b 60%float), (at_least b 40%float);
      vm_compute; split; lia.
  - intros s. unfold getScoreLabel, getScoreColor.
    destruct (at_least s 80%float), (at_least s 60%float), (at_least s 40%float);
      (split; [|split]); split; intros H;
      try reflexivity; try (vm_compute in H; discriminate);
      try (now left); try (now right);
      destruct H as [H|H]; vm_compute in H; discriminate.
  - intros s H. unfold getScoreLabel, getScoreColor.
    now rewrite !(NaN_at_least_nothing s _ H).
Qed.

Lemma rating_steps :
  at_least 2%float 1%float = true /\ at_least 3%float 2%float = true /\
  at_least 4%float 3%float = true /\ at_least 5%float 4%float = true.
Proof. repeat split; reflexivity. Qed.

(** X14. The dots beside a criterion fill from the left, never fewer for a
    larger value, and the colour of the figure goes with them: green exactly
    when at least four dots are filled, yellow when exactly three are, red
    when at most two are. A value that is not a number fills no dot. *)
Theorem criterion_dots_and_colour :
  (forall value,
     exists k, k <= 5 /\ filled_dots value = repeat true k ++ repeat false (5 - k)) /\
  (forall a b,
     PrimFloat.leb a b = true ->
     count_filled (filled_dots a) <= count_filled (filled_dots b)) /\
  (forall value,
     (getCriteriaColor value = lit "text-green-600"
      <-> 4 <= count_filled (filled_dots value)) /\
     (getCriteriaColor value = lit "text-yellow-600"
      <-> count_filled (filled_dots value) = 3) /\
     (getCriteriaColor value = lit "text-red-600"
      <-> count_filled (filled_dots value) <= 2)) /\
  (forall value, is_NaN value = true -> count_filled (filled_dots value) = 0).
Proof.
  destruct rating_steps as (S1 & S2 & S3 & S4).
  assert (forall v,
             (at_least v 2%float = true -> at_least v 1%float = true) /\
             (at_least v 3%float = true -> at_least v 2%float = true) /\
             (at_least v 4%float = true -> at_least v 3%float = true) /\
             (at_least v 5%float = true -> at_least v 4%float = true)) as Down.
  { intros v. repeat split; apply at_least_trans; assumption. }
  split; [|split; [|split]].
  - intros value. destruct (Down value) as (D1 & D2 & D3 & D4).
    unfold filled_dots, ratings. cbn [map].
    destruct (at_least value 5%float);
      [rewrite (D4 eq_refl), (D3 (D4 eq_refl)), (D2 (D3 (D4 eq_refl))),
         (D1 (D2 (D3 (D4 eq_refl)))); exists 5; split; [lia|reflexivity]|].
    destruct (at_least value 4%float);
      [rewrite (D3 eq_refl), (D2 (D3 eq_refl)), (D1 (D2 (D3 eq_refl)));
       exists 4; split; [lia|reflexivity]|].
    destruct (at_least value 3%float);
      [rewrite (D2 eq_refl), (D1 (D2 eq_refl)); exists 3; split; [lia|reflexivity]|].
    destruct (at_least value 2%float);
      [rewrite (D1 eq_refl); exists 2; split; [lia|reflexivity]|].
    destruct (at_least value 1%float);
      [exists 1|exists 0]; split; try lia; reflexivity.
  - intros a b H.
    pose proof (at_least_mono a b 1%float H) as M1.
    pose proof (at_least_mono a b 2%float H) as M2.
    pose proof (at_least_mono a b 3%float H) as M3.
    pose proof (at_least_mono a b 4%float H) as M4.
    pose proof (at_least_mono a b 5%float H) as M5.
    unfold count_filled, filled_dots, ratings. cbn [map].
    destruct (at_least a 1%float); [rewrite (M1 eq_refl)|clear M1];
    (destruct (at_least a 2%float); [rewrite (M2 eq_refl)|clear M2]);
    (destruct (at_least a 3%float); [rewrite (M3 eq_refl)|clear M3]);
    (destruct (at_least a 4%float); [rewrite (M4 eq_refl)|clear M4]);
    (destruct (at_least a 5%float); [rewrite (M5 eq_refl)|clear M5]);
    repeat match goal with
           | |- context [at_least b ?r] => destruct (at_least b r)
           end; cbn; lia.
  - intros value. destruct (Down value) as (D1 & D2 & D3 & D4).
    unfold getCriteriaColor, count_filled, filled_dots, ratings. cbn [map].
    destruct (at_least value 5%float);
      [rewrite (D4 eq_refl), (D3 (D4 eq_refl)), (D2 (D3 (D4 eq_refl))),
         (D1 (D2 (D3 (D4 eq_refl))))|];
    [|destruct (at_least value 4%float);
      [rewrite (D3 eq_refl), (D2 (D3 eq_refl)), (D1 (D2 (D3 eq_refl)))|];
      [|destruct (at_least value 3%float);
        [rewrite (D2 eq_refl), (D1 (D2 eq_refl))|];
        [|destruct (at_least value 2%float); [rewrite (D1 eq_refl)|];
          [|destruct (at_least value 1%float)]]]];
    cbn [filter length];
    (split; [|split]); split; intros H;
      try reflexivity; try lia; vm_compute in H; discriminate.
  - intros value H. unfold count_filled, filled_dots, ratings. cbn [map].
    now rewrite !(NaN_at_least_nothing value _ H).
Qed.

End Scores.

(** ** Replies that pass the validation and break the render *)

(** X15. The validation does not protect the render. After a generation
    that succeeded, the render throws exactly when a field of the new idea
    is, or contains, an object; after an evaluation that succeeded, exactly
    when that holds of the idea or of a field of the evaluation, or one of
    the three lists is not an array. Both tests of the required fields let
    such values through. *)
Theorem render_after_success (ce : JsError) (h : Host) (w : World) :
  (forall ok text data,
     is_empty (trim (apiKey (ui w))) = false ->
     gateway h (TestRequest (trim (apiKey (ui w)))) = inr ok ->
     gateway h (IdeaRequest (trim (apiKey (ui w))) (selectedCategory (ui w))) = inr text ->
     parse_idea h text = inr data ->
     render_throws (ui (generateAIIdea h w)) = negb (idea_renders (idea_of h data))) /\
  (forall idea text data,
     currentIdea (ui w) = Some idea ->
     printable_idea idea = true ->
     is_empty (trim (apiKey (ui w))) = false ->
     gateway h (EvaluationRequest (trim (apiKey (ui w))) idea) = inr text ->
     parse_evaluation h text = inr data ->
     render_throws (ui (evaluate_handler ce h w))
     = negb (idea_renders idea && panel_renders (evaluation_of data))).
Proof.
  split.
  - intros ok text data Hkey Ht Hi Hp.
    unfold generateAIIdea. rewrite Hkey.
    unfold_run. cbn. rewrite Ht. cbn. rewrite Hi. cbn. rewrite Hp. cbn.
    unfold render_throws. cbn. now rewrite andb_true_r.
  - intros idea text data Hi Hprint Hkey Hg Hp.
    unfold evaluate_handler, evaluateAIIdea. rewrite Hi, Hkey, Hprint.
    unfold_run. cbn. rewrite Hg. cbn. rewrite Hp. cbn.
    unfold render_throws. cbn. now rewrite Hi.
Qed.

(** A title that is an object passes the truthiness test, and strengths
    that are a string pass the test against [null]; each makes the render
    throw. *)
Lemma render_after_success_witness :
  parse_idea (replying_host object_title_text) object_title_text
  = inr (parsed object_title_text) /\
  render_throws
    (ui (generateAIIdea (replying_host object_title_text)
           (mkWorld evaluated_state []))) = true /\
  parse_evaluation (replying_host string_strengths_text) string_strengths_text
  = inr (parsed string_strengths_text) /\
  render_throws
    (ui (evaluate_handler v8_conversion_error (replying_host string_strengths_text)
           (mkWorld evaluated_state []))) = true.
Proof.
  assert (parse_idea (replying_host object_title_text) object_title_text
          = inr (parsed object_title_text)) as Hi by (vm_compute; reflexivity).
  assert (parse_evaluation (replying_host string_strengths_text) string_strengths_text
          = inr (parsed string_strengths_text)) as He by (vm_compute; reflexivity).
  split; [exact Hi|]. split; [|split; [exact He|]].
  - rewrite (proj1 (render_after_success v8_conversion_error
                      (replying_host object_title_text)
                      (mkWorld evaluated_state []))
               (lit "API connection successful") object_title_text
               (parsed object_title_text) eq_refl eq_refl eq_refl Hi).
    vm_compute. reflexivity.
  - rewrite (proj2 (render_after_success v8_conversion_error
                      (replying_host string_strengths_text)
                      (mkWorld evaluated_state []))
               sample_idea string_strengths_text
               (parsed string_strengths_text) eq_refl eq_refl eq_refl eq_refl He).
    vm_compute. reflexivity.
Defined.

(** ** The examples in the prompts *)

Section PromptExamples.

(** The fields that the handler can put into the prompt are those whose
    conversion to a string is defined. *)
Lemma to_text_defined (v : json) : printable v = true <-> to_text v <> None.
Proof.
  induction v as [| | | |items IH|props IH] using json_induction;
    cbn [printable to_text]; try (split; [discriminate|reflexivity]).
  - induction IH as [|x rest Hx _ IHrest]; cbn [forallb].
    + split; [discriminate|reflexivity].
    + rewrite andb_true_iff, Hx, IHrest.
      assert (match x with JNull => Some [] | _ => to_text x end <> None
              <-> to_text x <> None) as Ha
        by (destruct x; split; intros; try discriminate; assumption).
      rewrite <- Ha.
      destruct (match x with JNull => Some [] | _ => to_text x end);
        destruct ((fix join (l : list json) : option jsstring :=
                     match l with
                     | [] => Some []
                     | x :: rest =>
                         match match x with JNull => Some [] | _ => to_text x end,
                               join rest with
                         | Some a, Some b =>
                             Some (a ++ match rest with
                                        | [] => []
                                        | _ :: _ => COMMA :: b
                                        end)
                         | _, _ => None
                         end
                     end) rest);
        split; try (intros [? ?]); try intros ?; try split;
        try discriminate; try congruence.
  - destruct (has_key (lit "toString") props); cbn [negb];
      split; intros; try discriminate; try congruence.
Qed.

Lemma evaluation_prompt_defined (idea : Idea) :
  printable_idea idea = true <-> evaluation_prompt idea <> None.
Proof.
  assert (forall v, printable_value v = true <-> value_text v <> None) as X.
  { intros [v|]; cbn [printable_value value_text];
      [apply to_text_defined|split; [discriminate|reflexivity]]. }
  unfold printable_idea, evaluation_prompt.
  rewrite !andb_true_iff, !X.
  destruct (value_text (title idea)), (value_text (description idea)),
    (value_text (category idea)), (value_text (targetMarket idea)),
    (value_text (problem idea)), (value_text (solution idea));
    split; intros H; try discriminate; try tauto;
    repeat split; try discriminate; exfalso; now apply H.
Qed.

Lemma not_in_by_forallb (x : N) (l : jsstring) :
  forallb (fun c => negb (N.eqb c x)) l = true -> ~ In x l.
Proof.
  intros H Hin. rewrite forallb_forall in H. specialize (H x Hin).
  now rewrite N.eqb_refl in H.
Qed.

(** Either pipeline on a text that holds an object between brace-free ends. *)
Lemma parse_response_in_prose (h : Host) (no_json missing : jsstring)
    (present : jsvalue -> bool) (fields : list jsstring) (pre mid post : jsstring) :
  ~ In LBRACE pre -> ~ In RBRACE post ->
  parse_response h no_json missing present fields
    (pre ++ LBRACE :: mid ++ RBRACE :: post)
  = match JSON_parse (LBRACE :: mid ++ [RBRACE]) with
    | inr position =>
        inl (new_SyntaxError
               (syntax_error_message h (LBRACE :: mid ++ [RBRACE]) position))
    | inl data =>
        match first_missing present data fields with
        | Some field => inl (new_Error (missing ++ field))
        | None => inr data
        end
    end.
Proof.
  intros Hpre Hpost. unfold parse_response.
  now rewrite (object_located_in_prose pre mid post Hpre Hpost).
Qed.

Lemma evaluation_example_shape :
  evaluation_example
  = LBRACE :: removelast (tl evaluation_example) ++ [RBRACE].
Proof. vm_compute. reflexivity. Qed.

Lemma evaluation_example_parses :
  JSON_parse evaluation_example = inl example_evaluation /\
  keys_of example_evaluation = evaluation_requiredFields /\
  first_missing not_nullish example_evaluation evaluation_requiredFields = None.
Proof. repeat split; vm_compute; reflexivity. Qed.

Lemma evaluation_heading_brace_free
    (t d c m p s : jsstring) :
  Forall (fun field => ~ In LBRACE field) [t; d; c; m; p; s] ->
  ~ In LBRACE (evaluation_heading t d c m p s ++ [LF]).
Proof.
  intros Hf Hin.
  inversion_clear Hf as [|? ? Ht Hf1]. inversion_clear Hf1 as [|? ? Hd Hf2].
  inversion_clear Hf2 as [|? ? Hc Hf3]. inversion_clear Hf3 as [|? ? Hm Hf4].
  inversion_clear Hf4 as [|? ? Hp Hf5]. inversion_clear Hf5 as [|? ? Hs _].
  unfold evaluation_heading in Hin. cbn [join_lines] in Hin.
  repeat match type of Hin with
         | In _ (_ ++ _) => apply in_app_or in Hin as [Hin|Hin]
         | In _ (_ :: _) =>
             destruct Hin as [Hin|Hin]; [vm_compute in Hin; discriminate Hin|]
         | In _ [] => destruct Hin
         | In _ (lit _) =>
             exfalso; revert Hin; apply not_in_by_forallb; vm_compute; reflexivity
         | _ => contradiction
         end.
Qed.

End PromptExamples.

(** X16. The example object that the evaluation prompt shows to the model
    is itself a reply that the evaluation pipeline accepts: for every idea
    whose six texts hold no opening brace, the pipeline run on the whole
    prompt finds the example between the description of the idea and the
    legend, and validates it. The keys of the example are exactly the
    required fields, in the order of the field list. *)
Theorem evaluation_prompt_example_accepted (h : Host)
    (t d c m p s : jsstring) :
  Forall (fun field => ~ In LBRACE field) [t; d; c; m; p; s] ->
  parse_evaluation h (evaluation_prompt_text t d c m p s) = inr example_evaluation /\
  keys_of example_evaluation = evaluation_requiredFields /\
  includes (evaluation_prompt_text t d c m p s) evaluation_example = true.
Proof.
  intros Hf.
  destruct evaluation_example_parses as (Hparse & Hkeys & Hcheck).
  assert (evaluation_prompt_text t d c m p s
          = (evaluation_heading t d c m p s ++ [LF])
              ++ LBRACE :: removelast (tl evaluation_example)
              ++ RBRACE :: LF :: evaluation_legend) as E.
  { unfold evaluation_prompt_text. rewrite evaluation_example_shape at 1.
    rewrite <- !app_assoc. cbn [app]. rewrite <- !app_assoc. reflexivity. }
  split; [|split; [exact Hkeys|]].
  - rewrite E. unfold parse_evaluation.
    rewrite parse_response_in_prose.
    + rewrite <- evaluation_example_shape, Hparse, Hcheck. reflexivity.
    + now apply evaluation_heading_brace_free.
    + apply not_in_by_forallb. vm_compute. reflexivity.
  - unfold evaluation_prompt_text.
    apply includes_app_right.
    change (LF :: evaluation_example ++ LF :: evaluation_legend)
      with ([LF] ++ evaluation_example ++ LF :: evaluation_legend).
    apply includes_app_right, includes_startsWith, startsWith_app.
Qed.

(** The prompt for the sample idea. *)
Lemma evaluation_prompt_example_accepted_witness :
  evaluation_prompt sample_idea
  = Some (evaluation_prompt_text (lit "PayLeaf") (lit "Carbon-aware payments")
            (lit "FinTech") (lit "Small shops") (lit "Opaque footprint")
            (lit "Per-transaction offsets")) /\
  parse_evaluation (replying_host [])
    (evaluation_prompt_text (lit "PayLeaf") (lit "Carbon-aware payments")
       (lit "FinTech") (lit "Small shops") (lit "Opaque footprint")
       (lit "Per-transaction offsets"))
  = inr example_evaluation.
Proof.
  split; [vm_compute; reflexivity|].
  refine (proj1 (evaluation_prompt_example_accepted (replying_host [])
                   (lit "PayLeaf") (lit "Carbon-aware payments") (lit "FinTech")
                   (lit "Small shops") (lit "Opaque footprint")
                   (lit "Per-transaction offsets") _)).
  repeat (constructor; [apply not_in_by_forallb; vm_compute; reflexivity|]).
  constructor.
Defined.

Section GenerationExample.

Lemma parse_chars_plain_text (s rest : jsstring) :
  plain_text s = true -> parse_chars (s ++ QUOTE :: rest) = POk s rest.
Proof.
  induction s as [|c s IH]; intros H.
  - reflexivity.
  - cbn [plain_text forallb] in H. apply andb_prop in H as [Hc Hs].
    unfold plain_unit in Hc.
    repeat (apply andb_prop in Hc as [Hc ?]).
    rewrite negb_true_iff in *.
    cbn [app]. rewrite parse_chars_plain by assumption.
    now rewrite (IH Hs).
Qed.

Lemma plain_text_no_brace (s : jsstring) : plain_text s = true -> ~ In LBRACE s.
Proof.
  intros H. apply not_in_by_forallb.
  unfold plain_text in H. rewrite forallb_forall in *.
  intros c Hc. specialize (H c Hc). unfold plain_unit in H.
  now apply andb_prop in H as [_ H].
Qed.

(** The opening brace and the indentation before the first key. *)
Lemma parse_value_opens (f : nat) (r : jsstring) :
  parse_value (S f) (LBRACE :: LF :: 32%N :: 32%N :: QUOTE :: r)
  = parse_members f (QUOTE :: r) [].
Proof. reflexivity. Qed.

(** A comma, the end of the line and the indentation before the next key. *)
Lemma next_member (f : nat) (r : jsstring) (k : jsstring) (v : json)
    (acc : list (jsstring * json)) :
  match skip_ws (COMMA :: LF :: 32%N :: 32%N :: QUOTE :: r) with
  | [] => PFail []
  | c3 :: r4 =>
      if N.eqb c3 COMMA then parse_members (S f) r4 (obj_set k v acc)
      else if N.eqb c3 RBRACE then POk (JObject (obj_set k v acc)) r4
      else PFail (c3 :: r4)
  end
  = parse_members (S f) (QUOTE :: r) (obj_set k v acc).
Proof. reflexivity. Qed.

(** A value that is a string of plain text, after the blank behind the
    colon. *)
Lemma parse_value_plain_string (f : nat) (s rest : jsstring) :
  plain_text s = true ->
  parse_value (S f) (32%N :: QUOTE :: s ++ QUOTE :: rest) = POk (JString s) rest.
Proof.
  intros H.
  change (parse_value (S f) (32%N :: QUOTE :: s ++ QUOTE :: rest))
    with (pmap JString (parse_chars (s ++ QUOTE :: rest))).
  now rewrite parse_chars_plain_text.
Qed.

Lemma key_read (key rest : jsstring) :
  plain_text key = true ->
  parse_chars (key ++ QUOTE :: COLON :: rest) = POk key (COLON :: rest).
Proof. apply parse_chars_plain_text. Qed.

(** One line of the example: a key and a string of plain text. *)
Lemma member_line (f : nat) (key value rest : jsstring)
    (acc : list (jsstring * json)) :
  plain_text key = true -> plain_text value = true ->
  parse_members (S (S f))
    (QUOTE :: key ++ QUOTE :: COLON :: 32%N :: QUOTE :: value ++ QUOTE :: rest) acc
  = match skip_ws rest with
    | [] => PFail []
    | c3 :: r4 =>
        if N.eqb c3 COMMA then parse_members (S f) r4 (obj_set key (JString value) acc)
        else if N.eqb c3 RBRACE then POk (JObject (obj_set key (JString value) acc)) r4
        else PFail (c3 :: r4)
    end.
Proof.
  intros Hk Hv.
  apply (parse_members_step (S f)
           (key ++ QUOTE :: COLON :: 32%N :: QUOTE :: value ++ QUOTE :: rest)
           (32%N :: QUOTE :: value ++ QUOTE :: rest) rest acc key (JString value)).
  - now apply key_read.
  - now apply parse_value_plain_string.
Qed.

Lemma member_line_next (f : nat) (key value rest : jsstring)
    (acc : list (jsstring * json)) :
  plain_text key = true -> plain_text value = true ->
  parse_members (S (S f))
    (QUOTE :: key ++ QUOTE :: COLON :: 32%N :: QUOTE :: value ++ QUOTE ::
       COMMA :: LF :: 32%N :: 32%N :: QUOTE :: rest) acc
  = parse_members (S f) (QUOTE :: rest) (obj_set key (JString value) acc).
Proof.
  intros Hk Hv. rewrite member_line by assumption. reflexivity.
Qed.

Lemma member_line_last (f : nat) (key value : jsstring)
    (acc : list (jsstring * json)) :
  plain_text key = true -> plain_text value = true ->
  parse_members (S (S f))
    (QUOTE :: key ++ QUOTE :: COLON :: 32%N :: QUOTE :: value ++ QUOTE ::
       LF :: [RBRACE]) acc
  = POk (JObject (obj_set key (JString value) acc)) [].
Proof.
  intros Hk Hv. rewrite member_line by assumption. reflexivity.
Qed.

(** The example of the generation prompt, line by line. *)
Lemma idea_example_lines (cat : jsstring) :
  join_lines
    [lit "{";
     example_line "title" (quoted "Startup name") (lit ",");
     example_line "description" (quoted "Brief description") (lit ",");
     example_line "category" (QUOTE :: cat ++ [QUOTE]) (lit ",");
     example_line "targetMarket" (quoted "Target market") (lit ",");
     example_line "problem" (quoted "Problem solved") (lit ",");
     example_line "solution" (quoted "Solution provided") [];
     lit "}"]
  = LBRACE :: LF :: 32%N :: 32%N ::
    QUOTE :: lit "title" ++ QUOTE :: COLON :: 32%N :: QUOTE :: lit "Startup name"
      ++ QUOTE :: COMMA :: LF :: 32%N :: 32%N ::
    QUOTE :: lit "description" ++ QUOTE :: COLON :: 32%N :: QUOTE ::
      lit "Brief description" ++ QUOTE :: COMMA :: LF :: 32%N :: 32%N ::
    QUOTE :: lit "category" ++ QUOTE :: COLON :: 32%N :: QUOTE :: cat
      ++ QUOTE :: COMMA :: LF :: 32%N :: 32%N ::
    QUOTE :: lit "targetMarket" ++ QUOTE :: COLON :: 32%N :: QUOTE ::
      lit "Target market" ++ QUOTE :: COMMA :: LF :: 32%N :: 32%N ::
    QUOTE :: lit "problem" ++ QUOTE :: COLON :: 32%N :: QUOTE ::
      lit "Problem solved" ++ QUOTE :: COMMA :: LF :: 32%N :: 32%N ::
    QUOTE :: lit "solution" ++ QUOTE :: COLON :: 32%N :: QUOTE ::
      lit "Solution provided" ++ QUOTE :: LF :: [RBRACE].
Proof.
  unfold example_line, quoted. cbn [join_lines].
  change (lit "{") with [LBRACE]. change (lit "}") with [RBRACE].
  change (lit "  ") with [32%N; 32%N]. change (lit ": ") with [COLON; 32%N].
  change (lit ",") with [COMMA].
  repeat (cbn [app]; rewrite <- ?app_assoc).
  reflexivity.
Qed.

Lemma idea_example_reads (f : nat) (cat : jsstring) :
  plain_text cat = true ->
  parse_value (8 + f)
    (join_lines
       [lit "{";
        example_line "title" (quoted "Startup name") (lit ",");
        example_line "description" (quoted "Brief description") (lit ",");
        example_line "category" (QUOTE :: cat ++ [QUOTE]) (lit ",");
        example_line "targetMarket" (quoted "Target market") (lit ",");
        example_line "problem" (quoted "Problem solved") (lit ",");
        example_line "solution" (quoted "Solution provided") [];
        lit "}"])
  = POk
      (JObject
         [(lit "title", JString (lit "Startup name"));
          (lit "description", JString (lit "Brief description"));
          (lit "category", JString cat);
          (lit "targetMarket", JString (lit "Target market"));
          (lit "problem", JString (lit "Problem solved"));
          (lit "solution", JString (lit "Solution provided"))]) [].
Proof.
  intros Hcat. rewrite idea_example_lines.
  change (8 + f) with (S (S (S (S (S (S (S (S f)))))))).
  rewrite parse_value_opens.
  rewrite !member_line_next by first [assumption | vm_compute; reflexivity].
  rewrite member_line_last by (vm_compute; reflexivity).
  reflexivity.
Qed.

Lemma idea_example_braces (cat : jsstring) :
  exists mid,
    join_lines
      [lit "{";
       example_line "title" (quoted "Startup name") (lit ",");
       example_line "description" (quoted "Brief description") (lit ",");
       example_line "category" (QUOTE :: cat ++ [QUOTE]) (lit ",");
       example_line "targetMarket" (quoted "Target market") (lit ",");
       example_line "problem" (quoted "Problem solved") (lit ",");
       example_line "solution" (quoted "Solution provided") [];
       lit "}"]
    = LBRACE :: mid ++ [RBRACE].
Proof.
  rewrite idea_example_lines.
  exists (LF :: 32%N :: 32%N ::
          QUOTE :: lit "title" ++ QUOTE :: COLON :: 32%N :: QUOTE ::
            lit "Startup name" ++ QUOTE :: COMMA :: LF :: 32%N :: 32%N ::
          QUOTE :: lit "description" ++ QUOTE :: COLON :: 32%N :: QUOTE ::
            lit "Brief description" ++ QUOTE :: COMMA :: LF :: 32%N :: 32%N ::
          QUOTE :: lit "category" ++ QUOTE :: COLON :: 32%N :: QUOTE :: cat
            ++ QUOTE :: COMMA :: LF :: 32%N :: 32%N ::
          QUOTE :: lit "targetMarket" ++ QUOTE :: COLON :: 32%N :: QUOTE ::
            lit "Target market" ++ QUOTE :: COMMA :: LF :: 32%N :: 32%N ::
          QUOTE :: lit "problem" ++ QUOTE :: COLON :: 32%N :: QUOTE ::
            lit "Problem solved" ++ QUOTE :: COMMA :: LF :: 32%N :: 32%N ::
          QUOTE :: lit "solution" ++ QUOTE :: COLON :: 32%N :: QUOTE ::
            lit "Solution provided" ++ QUOTE :: [LF]).
  repeat (cbn [app]; rewrite <- ?app_assoc).
  reflexivity.
Qed.

Lemma example_parsed_for (cat : jsstring) :
  plain_text cat = true ->
  JSON_parse
    (join_lines
       [lit "{";
        example_line "title" (quoted "Startup name") (lit ",");
        example_line "description" (quoted "Brief description") (lit ",");
        example_line "category" (QUOTE :: cat ++ [QUOTE]) (lit ",");
        example_line "targetMarket" (quoted "Target market") (lit ",");
        example_line "problem" (quoted "Problem solved") (lit ",");
        example_line "solution" (quoted "Solution provided") [];
        lit "}"])
  = inl
      (JObject
         [(lit "title", JString (lit "Startup name"));
          (lit "description", JString (lit "Brief description"));
          (lit "category", JString cat);
          (lit "targetMarket", JString (lit "Target market"));
          (lit "problem", JString (lit "Problem solved"));
          (lit "solution", JString (lit "Solution provided"))]).
Proof.
  intros Hcat. unfold JSON_parse.
  assert (exists f,
             S (2 * length
                      (join_lines
                         [lit "{";
                          example_line "title" (quoted "Startup name") (lit ",");
                          example_line "description" (quoted "Brief description") (lit ",");
                          example_line "category" (QUOTE :: cat ++ [QUOTE]) (lit ",");
                          example_line "targetMarket" (quoted "Target market") (lit ",");
                          example_line "problem" (quoted "Problem solved") (lit ",");
                          example_line "solution" (quoted "Solution provided") [];
                          lit "}"]))
             = 8 + f) as [f Hf].
  { rewrite idea_example_lines. cbn [length].
    match goal with
    | |- exists f, S (2 * S (S (S (S ?n)))) = 8 + f => exists (S (2 * n)); lia
    end. }
  rewrite Hf, (idea_example_reads f cat Hcat). reflexivity.
Qed.

Lemma idea_example_parsed (selected : jsstring) :
  plain_text selected = true ->
  JSON_parse (idea_example selected) = inl (example_idea selected).
Proof.
  intros H. unfold idea_example, example_idea.
  destruct selected as [|c s]; cbn [is_empty]; apply example_parsed_for;
    [vm_compute; reflexivity|exact H].
Qed.

Lemma idea_example_in_braces (selected : jsstring) :
  exists mid, idea_example selected = LBRACE :: mid ++ [RBRACE].
Proof.
  unfold idea_example.
  destruct selected as [|c s]; cbn [is_empty]; apply idea_example_braces.
Qed.

Lemma idea_prompt_split (selected : jsstring) :
  idea_prompt selected
  = (lit "Generate a startup idea " ++ categoryPrompt selected
       ++ lit ". Respond with valid JSON only:" ++ [LF; LF])
      ++ idea_example selected.
Proof.
  unfold idea_prompt. cbn [join_lines]. rewrite <- !app_assoc. reflexivity.
Qed.

Lemma idea_prompt_opening_brace_free (selected : jsstring) :
  plain_text selected = true ->
  ~ In LBRACE (lit "Generate a startup idea " ++ categoryPrompt selected
                 ++ lit ". Respond with valid JSON only:" ++ [LF; LF]).
Proof.
  intros H Hin. pose proof (plain_text_no_brace selected H) as Hs.
  unfold categoryPrompt in Hin.
  destruct (is_empty selected);
    repeat match type of Hin with
           | In _ (_ ++ _) => apply in_app_or in Hin as [Hin|Hin]
           | In _ (_ :: _) =>
               destruct Hin as [Hin|Hin]; [vm_compute in Hin; discriminate Hin|]
           | In _ [] => destruct Hin
           | In _ (lit _) =>
               exfalso; revert Hin; apply not_in_by_forallb; vm_compute; reflexivity
           | _ => contradiction
           end.
Qed.

End GenerationExample.

(** X17. The example object that the generation prompt shows to the model
    is itself a reply that the generation pipeline accepts: for every
    selected category made of plain text, which every option of the select
    is, the pipeline run on the whole prompt finds the example behind the
    instruction and validates it. Its keys are exactly the required fields,
    in the order of the field list, and its category is the selected one,
    [Innovation] when none is selected. *)
Theorem generation_prompt_example_accepted (h : Host) :
  Forall (fun option => plain_text option = true) category_options /\
  forall selected,
    plain_text selected = true ->
    parse_idea h (idea_prompt selected) = inr (example_idea selected) /\
    keys_of (example_idea selected) = idea_requiredFields /\
    get_field (example_idea selected) (lit "category")
    = Some (JString (if is_empty selected then lit "Innovation" else selected)).
Proof.
  split.
  - repeat (constructor; [vm_compute; reflexivity|]). constructor.
  - intros selected H. split; [|split; reflexivity].
    rewrite idea_prompt_split.
    pose proof (idea_example_parsed selected H) as Hparse.
    destruct (idea_example_in_braces selected) as [mid Hmid].
    rewrite Hmid in *.
    change (LBRACE :: mid ++ [RBRACE]) with (LBRACE :: mid ++ RBRACE :: []).
    unfold parse_idea.
    rewrite parse_response_in_prose;
      [|now apply idea_prompt_opening_brace_free|intros []].
    rewrite Hparse.
    now destruct selected.
Qed.

(** The prompt for the [FinTech] option of the select. *)
Lemma generation_prompt_example_accepted_witness :
  plain_text (lit "FinTech") = true /\
  parse_idea (replying_host []) (idea_prompt (lit "FinTech"))
  = inr (example_idea (lit "FinTech")).
Proof.
  split; [vm_compute; reflexivity|].
  refine (proj1 (proj2 (generation_prompt_example_accepted (replying_host []))
                   (lit "FinTech") _)).
  vm_compute; reflexivity.
Defined.
